(** * jira-agent: the polling orchestrator and its pull-request lifecycle store

    A shallow embedding of

    - [src/jirade/pr_tracker.py]  (the lifecycle store, [PRTracker]),
    - [src/jira_agent/main.py]    (the poll loop of [handle_watch] and the
      ticket-key correlation it performs with [re.search]),

    followed by the properties of the specification that concern them,
    and of

    - the listings and the one-ticket commands of [src/jira_agent/main.py]
      ([handle_list_prs], [handle_list_tickets],
      [_interactive_ticket_selection], [handle_process_ticket],
      [handle_init_config]),
    - [src/jirade/environment/checker.py]  (the environment check),

    followed by further properties of the code: of the store over whole
    runs of calls and across restarts, of the poll loop over whole runs,
    of the correlator, of the commands and of the environment check.

    Layout: part I holds the embedding (modules [Py], [Tracker],
    [Correlator], [Watch], the sample inputs of [Samples], then [Pattern],
    [StoreContract], [WatchContract], [Cli] and [Checker]); part II holds
    the lemmas and theorems. *)

From Stdlib Require Import ZArith String Ascii List Bool Lia.
From stdpp Require Import base decidable option list strings gmap pretty.

Set Warnings "-register-all".

(* ===================================================================== *)
(** * Part I: the embedding                                               *)
(* ===================================================================== *)

(** ** Python values, dictionaries and exceptions *)

Module Py.

(** The values a record attribute can hold: what [json.loads] produces and
    what a caller passes as a keyword argument.  Python checks none of the
    dataclass annotations at run time, so an attribute is a [value] and not
    an element of its annotated type.  Floats and other objects are left
    out of the model. *)
Inductive value : Type :=
| VNone
| VBool (b : bool)
| VInt (z : Z)
| VStr (s : string)
| VList (items : list value)
| VDict (entries : list (string * value)).

(** [bool(v)]: the truth value Python gives [v] in [if], [and], [or], [not]. *)
Definition truthy (v : value) : bool :=
  match v with
  | VNone => false
  | VBool b => b
  | VInt z => negb (Z.eqb z 0)
  | VStr s => negb (String.eqb s "")
  | VList items => match items with [] => false | _ :: _ => true end
  | VDict entries => match entries with [] => false | _ :: _ => true end
  end.

(** [a or b], [a and b], [not a]: the first two return one of the operands. *)
Definition py_or (a b : value) : value := if truthy a then a else b.
Definition py_and (a b : value) : value := if truthy a then b else a.
Definition py_not (a : value) : value := VBool (negb (truthy a)).

(** [v == s] for a string [s]: only a string compares equal to a string. *)
Definition eq_str (v : value) (s : string) : bool :=
  match v with
  | VStr t => String.eqb t s
  | _ => false
  end.

(** A [dict] with string keys.  Python dictionaries keep insertion order and
    [.values()] / [.items()] iterate in that order, so the model is an
    association list in which every key occurs at most once. *)
Definition dict (V : Type) : Type := list (string * V).

(** [d.get(k)] *)
Fixpoint dict_get {V : Type} (k : string) (d : dict V) : option V :=
  match d with
  | [] => None
  | (k', v) :: d' => if String.eqb k' k then Some v else dict_get k d'
  end.

(** [d[k] = v]: an existing key keeps its position, a new key goes last. *)
Fixpoint dict_set {V : Type} (k : string) (v : V) (d : dict V) : dict V :=
  match d with
  | [] => [(k, v)]
  | (k', v') :: d' =>
      if String.eqb k' k then (k', v) :: d' else (k', v') :: dict_set k v d'
  end.

(** [del d[k]] (on a key that is present) *)
Fixpoint dict_del {V : Type} (k : string) (d : dict V) : dict V :=
  match d with
  | [] => []
  | (k', v') :: d' =>
      if String.eqb k' k then d' else (k', v') :: dict_del k d'
  end.

(** [k in d], [d.keys()], [d.values()] *)
Definition dict_mem {V : Type} (k : string) (d : dict V) : bool :=
  match dict_get k d with Some _ => true | None => false end.
Definition dict_keys {V : Type} (d : dict V) : list string := map fst d.
Definition dict_values {V : Type} (d : dict V) : list V := map snd d.

(** The invariant of a Python dictionary: keys are pairwise distinct. *)
Definition dict_wf {V : Type} (d : dict V) : Prop := NoDup (dict_keys d).

(** The result of a call: a value, or an exception (an instance of
    [Exception]) with its message. *)
Inductive outcome (A : Type) : Type :=
| Returned (a : A)
| Raised (exc : string).
Arguments Returned {A} a.
Arguments Raised {A} exc.

End Py.

(** ** The lifecycle store: [src/jirade/pr_tracker.py] *)

Module Tracker.
Import Py.

(** [@dataclass class TrackedPR]: eleven attributes, in declaration order. *)
Record TrackedPR : Type := mkTrackedPR {
  pr_number : value;
  pr_url : value;
  repo : value;
  ticket_key : value;
  branch : value;
  created_at : value;
  last_checked : value;
  status : value;
  ci_status : value;
  has_feedback : value;
  feedback_addressed : value
}.

Definition field_names : list string :=
  ["pr_number"; "pr_url"; "repo"; "ticket_key"; "branch"; "created_at";
   "last_checked"; "status"; "ci_status"; "has_feedback";
   "feedback_addressed"]%string.

(** The six fields without a default: [TrackedPR(...)] needs them. *)
Definition required_fields : list string :=
  ["pr_number"; "pr_url"; "repo"; "ticket_key"; "branch"; "created_at"]%string.

Definition is_field (name : string) : bool :=
  existsb (String.eqb name) field_names.

(** [dataclasses.asdict(pr)] *)
Definition asdict (pr : TrackedPR) : dict value :=
  [("pr_number", pr_number pr); ("pr_url", pr_url pr); ("repo", repo pr);
   ("ticket_key", ticket_key pr); ("branch", branch pr);
   ("created_at", created_at pr); ("last_checked", last_checked pr);
   ("status", status pr); ("ci_status", ci_status pr);
   ("has_feedback", has_feedback pr);
   ("feedback_addressed", feedback_addressed pr)]%string.

(** [getattr(pr, name)] for [name] a field. *)
Definition getattr (pr : TrackedPR) (name : string) : option value :=
  dict_get name (asdict pr).

(** [setattr(pr, name, v)] for [name] one of the eleven fields (any other
    name leaves the record as it is). *)
Definition setattr_field (pr : TrackedPR) (name : string) (v : value) : TrackedPR :=
  let pick (f : TrackedPR -> value) (n : string) : value :=
    if String.eqb name n then v else f pr in
  {| pr_number := pick pr_number "pr_number"%string;
     pr_url := pick pr_url "pr_url"%string;
     repo := pick repo "repo"%string;
     ticket_key := pick ticket_key "ticket_key"%string;
     branch := pick branch "branch"%string;
     created_at := pick created_at "created_at"%string;
     last_checked := pick last_checked "last_checked"%string;
     status := pick status "status"%string;
     ci_status := pick ci_status "ci_status"%string;
     has_feedback := pick has_feedback "has_feedback"%string;
     feedback_addressed := pick feedback_addressed "feedback_addressed"%string |}.

(** The generated [__init__], called with a dictionary of keyword arguments
    (the call [TrackedPR] makes on an unpacked [pr_data]).  A keyword that is
    no field, or a missing required field, is a [TypeError]; the five
    trailing fields take their declared defaults. *)
Definition TrackedPR_init (kw : dict value) : option TrackedPR :=
  if forallb is_field (dict_keys kw)
     && forallb (fun n => dict_mem n kw) required_fields
  then
    let arg (n : string) (default : value) : value :=
      match dict_get n kw with Some v => v | None => default end in
    Some {| pr_number := arg "pr_number"%string VNone;
            pr_url := arg "pr_url"%string VNone;
            repo := arg "repo"%string VNone;
            ticket_key := arg "ticket_key"%string VNone;
            branch := arg "branch"%string VNone;
            created_at := arg "created_at"%string VNone;
            last_checked := arg "last_checked"%string VNone;
            status := arg "status"%string (VStr "open");
            ci_status := arg "ci_status"%string (VStr "pending");
            has_feedback := arg "has_feedback"%string (VBool false);
            feedback_addressed := arg "feedback_addressed"%string (VBool false) |}
  else None.

(** What the interpreter and the operating system supply.
    - [utcnow n]: the text of [datetime.now(timezone.utc).isoformat()] at
      the [n]-th reading of the clock;
    - [class_attr name]: whether [name] resolves on the class of a record
      rather than in the record itself ([__class__], [__doc__], [__eq__], ...;
      the set depends on the Python version);
    - [setattr_class_attr]: what assigning to such a name does. *)
Record Runtime : Type := mkRuntime {
  utcnow : nat -> string;
  class_attr : string -> bool;
  setattr_class_attr : TrackedPR -> string -> value -> outcome TrackedPR
}.

(** [hasattr(pr, name)] *)
Definition hasattr (rt : Runtime) (name : string) : bool :=
  is_field name || class_attr rt name.

(** [setattr(pr, name, v)] under [hasattr(pr, name)] *)
Definition setattr (rt : Runtime) (pr : TrackedPR) (name : string) (v : value)
  : outcome TrackedPR :=
  if is_field name then Returned (setattr_field pr name v)
  else setattr_class_attr rt pr name v.

(** The file at [tracker_path]: out of reach ([tracker_path.exists()] itself
    raises: it passes on every [OSError] that does not mean "not there",
    such as a directory of the path that may not be searched or a name that
    is too long), absent, present but not readable as JSON ([read_text] or
    [json.loads] raises), or holding a JSON document. *)
Inductive file : Type :=
| Inaccessible (exc : string)
| Missing
| Unreadable
| Document (doc : value).

Inductive log_record : Type :=
| LogWarning (msg : string)
| LogInfo (msg : string).

(** A [PRTracker] together with the part of the world it acts on: the
    records in memory, the file at [tracker_path], the number of clock
    readings so far, and what was handed to the logger (newest last). *)
Record PRTracker : Type := mkPRTracker {
  prs : dict TrackedPR;
  disk : file;
  clock : nat;
  log : list log_record
}.

Definition with_prs (d : dict TrackedPR) (t : PRTracker) : PRTracker :=
  {| prs := d; disk := disk t; clock := clock t; log := log t |}.
Definition with_log (r : log_record) (t : PRTracker) : PRTracker :=
  {| prs := prs t; disk := disk t; clock := clock t; log := log t ++ [r] |}.

(** The loop of [_load]: [self.prs[key] = TrackedPR] of the unpacked
    [pr_data], for each entry, in order; the first entry that [TrackedPR]
    rejects raises, and the entries stored before it stay.  The boolean
    tells whether it raised. *)
Fixpoint load_entries (entries : list (string * value)) (d : dict TrackedPR)
  : dict TrackedPR * bool :=
  match entries with
  | [] => (d, false)
  | (key, VDict pr_data) :: rest =>
      match TrackedPR_init pr_data with
      | Some pr => load_entries rest (dict_set key pr d)
      | None => (d, true)
      end
  | (_, _) :: _ => (d, true)
  end.

(** The body of the [try] in [_load]:
    [for key, pr_data in data.get("prs", {}).items(): ...].
    [data.get] exists only on a dictionary and so does [.items()]. *)
Definition load_document (doc : value) (d : dict TrackedPR)
  : dict TrackedPR * bool :=
  match doc with
  | VDict data =>
      match dict_get "prs" data with
      | None => (d, false)
      | Some (VDict entries) => load_entries entries d
      | Some _ => (d, true)
      end
  | _ => (d, true)
  end.

Definition load_warning : log_record := LogWarning "Failed to load PR tracker".

(** [PRTracker._load].  The test [self.tracker_path.exists()] stands in
    front of the [try]: what it raises leaves [_load].  Every exception
    raised inside the [try] is caught and logged as a warning. *)
Definition _load (t : PRTracker) : outcome PRTracker :=
  match disk t with
  | Inaccessible exc => Raised exc
  | Missing => Returned t
  | Unreadable => Returned (with_log load_warning t)
  | Document doc =>
      let '(d, raised) := load_document doc (prs t) in
      Returned (if raised then with_log load_warning (with_prs d t)
                else with_prs d t)
  end.

(** [PRTracker(prs=..., tracker_path=...)]: [__post_init__] calls [_load],
    and what [_load] raises leaves the constructor. *)
Definition PRTracker_new (initial : dict TrackedPR) (on_disk : file) (now : nat)
  : outcome PRTracker :=
  _load {| prs := initial; disk := on_disk; clock := now; log := [] |}.

(** The document [_save] writes. *)
Definition document_of (d : dict TrackedPR) (updated_at : string) : value :=
  VDict [("prs"%string, VDict (map (fun kv => (fst kv, VDict (asdict (snd kv)))) d));
         ("updated_at"%string, VStr updated_at)].

(** [PRTracker._save]: rewrite the whole file (the file system is taken to
    accept the write). *)
Definition _save (rt : Runtime) (t : PRTracker) : PRTracker :=
  {| prs := prs t;
     disk := Document (document_of (prs t) (utcnow rt (clock t)));
     clock := S (clock t);
     log := log t |}.

(** [PRTracker._key]: [f"{repo}#{pr_number}"] *)
Definition _key (repo : string) (pr_number : Z) : string :=
  repo +:+ "#" +:+ pretty pr_number.

(** Whether a text holds the separator [#] of a key. *)
Fixpoint has_hash (s : string) : bool :=
  match s with
  | EmptyString => false
  | String c s' => Ascii.eqb c "#" || has_hash s'
  end.

(** [PRTracker.add_pr] *)
Definition add_pr (rt : Runtime) (pr_number : Z)
    (pr_url repo ticket_key branch : string) (t : PRTracker)
  : TrackedPR * PRTracker :=
  let key := _key repo pr_number in
  let pr :=
    {| pr_number := VInt pr_number;
       pr_url := VStr pr_url;
       repo := VStr repo;
       ticket_key := VStr ticket_key;
       branch := VStr branch;
       created_at := VStr (utcnow rt (clock t));
       last_checked := VNone;
       status := VStr "open";
       ci_status := VStr "pending";
       has_feedback := VBool false;
       feedback_addressed := VBool false |} in
  let t1 := {| prs := dict_set key pr (prs t); disk := disk t;
               clock := S (clock t); log := log t |} in
  let t2 := _save rt t1 in
  let t3 := with_log (LogInfo ("Tracking PR #" +:+ pretty pr_number
                               +:+ " for " +:+ ticket_key)) t2 in
  (pr, t3).

(** The loop of [update_pr]:
    [for field_name, value in updates.items():
         if hasattr(pr, field_name): setattr(pr, field_name, value)].
    The record is changed in place, so when an assignment raises the
    assignments made before it stay; the result is the record as the loop
    leaves it and the exception, if any. *)
Fixpoint apply_updates (rt : Runtime) (updates : list (string * value))
    (pr : TrackedPR) : TrackedPR * option string :=
  match updates with
  | [] => (pr, None)
  | (field_name, v) :: rest =>
      if hasattr rt field_name then
        match setattr rt pr field_name v with
        | Returned pr' => apply_updates rt rest pr'
        | Raised e => (pr, Some e)
        end
      else apply_updates rt rest pr
  end.

(** [PRTracker.update_pr].  [updates] is the dictionary the function receives
    for its keyword arguments, in the order they were written (the call
    itself rejects a keyword named like one of the parameters, so [repo]
    and [pr_number] are never among its keys).  [Returned None] is
    Python's [None]. *)
Definition update_pr (rt : Runtime) (repo : string) (pr_number : Z)
    (updates : list (string * value)) (t : PRTracker)
  : outcome (option TrackedPR) * PRTracker :=
  let key := _key repo pr_number in
  match dict_get key (prs t) with
  | None => (Returned None, t)
  | Some pr =>
      match apply_updates rt updates pr with
      | (pr1, Some e) => (Raised e, with_prs (dict_set key pr1 (prs t)) t)
      | (pr1, None) =>
          let pr2 := setattr_field pr1 "last_checked" (VStr (utcnow rt (clock t))) in
          let t1 := {| prs := dict_set key pr2 (prs t); disk := disk t;
                       clock := S (clock t); log := log t |} in
          (Returned (Some pr2), _save rt t1)
      end
  end.

(** The parameters of [update_pr].  Python binds them before the body
    runs: the call [tracker.update_pr(repo, pr_number, name=value, ...)]
    with a keyword named like one of them raises [TypeError] ("got multiple
    values for argument") and never enters the body. *)
Definition update_pr_params : list string := ["self"; "repo"; "pr_number"]%string.

Definition names_a_parameter (kwargs : list (string * value)) : bool :=
  existsb (fun kw => existsb (String.eqb (fst kw)) update_pr_params) kwargs.

(** The call [tracker.update_pr(repo, pr_number, **kwargs)]. *)
Definition call_update_pr (rt : Runtime) (repo : string) (pr_number : Z)
    (kwargs : list (string * value)) (t : PRTracker)
  : outcome (option TrackedPR) * PRTracker :=
  if names_a_parameter kwargs then (Raised "TypeError", t)
  else update_pr rt repo pr_number kwargs t.

(** [PRTracker.get_pr] *)
Definition get_pr (repo : string) (pr_number : Z) (t : PRTracker)
  : option TrackedPR :=
  dict_get (_key repo pr_number) (prs t).

(** [PRTracker.get_open_prs] *)
Definition get_open_prs (repo_filter : option string) (t : PRTracker)
  : list TrackedPR :=
  fold_left
    (fun result pr =>
       if eq_str (status pr) "open" then
         if match repo_filter with
            | None => true
            | Some r => eq_str (repo pr) r
            end
         then result ++ [pr] else result
       else result)
    (dict_values (prs t)) [].

(** [needs_attention = (pr.ci_status == "failure"
                        or (pr.has_feedback and not pr.feedback_addressed))] *)
Definition needs_attention (pr : TrackedPR) : value :=
  py_or (VBool (eq_str (ci_status pr) "failure"))
        (py_and (has_feedback pr) (py_not (feedback_addressed pr))).

(** [if repo and pr.repo != repo: continue] — the truth value of the
    argument [repo] is tested first: [None] and the empty string are false. *)
Definition repo_mismatch (repo_filter : option string) (pr : TrackedPR) : bool :=
  match repo_filter with
  | None => false
  | Some r => truthy (VStr r) && negb (eq_str (repo pr) r)
  end.

(** [PRTracker.get_prs_needing_attention] *)
Definition get_prs_needing_attention (repo_filter : option string)
    (t : PRTracker) : list TrackedPR :=
  fold_left
    (fun result pr =>
       if negb (eq_str (status pr) "open") then result
       else if repo_mismatch repo_filter pr then result
       else if truthy (needs_attention pr) then result ++ [pr]
       else result)
    (dict_values (prs t)) [].

(** [PRTracker.remove_pr] *)
Definition remove_pr (rt : Runtime) (repo : string) (pr_number : Z)
    (t : PRTracker) : bool * PRTracker :=
  let key := _key repo pr_number in
  if dict_mem key (prs t)
  then (true, _save rt (with_prs (dict_del key (prs t)) t))
  else (false, t).

(** [pr.status in ("merged", "closed")] *)
Definition is_closed (pr : TrackedPR) : bool :=
  eq_str (status pr) "merged" || eq_str (status pr) "closed".

(** [PRTracker.cleanup_closed] *)
Definition cleanup_closed (rt : Runtime) (t : PRTracker) : nat * PRTracker :=
  let to_remove := map fst (List.filter (fun kv => is_closed (snd kv)) (prs t)) in
  let d := fold_left (fun d key => dict_del key d) to_remove (prs t) in
  let t1 := with_prs d t in
  (length to_remove, match to_remove with [] => t1 | _ :: _ => _save rt t1 end).

(** *** The contract, in the words of the specification *)

(** "all [open] records where [ci_status == failure] OR ([has_feedback] AND
    NOT [feedback_addressed])", "optionally filtered by repository". *)
Definition wants_attention (pr : TrackedPR) : Prop :=
  ci_status pr = VStr "failure"
  \/ (truthy (has_feedback pr) = true /\ truthy (feedback_addressed pr) = false).

Definition of_repository (repo_filter : option string) (pr : TrackedPR) : Prop :=
  match repo_filter with
  | None => True
  | Some r => repo pr = VStr r
  end.

Definition listed_by_spec (repo_filter : option string) (pr : TrackedPR) : Prop :=
  status pr = VStr "open" /\ of_repository repo_filter pr /\ wants_attention pr.

(** The record [add_pr] builds. *)
Definition new_record (rt : Runtime) (n : Z) (url r k b : string) (t : PRTracker)
  : TrackedPR :=
  {| pr_number := VInt n; pr_url := VStr url; repo := VStr r;
     ticket_key := VStr k; branch := VStr b;
     created_at := VStr (utcnow rt (clock t));
     last_checked := VNone; status := VStr "open"; ci_status := VStr "pending";
     has_feedback := VBool false; feedback_addressed := VBool false |}.

(** The record [update_pr] leaves when only [ci_status] is supplied. *)
Definition with_ci_status (pr : TrackedPR) (v : value) (now : string) : TrackedPR :=
  {| pr_number := pr_number pr; pr_url := pr_url pr; repo := repo pr;
     ticket_key := ticket_key pr; branch := branch pr;
     created_at := created_at pr;
     last_checked := VStr now; status := status pr; ci_status := v;
     has_feedback := has_feedback pr;
     feedback_addressed := feedback_addressed pr |}.

(** "merges only the supplied fields into the existing record": the fields
    among [updates], assigned in order. *)
Definition merge_fields (updates : list (string * value)) (pr : TrackedPR)
  : TrackedPR :=
  fold_left
    (fun p u => if is_field (fst u) then setattr_field p (fst u) (snd u) else p)
    updates pr.

(** The repository filter as the code applies it: an empty repository name
    filters nothing. *)
Definition of_repository_if_named (repo_filter : option string) (pr : TrackedPR)
  : Prop :=
  match repo_filter with
  | None => True
  | Some r => r = ""%string \/ repo pr = VStr r
  end.

(** A persisted document the store can read back: a dictionary whose
    ["prs"] entry, when present, is a dictionary of records. *)
Definition record_entry (e : string * value) : Prop :=
  exists kw pr, snd e = VDict kw /\ TrackedPR_init kw = Some pr.

Definition readable_document (doc : value) : Prop :=
  exists data,
    doc = VDict data
    /\ (dict_get "prs" data = None
        \/ exists entries,
             dict_get "prs" data = Some (VDict entries)
             /\ Forall record_entry entries).

(** "Store corruption / unreadable persisted state". *)
Definition corrupt (f : file) : Prop :=
  match f with
  | Inaccessible _ => True
  | Missing => False
  | Unreadable => True
  | Document doc => ~ readable_document doc
  end.

End Tracker.

(** ** The correlator: [re.search(ticket_pattern, text, re.IGNORECASE)] *)

Module Correlator.

(** Text is a list of characters.  This module is the search on ASCII
    text, the text the poll loop is run on in this development: Python's
    [\w], [\d], [re.IGNORECASE] and [str.upper] agree with the definitions
    below on the characters below 128, and on no other.  The search on
    every text, with Python's own character classes, is [Pattern] below,
    of which this one is the instance [Pattern.ascii_alphabet]. *)
Definition is_digit (c : ascii) : bool :=
  (48 <=? nat_of_ascii c)%nat && (nat_of_ascii c <=? 57)%nat.
Definition is_upper (c : ascii) : bool :=
  (65 <=? nat_of_ascii c)%nat && (nat_of_ascii c <=? 90)%nat.
Definition is_lower (c : ascii) : bool :=
  (97 <=? nat_of_ascii c)%nat && (nat_of_ascii c <=? 122)%nat.

(** [\w] *)
Definition is_word (c : ascii) : bool :=
  is_digit c || is_upper c || is_lower c || Ascii.eqb c "_".

Definition to_upper (c : ascii) : ascii :=
  if is_lower c then ascii_of_nat (nat_of_ascii c - 32) else c.
Definition to_lower (c : ascii) : ascii :=
  if is_upper c then ascii_of_nat (nat_of_ascii c + 32) else c.

(** [s.upper()] *)
Definition upper (s : list ascii) : list ascii := map to_upper s.

(** Two characters match under [re.IGNORECASE]. *)
Definition eqb_nocase (c d : ascii) : bool := Ascii.eqb (to_lower c) (to_lower d).

(** [\b] between the character before the position and the one after it
    (none at either end of the text): exactly one of them is a word
    character. *)
Definition word_at (o : option ascii) : bool :=
  match o with Some c => is_word c | None => false end.
Definition boundary (before after : option ascii) : bool :=
  xorb (word_at before) (word_at after).

(** The pieces a ticket pattern is made of, in the order they are tried. *)
Inductive item : Type :=
| WordBoundary            (* \b *)
| GroupOpen               (* (  *)
| GroupClose              (* )  *)
| Literal (c : ascii)     (* a character taken literally *)
| Digits.                 (* \d+ *)

(** [rf"\b({re.escape(project_key)}-\d+)\b"]: [re.escape] makes every
    character of the project key stand for itself. *)
Definition ticket_pattern (project_key : list ascii) : list item :=
  [WordBoundary; GroupOpen] ++ map Literal project_key
  ++ [Literal "-"%char; Digits; GroupClose; WordBoundary].

(** A consumed character is part of group 1 while the group is open. *)
Definition keep (in_group : bool) (c : ascii) (captured : list ascii) : list ascii :=
  if in_group then c :: captured else captured.

(** [\d+] followed by the rest of the pattern [k]: greedy, so the longer run
    of digits is tried first and one digit is given back at a time. *)
Fixpoint digits_plus (in_group : bool)
    (k : option ascii -> list ascii -> option (list ascii))
    (s : list ascii) : option (list ascii) :=
  match s with
  | c :: s' =>
      if is_digit c then
        match digits_plus in_group k s' with
        | Some captured => Some (keep in_group c captured)
        | None => option_map (keep in_group c) (k (Some c) s')
        end
      else None
  | [] => None
  end.

(** The backtracking matcher at one position: [before] is the character in
    front of the position, [s] the text from the position on.  The result
    is the text of group 1. *)
Fixpoint match_items (items : list item) (before : option ascii)
    (s : list ascii) (in_group : bool) {struct items} : option (list ascii) :=
  match items with
  | [] => Some []
  | WordBoundary :: rest =>
      if boundary before (head s) then match_items rest before s in_group else None
  | GroupOpen :: rest => match_items rest before s true
  | GroupClose :: rest => match_items rest before s false
  | Literal c :: rest =>
      match s with
      | d :: s' =>
          if eqb_nocase c d
          then option_map (keep in_group d) (match_items rest (Some d) s' in_group)
          else None
      | [] => None
      end
  | Digits :: rest =>
      digits_plus in_group (fun before' s' => match_items rest before' s' in_group) s
  end.

(** [re.search]: the positions are tried from left to right, the end of the
    text included; the result is the start of the match and [group(1)]. *)
Fixpoint search_from (items : list item) (pos : nat) (before : option ascii)
    (s : list ascii) : option (nat * list ascii) :=
  match match_items items before s false with
  | Some g => Some (pos, g)
  | None =>
      match s with
      | c :: s' => search_from items (S pos) (Some c) s'
      | [] => None
      end
  end.

Definition re_search (items : list item) (text : list ascii)
  : option (nat * list ascii) :=
  search_from items 0 None text.

(** [match = re.search(ticket_pattern, text, re.IGNORECASE)] and then
    [match.group(1).upper()], or nothing when [match] is [None]. *)
Definition correlate_chars (project_key text : list ascii) : option (list ascii) :=
  match re_search (ticket_pattern project_key) text with
  | Some (_, g) => Some (upper g)
  | None => None
  end.

Definition correlate (project_key text : string) : option string :=
  option_map string_of_list_ascii
    (correlate_chars (list_ascii_of_string project_key) (list_ascii_of_string text)).

(** Two pieces of [ticket_pattern]: its end [)\b], and [-\d+)\b]. *)
Definition close_group (before : option ascii) (s : list ascii)
  : option (list ascii) :=
  match_items [GroupClose; WordBoundary] before s true.

Definition tail_items : list item :=
  [Literal "-"%char; Digits; GroupClose; WordBoundary].

(** *** The contract, in the words of the specification *)

(** [m], standing between [pre] and [post], matches [\b(PROJECT-\d+)\b]
    without regard to case: the project key, a dash, one digit or more, and
    a word boundary on either side. *)
Definition ticket_occurrence (project_key pre m post : list ascii) : Prop :=
  exists k ds,
    m = k ++ "-"%char :: ds
    /\ Forall2 (fun c d => eqb_nocase c d = true) project_key k
    /\ ds <> []
    /\ Forall (fun c => is_digit c = true) ds
    /\ boundary (last pre) (head m) = true
    /\ boundary (last m) (head post) = true.

(** [r] is the first ticket key of [text], in upper case, or no match. *)
Definition first_ticket_key (project_key text : list ascii)
    (r : option (list ascii)) : Prop :=
  match r with
  | Some key =>
      exists pre m post,
        text = pre ++ m ++ post
        /\ ticket_occurrence project_key pre m post
        /\ key = upper m
        /\ forall pre' m' post',
             text = pre' ++ m' ++ post' ->
             ticket_occurrence project_key pre' m' post' ->
             length pre <= length pre'
  | None =>
      forall pre m post,
        text = pre ++ m ++ post -> ~ ticket_occurrence project_key pre m post
  end.

End Correlator.

(** ** The poll loop: [handle_watch] in [src/jira_agent/main.py] *)

Module Watch.
Import Py.

(** What the loop reads of a ticket ([ticket.get("key")]) and of a pull
    request ([number], [merged_at], [title], [head.ref]).  [merged_at] is
    the JSON value as it comes: [null] for a pull request closed without a
    merge, the time of the merge otherwise. *)
Record Ticket : Type := mkTicket { key : string }.

Record PullRequest : Type := mkPullRequest {
  number : Z;
  merged_at : value;
  title : string;
  head_ref : string
}.

(** [repo_config]: of the configuration the loop uses the project key. *)
Record Config : Type := mkConfig { project_key : string }.

(** The collaborators.  Each answer may depend on how many calls were
    answered before it in the run, and each call may raise.
    - [jira_open]: [get_access_token], [get_cloud_id] and [JiraClient(...)];
    - [search_issues]: [jira.search_issues(jql, max_results=10)];
    - [process_single_ticket], [transition_ticket_to_done]: the agent, whose
      results are dictionaries;
    - [list_pull_requests]: [github.list_pull_requests(state="closed")];
    - [jira_close], [github_close]: the two [close()] calls. *)
Record Env : Type := mkEnv {
  jira_open : nat -> outcome unit;
  search_issues : nat -> outcome (list Ticket);
  process_single_ticket : nat -> string -> outcome (dict value);
  jira_close : nat -> outcome unit;
  list_pull_requests : nat -> outcome (list PullRequest);
  transition_ticket_to_done : nat -> string -> outcome (dict value);
  github_close : nat -> outcome unit
}.

(** The lines the loop prints (without their time stamps). *)
Inductive message : Type :=
| FoundTicket (ticket_key : string)
| Processing (ticket_key : string)
| PRCreated (ticket_key : string) (pr_url : value)
| Skipped (ticket_key : string) (reason : value)
| Failed (ticket_key : string) (error : value)
| Merged (pr_number : Z) (ticket_key : string)
| Transitioned (ticket_key : string) (transition : value)
| TransitionFailed (ticket_key : string) (error : value)
| PollError (exc : string).

(** What a run leaves behind: the calls made to the agent with their
    answers (a transition call is recorded with the pull request whose
    merge caused it) and the lines printed. *)
Inductive event : Type :=
| EvProcess (ticket_key : string) (answer : outcome (dict value))
| EvTransition (pr_number : Z) (ticket_key : string) (answer : outcome (dict value))
| EvPrint (m : message).

(** The two run-scoped sets of [handle_watch], the number of calls answered
    so far, and the events so far (newest last). *)
Record State : Type := mkState {
  processed_prs : gset Z;
  processing_tickets : gset string;
  calls : nat;
  trace : list event
}.

Definition initial : State :=
  {| processed_prs := ∅; processing_tickets := ∅; calls := 0; trace := [] |}.

(** Code that reads and changes the state and either returns or raises;
    what it changed before raising stays changed. *)
Definition M (A : Type) : Type := State -> outcome A * State.

Definition ret {A : Type} (a : A) : M A := fun st => (Returned a, st).

Definition bind {A B : Type} (c : M A) (k : A -> M B) : M B :=
  fun st =>
    match c st with
    | (Returned a, st') => k a st'
    | (Raised e, st') => (Raised e, st')
    end.

Notation "x <~ c ;; k" := (bind c (fun x => k))
  (at level 100, c at next level, right associativity).
Notation "c ;;; k" := (bind c (fun _ => k))
  (at level 100, right associativity).

Definition get : M State := fun st => (Returned st, st).

Definition record (ev : event) : M unit :=
  fun st =>
    (Returned tt,
     {| processed_prs := processed_prs st;
        processing_tickets := processing_tickets st;
        calls := calls st;
        trace := trace st ++ [ev] |}).

Definition print (m : message) : M unit := record (EvPrint m).

(** A call to a collaborator: its answer is the one for the current count. *)
Definition call {A : Type} (answer : nat -> outcome A) : M A :=
  fun st =>
    (answer (calls st),
     {| processed_prs := processed_prs st;
        processing_tickets := processing_tickets st;
        calls := S (calls st);
        trace := trace st |}).

(** A call to the agent, recorded with its answer. *)
Definition agent_call (answer : nat -> outcome (dict value))
    (ev : outcome (dict value) -> event) : M (dict value) :=
  fun st =>
    (answer (calls st),
     {| processed_prs := processed_prs st;
        processing_tickets := processing_tickets st;
        calls := S (calls st);
        trace := trace st ++ [ev (answer (calls st))] |}).

(** [processing_tickets.add], [processing_tickets.discard], [processed_prs.add] *)
Definition processing_add (k : string) : M unit :=
  fun st =>
    (Returned tt,
     {| processed_prs := processed_prs st;
        processing_tickets := {[k]} ∪ processing_tickets st;
        calls := calls st;
        trace := trace st |}).

Definition processing_discard (k : string) : M unit :=
  fun st =>
    (Returned tt,
     {| processed_prs := processed_prs st;
        processing_tickets := processing_tickets st ∖ {[k]};
        calls := calls st;
        trace := trace st |}).

Definition processed_add (n : Z) : M unit :=
  fun st =>
    (Returned tt,
     {| processed_prs := {[n]} ∪ processed_prs st;
        processing_tickets := processing_tickets st;
        calls := calls st;
        trace := trace st |}).

(** [for x in l: body(x)]: an exception in the body ends the loop. *)
Fixpoint for_each {A : Type} (body : A -> M unit) (l : list A) : M unit :=
  match l with
  | [] => ret tt
  | x :: l' => body x ;;; for_each body l'
  end.

(** [result.get(k)] and [result.get(k, default)] *)
Definition result_get (k : string) (result : dict value) : value :=
  match dict_get k result with Some v => v | None => VNone end.
Definition result_get_or (k : string) (default : string) (result : dict value) : value :=
  match dict_get k result with Some v => v | None => VStr default end.

(** The body of [for ticket in tickets:]. *)
Definition process_ticket (env : Env) (ticket : Ticket) : M unit :=
  let ticket_key := key ticket in
  st <~ get ;;
  if bool_decide (ticket_key ∈ processing_tickets st) then ret tt
  else
    print (FoundTicket ticket_key) ;;;
    processing_add ticket_key ;;;
    print (Processing ticket_key) ;;;
    result <~ agent_call (fun n => process_single_ticket env n ticket_key)
                         (EvProcess ticket_key) ;;
    if eq_str (result_get "status" result) "completed" then
      print (PRCreated ticket_key (result_get_or "pr_url" "N/A" result))
    else if eq_str (result_get "status" result) "skipped" then
      print (Skipped ticket_key (result_get_or "reason" "N/A" result)) ;;;
      processing_discard ticket_key
    else
      print (Failed ticket_key (result_get_or "error" "Unknown error" result)) ;;;
      processing_discard ticket_key.

(** [match = re.search(ticket_pattern, f"{title} {branch}", re.IGNORECASE)],
    then [match.group(1).upper()]. *)
Definition correlated (cfg : Config) (pr : PullRequest) : option string :=
  Correlator.correlate (project_key cfg) (title pr +:+ " " +:+ head_ref pr).

(** The body of [for pr in prs:]. *)
Definition handle_pr (env : Env) (cfg : Config) (pr : PullRequest) : M unit :=
  let pr_number := number pr in
  st <~ get ;;
  if negb (truthy (merged_at pr)) || bool_decide (pr_number ∈ processed_prs st)
  then ret tt
  else
    match correlated cfg pr with
    | None => processed_add pr_number
    | Some ticket_key =>
        print (Merged pr_number ticket_key) ;;;
        result <~ agent_call (fun n => transition_ticket_to_done env n ticket_key)
                             (EvTransition pr_number ticket_key) ;;
        (if truthy (result_get "success" result) then
           print (Transitioned ticket_key (result_get_or "transition" "Done" result)) ;;;
           processing_discard ticket_key
         else
           print (TransitionFailed ticket_key (result_get "error" result))) ;;;
        processed_add pr_number
    end.

(** The first half of the [try] block: poll Jira. *)
Definition poll_jira (env : Env) : M unit :=
  call (jira_open env) ;;;
  tickets <~ call (search_issues env) ;;
  for_each (process_ticket env) tickets ;;;
  call (jira_close env).

(** The second half: poll GitHub. *)
Definition poll_github (env : Env) (cfg : Config) : M unit :=
  prs <~ call (list_pull_requests env) ;;
  for_each (handle_pr env cfg) prs ;;;
  call (github_close env).

(** The [try] block of one turn of [while True]. *)
Definition poll (env : Env) (cfg : Config) : M unit :=
  poll_jira env ;;; poll_github env cfg.

(** One turn of [while True]: the [try] block, and
    [except Exception as e: print("Error during poll: ...")]. *)
Definition tick (env : Env) (cfg : Config) (st : State) : State :=
  match poll env cfg st with
  | (Returned _, st') => st'
  | (Raised e, st') => snd (print (PollError e) st')
  end.

(** [handle_watch], once its set-up is done: the first [turns] turns of
    [while True], from the state [st] (the loop itself only ends when the
    process is interrupted). *)
Fixpoint handle_watch (env : Env) (cfg : Config) (turns : nat) (st : State)
  : State :=
  match turns with
  | O => st
  | S turns' => handle_watch env cfg turns' (tick env cfg st)
  end.

(** How often the agent was asked to process [k], how often a transition
    was attempted for pull request [n], and how often such an attempt
    returned. *)
Definition is_process_of (k : string) (ev : event) : bool :=
  match ev with
  | EvProcess k' _ => String.eqb k' k
  | _ => false
  end.
Definition is_transition_of (n : Z) (ev : event) : bool :=
  match ev with
  | EvTransition n' _ _ => Z.eqb n' n
  | _ => false
  end.
Definition is_transition (ev : event) : bool :=
  match ev with
  | EvTransition _ _ _ => true
  | _ => false
  end.
Definition is_returned_transition_of (n : Z) (ev : event) : bool :=
  match ev with
  | EvTransition n' _ (Returned _) => Z.eqb n' n
  | _ => false
  end.
Definition count_events (p : event -> bool) (tr : list event) : nat :=
  length (List.filter p tr).

(** A property of the state is kept by a piece of code when it holds after
    the code, returned or raised, if it held before. *)
Definition keeps {A : Type} (Inv : State -> Prop) (c : M A) : Prop :=
  forall st, Inv st -> Inv (snd (c st)).

(** For a pull request [n]: a transition attempt for [n] has returned only
    if [n] is cached, and then once. *)
Definition returned_once (n : Z) (st : State) : Prop :=
  count_events (is_returned_transition_of n) (trace st)
  <= (if bool_decide (n ∈ processed_prs st) then 1 else 0).

End Watch.


(** ** Sample inputs *)

Module Samples.
Import Py Tracker.

(** A runtime whose clock reads ["t0"], ["t1"], ... and whose records have
    no attribute beyond their fields. *)
Definition rt0 : Runtime :=
  {| utcnow := fun n => "t" +:+ pretty n;
     class_attr := fun _ => false;
     setattr_class_attr := fun pr _ _ => Returned pr |}.

(** A fresh tracker with no file behind it: what [PRTracker()] returns
    when there is no file at [tracker_path]. *)
Definition empty_tracker : PRTracker :=
  {| prs := []; disk := Missing; clock := 0; log := [] |}.

(** The tracker after [add_pr(5, "https://host/o/r/pull/5", "o/r", "PROJ-100",
    "feature/proj-100-metric")]. *)
Definition tracker1 : PRTracker :=
  snd (add_pr rt0 5 "https://host/o/r/pull/5" "o/r" "PROJ-100"
         "feature/proj-100-metric" empty_tracker).

(** ... and after [update_pr("o/r", 5, ci_status="failure")]. *)
Definition tracker2 : PRTracker :=
  snd (update_pr rt0 "o/r" 5 [("ci_status"%string, VStr "failure")] tracker1).

(** A document whose first entry is a record and whose second entry is not
    (it lacks the required fields). *)
Definition half_corrupt_document : value :=
  VDict [("prs"%string,
          VDict [("o/r#5"%string,
                  VDict (asdict (fst (add_pr rt0 5 "u" "o/r" "PROJ-100" "b"
                                        empty_tracker))));
                 ("o/r#6"%string, VDict [("pr_number"%string, VInt 6)])]);
         ("updated_at"%string, VStr "t9")].

(** The poll loop: project [PROJ]; pull request 5 is merged and names
    [PROJ-100], 7 was closed without a merge, 8 is merged and names no
    ticket. *)
Definition cfg0 : Watch.Config := {| Watch.project_key := "PROJ" |}.

Definition pr5 : Watch.PullRequest :=
  {| Watch.number := 5; Watch.merged_at := VStr "2024-05-01T10:00:00Z";
     Watch.title := "feat: add metric (PROJ-100)";
     Watch.head_ref := "feature/proj-100-metric" |}.
Definition pr7 : Watch.PullRequest :=
  {| Watch.number := 7; Watch.merged_at := VNone;
     Watch.title := "PROJ-7 abandoned"; Watch.head_ref := "feature/proj-7" |}.
Definition pr8 : Watch.PullRequest :=
  {| Watch.number := 8; Watch.merged_at := VStr "2024-05-02T09:30:00Z";
     Watch.title := "chore: bump dependencies"; Watch.head_ref := "deps" |}.

Definition completed : dict value :=
  [("status"%string, VStr "completed");
   ("pr_url"%string, VStr "https://host/o/r/pull/5")].
Definition failed : dict value :=
  [("status"%string, VStr "failed"); ("error"%string, VStr "no changes")].
Definition transition_ok : dict value :=
  [("success"%string, VBool true); ("transition"%string, VStr "Done")].
Definition transition_failed : dict value :=
  [("success"%string, VBool false); ("error"%string, VStr "no transition")].

(** Jira returns [PROJ-100] and [PROJ-101] on every poll, GitHub the three
    pull requests; the agent is given by [process] and [transition]. *)
Definition env_with (process transition : nat -> string -> outcome (dict value))
  : Watch.Env :=
  {| Watch.jira_open := fun _ => Returned tt;
     Watch.search_issues :=
       fun _ => Returned [Watch.mkTicket "PROJ-100"; Watch.mkTicket "PROJ-101"];
     Watch.process_single_ticket := process;
     Watch.jira_close := fun _ => Returned tt;
     Watch.list_pull_requests := fun _ => Returned [pr5; pr7; pr8];
     Watch.transition_ticket_to_done := transition;
     Watch.github_close := fun _ => Returned tt |}.

(** Everything succeeds. *)
Definition env_ok : Watch.Env :=
  env_with (fun _ _ => Returned completed) (fun _ _ => Returned transition_ok).

(** The transition is refused. *)
Definition env_transition_refused : Watch.Env :=
  env_with (fun _ _ => Returned completed) (fun _ _ => Returned transition_failed).

(** Processing [PROJ-100] raises. *)
Definition env_process_raises : Watch.Env :=
  env_with (fun _ k => if String.eqb k "PROJ-100" then Raised "boom"
                       else Returned completed)
           (fun _ _ => Returned transition_ok).

(** The transition raises. *)
Definition env_transition_raises : Watch.Env :=
  env_with (fun _ _ => Returned completed) (fun _ _ => Raised "timeout").

(** Processing [PROJ-100] returns a failure. *)
Definition env_process_fails : Watch.Env :=
  env_with (fun _ k => if String.eqb k "PROJ-100" then Returned failed
                       else Returned completed)
           (fun _ _ => Returned transition_ok).

End Samples.

(** ** The correlator on every text *)

Module Pattern.

(** What the search takes from Python: a text is a sequence of characters
    (code points), and of the characters the pattern needs to know
    - [is_digit]: whether [\d] matches the character,
    - [is_word]: whether [\w] does,
    - [matches c d]: whether the pattern character [c] matches the text
      character [d] under [re.IGNORECASE],
    - [upper]: [str.upper], which may change the length of a text,
    - [dash]: the character [-].
    Nothing else is assumed of them but the two laws of [lawful]: a
    character that [\d] matches is one that [\w] matches, and the dash of
    the pattern matches the dash and no other character. *)
Record Alphabet : Type := mkAlphabet {
  char : Type;
  is_digit : char -> bool;
  is_word : char -> bool;
  matches : char -> char -> bool;
  upper : list char -> list char;
  dash : char
}.

Definition lawful (A : Alphabet) : Prop :=
  (forall c, is_digit A c = true -> is_word A c = true)
  /\ (forall d, matches A (dash A) d = true <-> d = dash A).

(** The pieces a ticket pattern is made of, in the order they are tried. *)
Inductive item (A : Alphabet) : Type :=
| WordBoundary            (* \b *)
| GroupOpen               (* (  *)
| GroupClose              (* )  *)
| Literal (c : char A)    (* a character taken literally *)
| Digits.                 (* \d+ *)
Arguments WordBoundary {A}.
Arguments GroupOpen {A}.
Arguments GroupClose {A}.
Arguments Literal {A} c.
Arguments Digits {A}.

Section Engine.
Variable A : Alphabet.

(** [\b] between the character before the position and the one after it
    (none at either end of the text): exactly one of them is a word
    character. *)
Definition word_at (o : option (char A)) : bool :=
  match o with Some c => is_word A c | None => false end.
Definition boundary (before after : option (char A)) : bool :=
  xorb (word_at before) (word_at after).

(** [rf"\b({re.escape(project_key)}-\d+)\b"]: [re.escape] makes every
    character of the project key stand for itself. *)
Definition ticket_pattern (project_key : list (char A)) : list (item A) :=
  [WordBoundary; GroupOpen] ++ map Literal project_key
  ++ [Literal (dash A); Digits; GroupClose; WordBoundary].

(** A consumed character is part of group 1 while the group is open. *)
Definition keep (in_group : bool) (c : char A) (captured : list (char A))
  : list (char A) :=
  if in_group then c :: captured else captured.

(** [\d+] followed by the rest of the pattern [k]: greedy, so the longer run
    of digits is tried first and one digit is given back at a time. *)
Fixpoint digits_plus (in_group : bool)
    (k : option (char A) -> list (char A) -> option (list (char A)))
    (s : list (char A)) : option (list (char A)) :=
  match s with
  | c :: s' =>
      if is_digit A c then
        match digits_plus in_group k s' with
        | Some captured => Some (keep in_group c captured)
        | None => option_map (keep in_group c) (k (Some c) s')
        end
      else None
  | [] => None
  end.

(** The backtracking matcher at one position: [before] is the character in
    front of the position, [s] the text from the position on.  The result
    is the text of group 1. *)
Fixpoint match_items (items : list (item A)) (before : option (char A))
    (s : list (char A)) (in_group : bool) {struct items}
  : option (list (char A)) :=
  match items with
  | [] => Some []
  | WordBoundary :: rest =>
      if boundary before (head s) then match_items rest before s in_group else None
  | GroupOpen :: rest => match_items rest before s true
  | GroupClose :: rest => match_items rest before s false
  | Literal c :: rest =>
      match s with
      | d :: s' =>
          if matches A c d
          then option_map (keep in_group d) (match_items rest (Some d) s' in_group)
          else None
      | [] => None
      end
  | Digits :: rest =>
      digits_plus in_group (fun before' s' => match_items rest before' s' in_group) s
  end.

(** [re.search]: the positions are tried from left to right, the end of the
    text included; the result is the start of the match and [group(1)]. *)
Fixpoint search_from (items : list (item A)) (pos : nat) (before : option (char A))
    (s : list (char A)) : option (nat * list (char A)) :=
  match match_items items before s false with
  | Some g => Some (pos, g)
  | None =>
      match s with
      | c :: s' => search_from items (S pos) (Some c) s'
      | [] => None
      end
  end.

Definition re_search (items : list (item A)) (text : list (char A))
  : option (nat * list (char A)) :=
  search_from items 0 None text.

(** [match = re.search(ticket_pattern, text, re.IGNORECASE)] and then
    [match.group(1).upper()], or nothing when [match] is [None]. *)
Definition correlate (project_key text : list (char A)) : option (list (char A)) :=
  match re_search (ticket_pattern project_key) text with
  | Some (_, g) => Some (upper A g)
  | None => None
  end.

(** Two pieces of [ticket_pattern]: its end [)\b], and [-\d+)\b]. *)
Definition close_group (before : option (char A)) (s : list (char A))
  : option (list (char A)) :=
  match_items [GroupClose; WordBoundary] before s true.

Definition tail_items : list (item A) :=
  [Literal (dash A); Digits; GroupClose; WordBoundary].

(** *** The contract, in the words of the specification *)

(** [m], standing between [pre] and [post], matches [\b(PROJECT-\d+)\b]
    without regard to case: the project key, a dash, one digit or more, and
    a word boundary on either side. *)
Definition ticket_occurrence (project_key pre m post : list (char A)) : Prop :=
  exists k ds,
    m = k ++ dash A :: ds
    /\ Forall2 (fun c d => matches A c d = true) project_key k
    /\ ds <> []
    /\ Forall (fun c => is_digit A c = true) ds
    /\ boundary (last pre) (head m) = true
    /\ boundary (last m) (head post) = true.

(** [r] is the first ticket key of [text], in upper case, or no match. *)
Definition first_ticket_key (project_key text : list (char A))
    (r : option (list (char A))) : Prop :=
  match r with
  | Some key =>
      exists pre m post,
        text = pre ++ m ++ post
        /\ ticket_occurrence project_key pre m post
        /\ key = upper A m
        /\ forall pre' m' post',
             text = pre' ++ m' ++ post' ->
             ticket_occurrence project_key pre' m' post' ->
             length pre <= length pre'
  | None =>
      forall pre m post,
        text = pre ++ m ++ post -> ~ ticket_occurrence project_key pre m post
  end.

End Engine.

Arguments word_at {A} o.
Arguments boundary {A} before after.
Arguments ticket_pattern {A} project_key.
Arguments keep {A} in_group c captured.
Arguments digits_plus {A} in_group k s.
Arguments match_items {A} items before s in_group.
Arguments search_from {A} items pos before s.
Arguments re_search {A} items text.
Arguments close_group {A} before s.

(** The ASCII characters, with the classes and the case mapping of
    [Correlator]: the alphabet of the texts the poll loop is run on in this
    development. *)
Definition ascii_alphabet : Alphabet :=
  {| char := ascii;
     is_digit := Correlator.is_digit;
     is_word := Correlator.is_word;
     matches := Correlator.eqb_nocase;
     upper := Correlator.upper;
     dash := "-"%char |}.

(** What makes [ascii_alphabet] the ASCII alphabet: the digits are the ten
    digits, the word characters are the digits, the fifty-two letters and
    the underscore, [upper] maps each of the twenty-six small letters to
    its capital, in order, and leaves every other character as it is, one
    character at a time, and two characters match without regard to case
    exactly when they are the same in upper case. *)
Definition ascii_digits : list ascii := list_ascii_of_string "0123456789".
Definition ascii_small : list ascii :=
  list_ascii_of_string "abcdefghijklmnopqrstuvwxyz".
Definition ascii_capital : list ascii :=
  list_ascii_of_string "ABCDEFGHIJKLMNOPQRSTUVWXYZ".

Definition plain_ascii (A : Alphabet) (of_ascii : ascii -> char A) : Prop :=
  (forall c, is_digit A (of_ascii c) = true <-> In c ascii_digits)
  /\ (forall c, is_word A (of_ascii c) = true
                <-> In c (ascii_digits ++ ascii_small ++ ascii_capital ++ ["_"%char]))
  /\ upper A (map of_ascii ascii_small) = map of_ascii ascii_capital
  /\ (forall c, ~ In c ascii_small -> upper A [of_ascii c] = [of_ascii c])
  /\ (forall s t, upper A (s ++ t) = upper A s ++ upper A t)
  /\ (forall c d, matches A (of_ascii c) (of_ascii d) = true
                  <-> upper A [of_ascii c] = upper A [of_ascii d])
  /\ dash A = of_ascii "-"%char.

(** A piece of the pattern of [Correlator] as a piece over this alphabet. *)
Definition ascii_item (i : Correlator.item) : item ascii_alphabet :=
  match i with
  | Correlator.WordBoundary => WordBoundary
  | Correlator.GroupOpen => GroupOpen
  | Correlator.GroupClose => GroupClose
  | Correlator.Literal c => Literal (A := ascii_alphabet) c
  | Correlator.Digits => Digits
  end.

End Pattern.

(** ** The lifecycle store as its callers see it *)

Module StoreContract.
Import Py Tracker.

(** The test [get_open_prs] applies to a record, and the one
    [get_prs_needing_attention] applies. *)
Definition is_open_in (repo_filter : option string) (pr : TrackedPR) : bool :=
  eq_str (status pr) "open"
  && match repo_filter with
     | None => true
     | Some r => eq_str (repo pr) r
     end.

Definition is_listed (repo_filter : option string) (pr : TrackedPR) : bool :=
  eq_str (status pr) "open"
  && negb (repo_mismatch repo_filter pr)
  && truthy (needs_attention pr).

(** An entry of the store is filed under the key of the pair its record
    names. *)
Definition filed_under_its_pair (e : string * TrackedPR) : Prop :=
  exists r n,
    repo (snd e) = VStr r /\ pr_number (snd e) = VInt n /\ fst e = _key r n.

Definition consistent (d : dict TrackedPR) : Prop := Forall filed_under_its_pair d.

(** The file holds the records in memory: either nothing was written yet
    and there is no record, or the document is the one [_save] writes for
    the records in memory. *)
Definition in_sync (t : PRTracker) : Prop :=
  (disk t = Missing /\ prs t = [])
  \/ exists stamp, disk t = Document (document_of (prs t) stamp).

(** A call on the store. *)
Inductive call : Type :=
| CallAdd (pr_number : Z) (pr_url repo ticket_key branch : string)
| CallUpdate (repo : string) (pr_number : Z) (updates : list (string * value))
| CallRemove (repo : string) (pr_number : Z)
| CallCleanup.

Definition perform (rt : Runtime) (c : call) (t : PRTracker) : PRTracker :=
  match c with
  | CallAdd n url r k b => snd (add_pr rt n url r k b t)
  | CallUpdate r n ups => snd (update_pr rt r n ups t)
  | CallRemove r n => snd (remove_pr rt r n t)
  | CallCleanup => snd (cleanup_closed rt t)
  end.

Definition perform_all (rt : Runtime) (cs : list call) (t : PRTracker) : PRTracker :=
  fold_left (fun t c => perform rt c t) cs t.

(** The keyword arguments of a call to [update_pr] as Python passes them
    and as the dataclass takes them: no argument is named like the
    parameters [repo] and [pr_number], and every name is a field or is no
    attribute at all (so no assignment touches the class). *)
Definition plain_updates (rt : Runtime) (updates : list (string * value)) : Prop :=
  Forall (fun u => fst u <> "repo"%string /\ fst u <> "pr_number"%string
                   /\ (is_field (fst u) = true \/ hasattr rt (fst u) = false))
         updates.

Definition plain_call (rt : Runtime) (c : call) : Prop :=
  match c with
  | CallUpdate _ _ ups => plain_updates rt ups
  | _ => True
  end.

(** A run of calls: two pull requests are tracked; the first fails its
    checks, is merged and is cleaned up; a third is tracked and removed. *)
Definition sample_calls : list call :=
  [CallAdd 5 "https://host/o/r/pull/5" "o/r" "PROJ-100" "feature/proj-100-metric";
   CallUpdate "o/r" 5 [("ci_status"%string, VStr "failure")];
   CallAdd 6 "https://host/o/r/pull/6" "o/r" "PROJ-101" "feature/proj-101";
   CallUpdate "o/r" 5 [("status"%string, VStr "merged"); ("colour"%string, VInt 3)];
   CallCleanup;
   CallAdd 7 "https://host/o/r/pull/7" "o/r" "PROJ-102" "feature/proj-102";
   CallRemove "o/r" 7].

(** The store after the first four of these calls: pull request 5 is
    merged, pull request 6 is open. *)
Definition merged_store : PRTracker :=
  perform_all Samples.rt0 (firstn 4 sample_calls) Samples.empty_tracker.

(** A persisted record that holds the six required fields only. *)
Definition minimal_record : dict value :=
  [("pr_number"%string, VInt 6); ("pr_url"%string, VStr "https://host/o/r/pull/6");
   ("repo"%string, VStr "o/r"); ("ticket_key"%string, VStr "PROJ-101");
   ("branch"%string, VStr "feature/proj-101"); ("created_at"%string, VStr "t3")].

Definition minimal_entries : list (string * value) :=
  [("o/r#6"%string, VDict minimal_record)].

End StoreContract.

(** ** The poll loop over a whole run *)

Module WatchContract.
Import Py Watch.

(** Pull request [n] is cached and [c] transition attempts were made for
    it. *)
Definition settled (n : Z) (c : nat) (st : State) : Prop :=
  n ∈ processed_prs st
  /\ count_events (is_transition_of n) (trace st) = c.

(** Ticket [k] is in progress and the agent was asked [c] times to process
    it. *)
Definition in_progress (k : string) (c : nat) (st : State) : Prop :=
  k ∈ processing_tickets st
  /\ count_events (is_process_of k) (trace st) = c.

(** Every ticket in [processing_tickets] was handed to the agent. *)
Definition handed_over (st : State) : Prop :=
  forall k, k ∈ processing_tickets st ->
            1 <= count_events (is_process_of k) (trace st).

(** No transition was attempted for pull request [n] and it is not
    cached. *)
Definition untouched (n : Z) (st : State) : Prop :=
  count_events (is_transition_of n) (trace st) = 0
  /\ n ∉ processed_prs st.

(** GitHub never reports pull request [n] as merged. *)
Definition never_merged (env : Env) (n : Z) : Prop :=
  forall c prs pr,
    list_pull_requests env c = Returned prs -> In pr prs -> number pr = n ->
    truthy (merged_at pr) = false.

(** No transition of ticket [k] succeeds. *)
Definition never_transitions (env : Env) (k : string) : Prop :=
  forall c result,
    transition_ticket_to_done env c k = Returned result ->
    truthy (result_get "success" result) = false.

(** Jira cannot be reached at the start of a turn: getting the token or
    the client raises, or the search does. *)
Definition jira_fails (env : Env) (st : State) (e : string) : Prop :=
  jira_open env (calls st) = Raised e
  \/ (jira_open env (calls st) = Returned tt
      /\ search_issues env (S (calls st)) = Raised e).

(** Jira is down on every poll. *)
Definition env_jira_down : Env :=
  {| jira_open := fun _ => Raised "401 Unauthorized";
     search_issues := fun _ => Returned [];
     process_single_ticket := fun _ _ => Returned [];
     jira_close := fun _ => Returned tt;
     list_pull_requests := fun _ => Returned [Samples.pr5];
     transition_ticket_to_done := fun _ _ => Returned Samples.transition_ok;
     github_close := fun _ => Returned tt |}.

End WatchContract.

(** ** The command line: the listings and the one-ticket commands of
    [src/jira_agent/main.py] *)

Module Cli.
Import Py.

(** Text is ASCII, as for the correlator: [len] counts the characters of a
    [string]. *)

(** [" " * n] *)
Fixpoint spaces (n : nat) : string :=
  match n with
  | O => EmptyString
  | S n' => String " " (spaces n')
  end.

(** The format specification [<width]: the text, then spaces up to the
    width. *)
Definition ljust (width : nat) (s : string) : string :=
  s +:+ spaces (width - String.length s).

(** [if len(text) > limit: text = text[:keep] + "..."] *)
Definition shorten (limit keep : nat) (text : string) : string :=
  if (limit <? String.length text)%nat
  then substring 0 keep text +:+ "..."
  else text.

(** *** [handle_list_prs] *)

(** What the listing reads of a pull request: [number], [state], [title],
    [merged_at] and [head.ref]. *)
Record ListedPR : Type := mkListedPR {
  number : Z;
  state : string;
  title : string;
  merged_at : value;
  head_ref : string
}.

(** [merged = pr.get("merged_at") is not None] *)
Definition merged (pr : ListedPR) : bool :=
  match merged_at pr with
  | VNone => false
  | _ => true
  end.

(** [ticket = match.group(1).upper() if match else "-"] *)
Definition ticket_column (project_key : string) (pr : ListedPR) : string :=
  match Correlator.correlate project_key (title pr +:+ " " +:+ head_ref pr) with
  | Some ticket => ticket
  | None => "-"
  end.

Definition state_column (pr : ListedPR) : string :=
  if merged pr then "merged" else state pr.

Definition title_column (pr : ListedPR) : string := shorten 45 42 (title pr).

(** The columns in front of the title, and the line printed for a pull
    request. *)
Definition pr_row_lead (project_key : string) (pr : ListedPR) : string :=
  "#" +:+ ljust 5 (pretty (number pr)) +:+ " " +:+ ljust 8 (state_column pr)
  +:+ " " +:+ ljust 12 (ticket_column project_key pr) +:+ " ".

Definition pr_row (project_key : string) (pr : ListedPR) : string :=
  pr_row_lead project_key pr +:+ title_column pr.

(** The heading, up to its last column and whole. *)
Definition prs_header_lead : string :=
  ljust 6 "#" +:+ " " +:+ ljust 8 "State" +:+ " " +:+ ljust 12 "Ticket" +:+ " ".

Definition prs_header : string := prs_header_lead +:+ "Title".

(** *** [handle_list_tickets] *)

(** What the listing reads of a ticket, after the defaults of [.get]. *)
Record ListedTicket : Type := mkListedTicket {
  key : string;
  status_name : string;
  issue_type : string;
  summary : string
}.

Definition ticket_row_lead (t : ListedTicket) : string :=
  ljust 12 (key t) +:+ " " +:+ ljust 20 (status_name t) +:+ " "
  +:+ ljust 12 (issue_type t) +:+ " ".

Definition ticket_row (t : ListedTicket) : string :=
  ticket_row_lead t +:+ shorten 40 37 (summary t).

Definition tickets_header_lead : string :=
  ljust 12 "Key" +:+ " " +:+ ljust 20 "Status" +:+ " " +:+ ljust 12 "Type" +:+ " ".

Definition tickets_header : string := tickets_header_lead +:+ "Summary".

(** The label of a choice in [_interactive_ticket_selection]. *)
Definition choice_label (t : ListedTicket) : string :=
  ljust 12 (key t) +:+ " [" +:+ ljust 15 (status_name t) +:+ "] "
  +:+ shorten 45 42 (summary t).

(** *** Reporting the result of the agent *)

(** The three marks: a tick, a circle, a cross. *)
Inductive icon : Type := Tick | Circle | Cross.

Inductive line : Type :=
| ConfigError
| Cancelled
| Details (ticket_key : string)
| ResultLine (mark : icon) (ticket status : value)
| PRLine (pr_url : value)
| ErrorLine (error : value).

(** [result[k]]: a missing key is a [KeyError], which names the key. *)
Definition item (k : string) (result : dict value) : outcome value :=
  match dict_get k result with
  | Some v => Returned v
  | None => Raised k
  end.

Definition status_icon (status : value) : icon :=
  if eq_str status "completed" then Tick
  else if eq_str status "skipped" then Circle
  else Cross.

(** [0 if result["status"] in ("completed", "skipped") else 1] *)
Definition exit_code (status : value) : Z :=
  if eq_str status "completed" || eq_str status "skipped" then 0 else 1.

Definition optional_line (mk : value -> line) (k : string) (result : dict value)
  : list line :=
  match dict_get k result with
  | Some v => if truthy v then [mk v] else []
  | None => []
  end.

(** The lines that follow the call to the agent in [handle_process_ticket]
    and in [_interactive_ticket_selection], and the exit code. *)
Definition report (result : dict value) : outcome Z * list line :=
  match item "status" result with
  | Raised e => (Raised e, [])
  | Returned status =>
      match item "ticket" result with
      | Raised e => (Raised e, [])
      | Returned ticket =>
          (Returned (exit_code status),
           [ResultLine (status_icon status) ticket status]
           ++ optional_line PRLine "pr_url" result
           ++ optional_line ErrorLine "error" result)
      end
  end.

(** A call to [agent.process_single_ticket], with the mode of the agent. *)
Record agent_run : Type := mkAgentRun {
  run_ticket : string;
  run_dry : bool
}.

(** What a command leaves: how it ended, the lines it printed about the
    result (its other lines are left out), and the calls it made to the
    agent. *)
Record finish : Type := mkFinish {
  ended : outcome Z;
  printed : list line;
  runs : list agent_run
}.

Definition run_agent (agent : bool -> string -> outcome (dict value))
    (dry_run : bool) (ticket_key : string) (before : list line) : finish :=
  match agent dry_run ticket_key with
  | Raised e => {| ended := Raised e; printed := before;
                   runs := [mkAgentRun ticket_key dry_run] |}
  | Returned result =>
      {| ended := fst (report result);
         printed := before ++ snd (report result);
         runs := [mkAgentRun ticket_key dry_run] |}
  end.

(** [handle_process_ticket]: [load] stands for the loading of the
    configuration, by file or by repository name. *)
Definition handle_process_ticket (ticket_key : string) (config_path repo_name : value)
    (dry_run : bool) (load : outcome unit)
    (agent : bool -> string -> outcome (dict value)) : finish :=
  if negb (truthy config_path) && negb (truthy repo_name)
  then {| ended := Returned 1%Z; printed := [ConfigError]; runs := [] |}
  else
    match load with
    | Raised e => {| ended := Raised e; printed := []; runs := [] |}
    | Returned _ => run_agent agent dry_run ticket_key []
    end.



(** *** [handle_init_config] *)

(** ["/" in repo] *)
Fixpoint has_slash (s : string) : bool :=
  match s with
  | EmptyString => false
  | String c s' => Ascii.eqb c "/" || has_slash s'
  end.

(** [repo.split("/", 1)] on a text that holds a slash: the text before the
    first slash and the text after it. *)
Fixpoint split_slash (s : string) : string * string :=
  match s with
  | EmptyString => (EmptyString, EmptyString)
  | String c s' =>
      if Ascii.eqb c "/" then (EmptyString, s')
      else (String c (fst (split_slash s')), snd (split_slash s'))
  end.

(** The part of [handle_init_config] that decides where the file goes and
    which owner and name it holds: the exit code, and for exit code 0 the
    path written, the owner and the name. *)
Definition handle_init_config (repo : string) (output_path : value)
  : Z * option (value * string * string) :=
  if negb (has_slash repo) then (1%Z, None)
  else
    let '(owner, name) := split_slash repo in
    let path :=
      if negb (truthy output_path)
      then VStr ("configs/" +:+ owner +:+ "-" +:+ name +:+ ".yaml")
      else output_path in
    (0%Z, Some (path, owner, name)).

(** Samples: a pull request and a ticket with long texts. *)
Definition long_pr : ListedPR :=
  {| number := 123; state := "closed";
     title := "feat: add the weekly revenue metric to the finance mart (PROJ-100)";
     merged_at := VStr "2024-05-01T10:00:00Z";
     head_ref := "feature/proj-100-metric" |}.

Definition some_ticket : ListedTicket :=
  {| key := "PROJ-100"; status_name := "Ready for Agent"; issue_type := "Story";
     summary := "Add the weekly revenue metric to the finance mart" |}.

End Cli.

(** ** The environment check: [src/jirade/environment/checker.py] *)

Module Checker.
Import Py.

(** [@dataclass class ToolCheck] *)
Record ToolCheck : Type := mkToolCheck {
  name : string;
  required : bool;
  installed : bool;
  version : option string;
  path : option string;
  install_hint : option string
}.

(** [@dataclass class EnvironmentReport] *)
Record EnvironmentReport : Type := mkEnvironmentReport {
  tools : list ToolCheck;
  missing_required : list string;
  missing_optional : list string
}.

(** [EnvironmentReport.is_ready]: [len(self.missing_required) == 0] *)
Definition is_ready (r : EnvironmentReport) : bool :=
  Nat.eqb (length (missing_required r)) 0.

(** The machine the check runs on: [shutil.which], and the version read
    from the output of the tool's command ([None] when the command fails or
    its output holds no version). *)
Record Host : Type := mkHost {
  which : string -> option string;
  probe_version : string -> option string
}.

(** [TOOL_INFO]: the command of a tool ([check_cmd[0]]; the name itself for
    a tool that is not in the table) and its hint. *)
Definition check_cmd (tool : string) : string :=
  if String.eqb tool "python" then "python3"
  else if String.eqb tool "pip" then "pip3"
  else tool.

Definition tool_info_hint (tool : string) : option string :=
  if String.eqb tool "python"
  then Some "Install Python 3.11+ from python.org or: brew install python@3.11"
  else if String.eqb tool "pip"
  then Some "Usually comes with Python. Try: python3 -m ensurepip"
  else if String.eqb tool "poetry"
  then Some "Install with: curl -sSL https://install.python-poetry.org | python3 -"
  else if String.eqb tool "git" then Some "Install with: brew install git"
  else if String.eqb tool "node"
  then Some "Install from nodejs.org or: brew install node"
  else if String.eqb tool "npm" then Some "Comes with Node.js"
  else if String.eqb tool "dbt"
  then Some "Install with: pip install dbt-core dbt-databricks"
  else if String.eqb tool "pre-commit"
  then Some "Install with: pip install pre-commit"
  else if String.eqb tool "gh" then Some "Install with: brew install gh"
  else if String.eqb tool "docker"
  then Some "Install Docker Desktop from docker.com"
  else if String.eqb tool "make"
  then Some "Install with: xcode-select --install (macOS)"
  else None.

(** [if not path]: no path, or an empty one. *)
Definition found (h : Host) (tool : string) : bool :=
  match which h (check_cmd tool) with
  | Some p => negb (String.eqb p "")
  | None => false
  end.

(** [EnvironmentChecker.check_tool] *)
Definition check_tool (h : Host) (tool : string) (req : bool) : ToolCheck :=
  if found h tool
  then {| name := tool; required := req; installed := true;
          version := probe_version h tool; path := which h (check_cmd tool);
          install_hint := tool_info_hint tool |}
  else {| name := tool; required := req; installed := false;
          version := None; path := None;
          install_hint := tool_info_hint tool |}.

(** The loop of [check_all]. *)
Definition check_step (h : Host) (report : EnvironmentReport)
    (tool : string * bool) : EnvironmentReport :=
  let check := check_tool h (fst tool) (snd tool) in
  {| tools := tools report ++ [check];
     missing_required :=
       if negb (installed check) && snd tool
       then missing_required report ++ [fst tool]
       else missing_required report;
     missing_optional :=
       if negb (installed check) && negb (snd tool)
       then missing_optional report ++ [fst tool]
       else missing_optional report |}.

Definition default_tools : list (string * bool) :=
  [("python"%string, true); ("pip"%string, true); ("git"%string, true);
   ("gh"%string, false); ("pre-commit"%string, false)].

(** [EnvironmentChecker.check_all]: [None] stands for the default list. *)
Definition check_all (h : Host) (tool_list : option (list (string * bool)))
  : EnvironmentReport :=
  fold_left (check_step h)
    (match tool_list with Some l => l | None => default_tools end)
    {| tools := []; missing_required := []; missing_optional := [] |}.

(** What [check_for_repo] looks at in the repository and its
    configuration. [pyproject] is whether [pyproject.toml] holds
    ["[tool.poetry]"], for a repository that has the file. *)
Record Repo : Type := mkRepo {
  dbt_enabled : bool;
  dbt_project_at_root : bool;
  dbt_project_below : bool;
  pre_commit_config : bool;
  package_json : bool;
  pyproject : option bool;
  makefile : bool;
  dockerfile : bool;
  docker_compose : bool
}.

Definition repo_tools (r : Repo) : list (string * bool) :=
  [("python"%string, true); ("pip"%string, true); ("git"%string, true)]
  ++ (if dbt_enabled r then [("dbt"%string, true)]
      else if dbt_project_at_root r then [("dbt"%string, true)]
      else if dbt_project_below r then [("dbt"%string, true)]
      else [])
  ++ (if pre_commit_config r then [("pre-commit"%string, true)] else [])
  ++ (if package_json r then [("node"%string, true); ("npm"%string, true)] else [])
  ++ (match pyproject r with
      | Some true => [("poetry"%string, true)]
      | _ => []
      end)
  ++ (if makefile r then [("make"%string, false)] else [])
  ++ (if dockerfile r || docker_compose r then [("docker"%string, false)] else []).

(** [EnvironmentChecker.check_for_repo] *)
Definition check_for_repo (h : Host) (r : Repo) : EnvironmentReport :=
  check_all h (Some (repo_tools r)).

(** A machine with Python, pip and git and nothing else, and a repository
    with a Makefile and a Dockerfile. *)
Definition bare_host : Host :=
  {| which := fun cmd =>
       if String.eqb cmd "python3" then Some "/usr/bin/python3"%string
       else if String.eqb cmd "pip3" then Some "/usr/bin/pip3"%string
       else if String.eqb cmd "git" then Some "/usr/bin/git"%string
       else None;
     probe_version := fun _ => None |}.

Definition plain_repo : Repo :=
  {| dbt_enabled := false; dbt_project_at_root := false; dbt_project_below := false;
     pre_commit_config := false; package_json := false; pyproject := None;
     makefile := true; dockerfile := true; docker_compose := false |}.

End Checker.


(* ===================================================================== *)
(** * Part II: properties                                                 *)
(* ===================================================================== *)

(** ** Dictionaries *)

Module PyFacts.
Import Py.

Lemma dict_get_set_eq {V : Type} (k : string) (v : V) (d : dict V) :
  dict_get k (dict_set k v d) = Some v.
Proof.
  induction d as [|[k' v'] d IH]; simpl.
  - by rewrite String.eqb_refl.
  - destruct (String.eqb_spec k' k) as [->|Hne]; simpl.
    + by rewrite String.eqb_refl.
    + destruct (String.eqb_spec k' k); [done|exact IH].
Qed.

Lemma dict_get_set_ne {V : Type} (k k' : string) (v : V) (d : dict V) :
  k <> k' -> dict_get k' (dict_set k v d) = dict_get k' d.
Proof.
  intros Hne. induction d as [|[k0 v0] d IH]; simpl.
  - destruct (String.eqb_spec k k'); [done|reflexivity].
  - destruct (String.eqb_spec k0 k) as [->|Hk0]; simpl.
    + destruct (String.eqb_spec k k'); [done|reflexivity].
    + destruct (String.eqb_spec k0 k'); [reflexivity|exact IH].
Qed.

Lemma dict_keys_set_present {V : Type} (k : string) (v : V) (d : dict V) :
  dict_mem k d = true -> dict_keys (dict_set k v d) = dict_keys d.
Proof.
  unfold dict_mem. induction d as [|[k0 v0] d IH]; simpl; [done|].
  destruct (String.eqb_spec k0 k); simpl; [done|].
  intros H. by rewrite IH.
Qed.

Lemma dict_keys_set_absent {V : Type} (k : string) (v : V) (d : dict V) :
  dict_mem k d = false -> dict_keys (dict_set k v d) = dict_keys d ++ [k].
Proof.
  unfold dict_mem. induction d as [|[k0 v0] d IH]; simpl; [done|].
  destruct (String.eqb_spec k0 k); simpl; [done|].
  intros H. by rewrite IH.
Qed.

Lemma dict_mem_keys {V : Type} (k : string) (d : dict V) :
  dict_mem k d = true <-> k ∈ dict_keys d.
Proof.
  unfold dict_mem. induction d as [|[k0 v0] d IH]; simpl.
  - split; [done|]. by intros ?%elem_of_nil.
  - rewrite elem_of_cons. destruct (String.eqb_spec k0 k) as [->|Hne].
    + split; auto.
    + rewrite IH. split; [auto|]. intros [->|?]; [done|assumption].
Qed.

(** Assignment keeps the keys of a dictionary pairwise distinct. *)
Lemma dict_set_wf {V : Type} (k : string) (v : V) (d : dict V) :
  dict_wf d -> dict_wf (dict_set k v d).
Proof.
  unfold dict_wf. intros Hwf.
  destruct (dict_mem k d) eqn:Hmem.
  - by rewrite dict_keys_set_present.
  - rewrite dict_keys_set_absent by done.
    apply NoDup_app. split; [done|]. split; [|apply NoDup_singleton].
    intros x Hx ->%list_elem_of_singleton.
    apply dict_mem_keys in Hx. congruence.
Qed.

End PyFacts.

(** ** The lifecycle store *)

Module TrackerFacts.
Import Py Tracker PyFacts Samples.

Lemma eq_str_true (v : value) (s : string) : eq_str v s = true <-> v = VStr s.
Proof.
  destruct v; simpl; try (split; [discriminate|discriminate]).
  rewrite String.eqb_eq. split; [by intros ->|by intros [= ->]].
Qed.

Lemma eq_str_false (v : value) (s : string) : eq_str v s = false <-> v <> VStr s.
Proof.
  rewrite <- eq_str_true. destruct (eq_str v s); split; congruence.
Qed.

(** *** Keys *)

Lemma append_nil (s : string) : "" +:+ s = s.
Proof. reflexivity. Qed.

Lemma append_cons (c : ascii) (s1 s2 : string) :
  String c s1 +:+ s2 = String c (s1 +:+ s2).
Proof. reflexivity. Qed.

Lemma has_hash_app (s1 s2 : string) :
  has_hash (s1 +:+ s2) = has_hash s1 || has_hash s2.
Proof.
  induction s1 as [|c s1 IH]; [reflexivity|].
  rewrite append_cons. cbn [has_hash]. by rewrite IH, orb_assoc.
Qed.

Lemma pretty_N_char_no_hash (x : N) : Ascii.eqb (pretty_N_char x) "#" = false.
Proof. unfold pretty_N_char. by repeat case_match. Qed.

Lemma pretty_N_go_no_hash (x : N) (s : string) :
  has_hash s = false -> has_hash (pretty_N_go x s) = false.
Proof.
  revert s. induction (N.lt_wf_0 x) as [x _ IH]; intros s Hs.
  destruct (decide (x = 0%N)) as [->|Hx].
  - by rewrite pretty_N_go_0.
  - rewrite pretty_N_go_step by lia. apply IH.
    + apply N.div_lt; lia.
    + cbn. by rewrite pretty_N_char_no_hash.
Qed.

Lemma pretty_Z_no_hash (z : Z) : has_hash (pretty z) = false.
Proof.
  assert (Hpos : forall p : positive, has_hash (pretty p) = false).
  { intros p. unfold pretty, pretty_positive, pretty, pretty_N.
    case_decide; [done|]. by apply pretty_N_go_no_hash. }
  destruct z as [|p|p]; [done|apply Hpos|].
  unfold pretty, pretty_Z. rewrite has_hash_app.
  cbn [has_hash orb Ascii.eqb]. apply Hpos.
Qed.

(** A text is cut in one way only at its last [#]. *)
Lemma split_at_last_hash (r r' p p' : string) :
  has_hash p = false -> has_hash p' = false ->
  r +:+ "#" +:+ p = r' +:+ "#" +:+ p' ->
  r = r' /\ p = p'.
Proof.
  intros Hp Hp'. revert r'.
  induction r as [|c r IH]; intros [|c' r'] Heq;
    repeat (rewrite append_nil in Heq || rewrite append_cons in Heq).
  - by injection Heq as ->.
  - injection Heq as <- ->. rewrite has_hash_app in Hp.
    cbn [has_hash Ascii.eqb Bool.eqb] in Hp. by rewrite orb_true_r in Hp.
  - injection Heq as -> <-. rewrite has_hash_app in Hp'.
    cbn [has_hash Ascii.eqb Bool.eqb] in Hp'. by rewrite orb_true_r in Hp'.
  - injection Heq as -> Heq. by destruct (IH _ Heq) as [-> ->].
Qed.

(** Two pairs with the same key are the same pair. *)
Lemma _key_inj (r r' : string) (n n' : Z) :
  _key r n = _key r' n' -> r = r' /\ n = n'.
Proof.
  unfold _key. intros Heq.
  apply split_at_last_hash in Heq as [-> Hn]; auto using pretty_Z_no_hash.
  split; [reflexivity|]. by apply (inj pretty).
Qed.

(** *** Adding and reading *)

(** [_save] leaves the records alone and writes exactly them. *)
Lemma save_prs (rt : Runtime) (t : PRTracker) : prs (_save rt t) = prs t.
Proof. reflexivity. Qed.

Lemma save_disk (rt : Runtime) (t : PRTracker) :
  disk (_save rt t) = Document (document_of (prs t) (utcnow rt (clock t))).
Proof. reflexivity. Qed.

(** What [_save] wrote is read back as it was: a record survives
    [asdict] followed by the constructor, and the entries come back in
    order. *)
Lemma TrackedPR_init_asdict (pr : TrackedPR) : TrackedPR_init (asdict pr) = Some pr.
Proof. by destruct pr. Qed.

Lemma dict_set_fresh {V : Type} (k : string) (v : V) (d : dict V) :
  k ∉ dict_keys d -> dict_set k v d = d ++ [(k, v)].
Proof.
  induction d as [|[k0 v0] d IH]; cbn [dict_set dict_keys map fst app]; [done|].
  intros [Hne Hk]%not_elem_of_cons.
  destruct (String.eqb_spec k0 k); [congruence|]. by rewrite IH.
Qed.

Lemma load_entries_saved (d2 d1 : dict TrackedPR) :
  dict_wf (d1 ++ d2) ->
  load_entries (map (fun kv => (fst kv, VDict (asdict (snd kv)))) d2) d1
  = (d1 ++ d2, false).
Proof.
  revert d1. induction d2 as [|[k pr] d2 IH]; intros d1 Hwf; cbn [map load_entries fst snd].
  - by rewrite app_nil_r.
  - rewrite TrackedPR_init_asdict.
    assert (Hfresh : k ∉ dict_keys d1).
    { unfold dict_wf, dict_keys in Hwf. rewrite map_app in Hwf.
      apply NoDup_app in Hwf as (_ & Hdisj & _).
      intros Hk. apply (Hdisj k Hk). cbn. left. }
    rewrite dict_set_fresh by exact Hfresh.
    rewrite IH; rewrite <- app_assoc; [reflexivity|exact Hwf].
Qed.

Lemma document_reads_back (d : dict TrackedPR) (stamp : string) (now : nat) :
  dict_wf d ->
  PRTracker_new [] (Document (document_of d stamp)) now
  = Returned {| prs := d; disk := Document (document_of d stamp);
                clock := now; log := [] |}.
Proof.
  intros Hwf. unfold PRTracker_new, _load, load_document. cbn [disk prs document_of dict_get].
  replace ("prs" =? "prs")%string with true by reflexivity.
  by rewrite (load_entries_saved d [] Hwf).
Qed.

Lemma load_after_save (rt : Runtime) (t : PRTracker) (now : nat) :
  dict_wf (prs t) ->
  exists restarted,
    PRTracker_new [] (disk (_save rt t)) now = Returned restarted
    /\ prs restarted = prs t
    /\ log restarted = [].
Proof.
  intros Hwf. rewrite save_disk, (document_reads_back _ _ _ Hwf). by eexists.
Qed.

Lemma add_pr_result (rt : Runtime) (n : Z) (url r k b : string) (t : PRTracker) :
  fst (add_pr rt n url r k b t) = new_record rt n url r k b t.
Proof. reflexivity. Qed.

Lemma add_pr_prs (rt : Runtime) (n : Z) (url r k b : string) (t : PRTracker) :
  prs (snd (add_pr rt n url r k b t))
  = dict_set (_key r n) (new_record rt n url r k b t) (prs t).
Proof. reflexivity. Qed.

(** C1 (as amended).  Every call to [add_pr] returns a new record with
    status [open], CI status [pending] and the current time as its creation
    time, and it does so whether or not the pair is tracked already: the
    record is stored under the key of its (repo, number) pair, where it
    replaces whatever record was there, and the records of other pairs are
    untouched.  What the call writes to the file is the store it leaves: a
    tracker constructed from the file afterwards holds the same records,
    the new one among them, and loads without a warning. *)
Theorem add_pr_creates_or_replaces (rt : Runtime) (n : Z) (url r k b : string)
    (t : PRTracker) :
  status (fst (add_pr rt n url r k b t)) = VStr "open"
  /\ ci_status (fst (add_pr rt n url r k b t)) = VStr "pending"
  /\ created_at (fst (add_pr rt n url r k b t)) = VStr (utcnow rt (clock t))
  /\ get_pr r n (snd (add_pr rt n url r k b t)) = Some (fst (add_pr rt n url r k b t))
  /\ (forall r' n', (r', n') <> (r, n) ->
        get_pr r' n' (snd (add_pr rt n url r k b t)) = get_pr r' n' t)
  /\ (dict_wf (prs t) ->
      forall now, exists restarted,
        PRTracker_new [] (disk (snd (add_pr rt n url r k b t))) now = Returned restarted
        /\ prs restarted = prs (snd (add_pr rt n url r k b t))
        /\ get_pr r n restarted = Some (fst (add_pr rt n url r k b t))
        /\ log restarted = []).
Proof.
  assert (Hstored : get_pr r n (snd (add_pr rt n url r k b t))
                    = Some (fst (add_pr rt n url r k b t))).
  { unfold get_pr. rewrite add_pr_prs, add_pr_result. apply dict_get_set_eq. }
  split; [reflexivity|]. split; [reflexivity|]. split; [reflexivity|].
  split; [exact Hstored|]. split.
  - intros r' n' Hne. unfold get_pr. rewrite add_pr_prs.
    apply dict_get_set_ne. intros Hkey.
    apply _key_inj in Hkey as [-> ->]. by apply Hne.
  - intros Hwf now.
    assert (Hwf' : dict_wf (prs (snd (add_pr rt n url r k b t)))).
    { rewrite add_pr_prs. by apply dict_set_wf. }
    assert (Hdisk : exists stamp,
              disk (snd (add_pr rt n url r k b t))
              = Document (document_of (prs (snd (add_pr rt n url r k b t))) stamp)).
    { eexists. reflexivity. }
    destruct Hdisk as [stamp ->]. rewrite (document_reads_back _ _ _ Hwf').
    eexists. split; [reflexivity|]. cbn [prs log]. split; [reflexivity|].
    split; [exact Hstored|reflexivity].
Qed.

Lemma add_pr_creates_or_replaces_witness :
  exists restarted,
    PRTracker_new []
      (disk (snd (add_pr rt0 5 "https://host/o/r/pull/5" "o/r" "PROJ-101" "retry" tracker1)))
      7
    = Returned restarted
    /\ ticket_key <$> get_pr "o/r" 5 restarted = Some (VStr "PROJ-101").
Proof.
  assert (Hwf : dict_wf (prs tracker1)).
  { unfold dict_wf. cbn. apply NoDup_singleton. }
  destruct (add_pr_creates_or_replaces rt0 5 "https://host/o/r/pull/5" "o/r" "PROJ-101"
              "retry" tracker1) as (_ & _ & _ & _ & _ & Hback).
  destruct (Hback Hwf 7) as (restarted & Hnew & _ & Hget & _).
  exists restarted. split; [exact Hnew|]. by rewrite Hget.
Defined.

(** C1, as stated, fails: [add_pr] on a pair that is already tracked
    returns, and the new record takes the place of the old one. *)
Lemma add_pr_existing_pair_succeeds :
  get_pr "o/r" 5 tracker1 <> None
  /\ get_pr "o/r" 5
       (snd (add_pr rt0 5 "https://host/o/r/pull/5" "o/r" "PROJ-101" "retry" tracker1))
     = Some (fst (add_pr rt0 5 "https://host/o/r/pull/5" "o/r" "PROJ-101" "retry" tracker1))
  /\ ticket_key (fst (add_pr rt0 5 "https://host/o/r/pull/5" "o/r" "PROJ-101" "retry" tracker1))
     = VStr "PROJ-101"
  /\ length (prs (snd (add_pr rt0 5 "https://host/o/r/pull/5" "o/r" "PROJ-101" "retry" tracker1)))
     = 1%nat.
Proof.
  split; [by vm_compute|]. by vm_compute.
Qed.

Lemma update_pr_absent (rt : Runtime) (r : string) (n : Z)
    (ups : list (string * value)) (t : PRTracker) :
  get_pr r n t = None -> update_pr rt r n ups t = (Returned None, t).
Proof.
  unfold update_pr, get_pr. intros ->. reflexivity.
Qed.

(** C8.  [add_pr] then [get_pr] gives back the record with the supplied
    fields; [update_pr] with [ci_status] alone, then [get_pr], shows
    [ci_status] and [last_checked] changed and every other field as it was;
    [update_pr] on a pair that is not tracked returns [None] and changes
    nothing. *)
Theorem store_round_trip (rt : Runtime) (n : Z) (url r k b : string)
    (t : PRTracker) (v : value) (ups : list (string * value)) :
  get_pr r n (snd (add_pr rt n url r k b t))
  = Some {| pr_number := VInt n; pr_url := VStr url; repo := VStr r;
            ticket_key := VStr k; branch := VStr b;
            created_at := VStr (utcnow rt (clock t));
            last_checked := VNone; status := VStr "open";
            ci_status := VStr "pending";
            has_feedback := VBool false; feedback_addressed := VBool false |}
  /\ (forall pr, get_pr r n t = Some pr ->
        fst (update_pr rt r n [("ci_status"%string, v)] t)
        = Returned (Some (with_ci_status pr v (utcnow rt (clock t))))
        /\ get_pr r n (snd (update_pr rt r n [("ci_status"%string, v)] t))
           = Some (with_ci_status pr v (utcnow rt (clock t))))
  /\ (get_pr r n t = None -> update_pr rt r n ups t = (Returned None, t)).
Proof.
  split; [|split].
  - unfold get_pr. rewrite add_pr_prs. apply dict_get_set_eq.
  - intros pr Hget. unfold get_pr in Hget. unfold update_pr, get_pr.
    rewrite Hget. destruct pr; cbn. split; [reflexivity|]. apply dict_get_set_eq.
  - apply update_pr_absent.
Qed.

Lemma store_round_trip_witness :
  get_pr "o/r" 5 tracker1 = Some (new_record rt0 5 "https://host/o/r/pull/5" "o/r"
                                     "PROJ-100" "feature/proj-100-metric" empty_tracker)
  /\ get_pr "o/r" 5 tracker2
     = Some (with_ci_status
               (new_record rt0 5 "https://host/o/r/pull/5" "o/r" "PROJ-100"
                  "feature/proj-100-metric" empty_tracker)
               (VStr "failure") "t2")
  /\ update_pr rt0 "o/r" 6 [("ci_status"%string, VStr "failure")] tracker1
     = (Returned None, tracker1).
Proof.
  destruct (store_round_trip rt0 5 "https://host/o/r/pull/5" "o/r" "PROJ-100"
              "feature/proj-100-metric" empty_tracker (VStr "failure") [])
    as (Hadd & _ & _).
  destruct (store_round_trip rt0 5 "" "o/r" "" "" tracker1 (VStr "failure") [])
    as (_ & Hupd & _).
  destruct (store_round_trip rt0 6 "" "o/r" "" "" tracker1 VNone
              [("ci_status"%string, VStr "failure")])
    as (_ & _ & Habs).
  split; [exact Hadd|]. split.
  - exact (proj2 (Hupd _ Hadd)).
  - apply Habs. reflexivity.
Defined.

(** *** Updates *)

Ltac case_eqb :=
  repeat match goal with
         | |- context [String.eqb ?a ?b] =>
             destruct (String.eqb_spec a b); subst; try congruence
         end.

Lemma getattr_setattr_field_ne (pr : TrackedPR) (name f : string) (v : value) :
  f <> name -> getattr (setattr_field pr name v) f = getattr pr f.
Proof.
  intros Hne. unfold getattr, asdict, setattr_field. cbn [dict_get].
  case_eqb; reflexivity.
Qed.

Lemma getattr_setattr_field_eq (pr : TrackedPR) (name : string) (v : value) :
  is_field name = true -> getattr (setattr_field pr name v) name = Some v.
Proof.
  unfold is_field, field_names. cbn [existsb]. rewrite !orb_true_iff.
  rewrite !String.eqb_eq. intros H.
  repeat (destruct H as [H|H]); try discriminate H; subst name; reflexivity.
Qed.

Lemma merge_fields_cons (u : string * value) (ups : list (string * value))
    (pr : TrackedPR) :
  merge_fields (u :: ups) pr
  = merge_fields ups (if is_field (fst u) then setattr_field pr (fst u) (snd u) else pr).
Proof. reflexivity. Qed.

(** A name that is not supplied keeps its value through the merge. *)
Lemma getattr_merge_fields (ups : list (string * value)) (pr : TrackedPR)
    (f : string) :
  f ∉ map fst ups -> getattr (merge_fields ups pr) f = getattr pr f.
Proof.
  revert pr. induction ups as [|[name v] ups IH]; intros pr Hf; [reflexivity|].
  rewrite merge_fields_cons. cbn [fst snd map] in *.
  apply not_elem_of_cons in Hf as [Hne Hf].
  rewrite IH by exact Hf.
  destruct (is_field name); [|reflexivity].
  by apply getattr_setattr_field_ne.
Qed.

(** A supplied field ends with the value supplied for it. *)
Lemma getattr_merge_fields_supplied (ups : list (string * value)) (pr : TrackedPR)
    (f : string) (v : value) :
  NoDup (map fst ups) -> (f, v) ∈ ups -> is_field f = true ->
  getattr (merge_fields ups pr) f = Some v.
Proof.
  revert pr. induction ups as [|[name w] ups IH]; intros pr Hnodup Hin Hfield.
  { by apply elem_of_nil in Hin. }
  cbn [map fst] in Hnodup. apply NoDup_cons in Hnodup as [Hfresh Hnodup].
  rewrite merge_fields_cons. cbn [fst snd].
  apply elem_of_cons in Hin as [[= <- <-]|Hin].
  - rewrite getattr_merge_fields by exact Hfresh.
    rewrite Hfield. by apply getattr_setattr_field_eq.
  - by apply IH.
Qed.

(** The loop of [update_pr] does not see the names [hasattr] rejects. *)
Lemma apply_updates_filter (rt : Runtime) (ups : list (string * value))
    (pr : TrackedPR) :
  apply_updates rt ups pr
  = apply_updates rt (List.filter (fun u => hasattr rt (fst u)) ups) pr.
Proof.
  revert pr. induction ups as [|[name v] ups IH]; intros pr; [reflexivity|].
  cbn [apply_updates List.filter fst].
  destruct (hasattr rt name) eqn:Hattr; [|apply IH].
  cbn [apply_updates]. rewrite Hattr.
  destruct (setattr rt pr name v); [apply IH|reflexivity].
Qed.

(** When every supplied name is a field or no attribute at all, the loop
    is the merge of the supplied fields and raises nothing. *)
Lemma apply_updates_fields (rt : Runtime) (ups : list (string * value))
    (pr : TrackedPR) :
  Forall (fun u => is_field (fst u) = true \/ hasattr rt (fst u) = false) ups ->
  apply_updates rt ups pr = (merge_fields ups pr, None).
Proof.
  intros Hall. revert pr.
  induction Hall as [|[name v] ups Hu _ IH]; intros pr; [reflexivity|].
  rewrite merge_fields_cons. cbn [apply_updates fst snd] in *.
  destruct Hu as [Hfield|Hnone].
  - unfold hasattr, setattr. rewrite Hfield. cbn [orb]. apply IH.
  - rewrite Hnone. unfold hasattr in Hnone.
    apply orb_false_iff in Hnone as [-> _]. apply IH.
Qed.

(** C10 (as amended).  A call of [update_pr] on a tracked pair with a
    keyword named like a parameter of the method ([self], [repo],
    [pr_number]) is rejected by Python with a [TypeError] and leaves the
    store as it was.  Every other call ignores each supplied name that is no
    attribute of the record: it behaves as if the name had not been
    supplied, so nothing comes of it.  When the supplied names are fields or
    unknown, the call returns the record obtained by assigning the supplied
    fields, in order, and then the new [last_checked]; every field that was
    not supplied is unchanged, every field that was holds the supplied
    value, and a tracker constructed from the file afterwards holds that
    record. *)
Theorem update_pr_ignores_unknown_names (rt : Runtime) (r : string) (n : Z)
    (kwargs : list (string * value)) (t : PRTracker) (pr : TrackedPR) :
  get_pr r n t = Some pr ->
  (names_a_parameter kwargs = true ->
   call_update_pr rt r n kwargs t = (Raised "TypeError", t))
  /\ (names_a_parameter kwargs = false ->
      call_update_pr rt r n kwargs t
      = call_update_pr rt r n (List.filter (fun u => hasattr rt (fst u)) kwargs) t
      /\ (Forall (fun u => is_field (fst u) = true \/ hasattr rt (fst u) = false) kwargs ->
          exists pr',
            fst (call_update_pr rt r n kwargs t) = Returned (Some pr')
            /\ pr' = setattr_field (merge_fields kwargs pr) "last_checked"
                                   (VStr (utcnow rt (clock t)))
            /\ get_pr r n (snd (call_update_pr rt r n kwargs t)) = Some pr'
            /\ last_checked pr' = VStr (utcnow rt (clock t))
            /\ (forall f, f ∉ map fst kwargs -> f <> "last_checked"%string ->
                  getattr pr' f = getattr pr f)
            /\ (NoDup (map fst kwargs) ->
                forall f v, (f, v) ∈ kwargs -> is_field f = true ->
                            f <> "last_checked"%string ->
                            getattr pr' f = Some v)
            /\ (dict_wf (prs t) ->
                forall now, exists restarted,
                  PRTracker_new [] (disk (snd (call_update_pr rt r n kwargs t))) now
                  = Returned restarted
                  /\ prs restarted = prs (snd (call_update_pr rt r n kwargs t))
                  /\ get_pr r n restarted = Some pr'
                  /\ log restarted = []))).
Proof.
  intros Hget. unfold get_pr in Hget. unfold call_update_pr. split.
  - by intros ->.
  - intros Hnames. rewrite Hnames.
    assert (Hfiltered : names_a_parameter
                          (List.filter (fun u => hasattr rt (fst u)) kwargs) = false).
    { unfold names_a_parameter in *. apply not_true_is_false.
      intros (kw & [Hin _]%filter_In & Hkw)%existsb_exists.
      assert (Hex : existsb (fun kw => existsb (String.eqb (fst kw)) update_pr_params)
                      kwargs = true) by (apply existsb_exists; by exists kw).
      congruence. }
    rewrite Hfiltered. split.
    + unfold update_pr. rewrite Hget. by rewrite <- apply_updates_filter.
    + intros Hall. unfold update_pr. rewrite Hget.
      rewrite (apply_updates_fields _ _ _ Hall).
      eexists. split; [reflexivity|]. cbn [fst snd]. split; [reflexivity|].
      assert (Hstored : forall d : dict TrackedPR,
                dict_get (_key r n)
                  (dict_set (_key r n)
                     (setattr_field (merge_fields kwargs pr) "last_checked"
                        (VStr (utcnow rt (clock t)))) d)
                = Some (setattr_field (merge_fields kwargs pr) "last_checked"
                          (VStr (utcnow rt (clock t)))))
        by (intros d; apply dict_get_set_eq).
      split; [unfold get_pr; rewrite save_prs; apply Hstored|].
      split; [reflexivity|].
      split; [|split].
      * intros f Hf Hlc.
        rewrite getattr_setattr_field_ne by exact Hlc.
        by apply getattr_merge_fields.
      * intros Hnodup f v Hin Hfield Hlc.
        rewrite getattr_setattr_field_ne by exact Hlc.
        by apply getattr_merge_fields_supplied.
      * intros Hwf now. rewrite save_disk, save_prs. cbn [prs].
        rewrite document_reads_back by (by apply dict_set_wf).
        eexists. split; [reflexivity|]. cbn [prs log]. split; [reflexivity|].
        split; [unfold get_pr; apply Hstored|reflexivity].
Qed.

Lemma update_pr_ignores_unknown_names_witness :
  call_update_pr rt0 "o/r" 5
    [("ci_status"%string, VStr "failure"); ("colour"%string, VInt 3)] tracker1
  = call_update_pr rt0 "o/r" 5 [("ci_status"%string, VStr "failure")] tracker1.
Proof.
  refine (proj1 (proj2 (update_pr_ignores_unknown_names rt0 "o/r" 5
            [("ci_status"%string, VStr "failure"); ("colour"%string, VInt 3)]
            tracker1
            (new_record rt0 5 "https://host/o/r/pull/5" "o/r" "PROJ-100"
               "feature/proj-100-metric" empty_tracker) _) _));
    reflexivity.
Defined.

(** C10, as stated, fails: [self] is no attribute of the record, and the
    call that supplies it raises and leaves the store as it was. *)
Lemma update_pr_rejects_self :
  get_pr "o/r" 5 tracker1 <> None
  /\ hasattr rt0 "self" = false
  /\ call_update_pr rt0 "o/r" 5 [("self"%string, VInt 3)] tracker1
     = (Raised "TypeError", tracker1).
Proof.
  split; [by vm_compute|]. split; reflexivity.
Qed.

(** *** The attention query *)

Lemma truthy_needs_attention (pr : TrackedPR) :
  truthy (needs_attention pr)
  = eq_str (ci_status pr) "failure"
    || (truthy (has_feedback pr) && negb (truthy (feedback_addressed pr))).
Proof.
  unfold needs_attention, py_or, py_and, py_not. cbn [truthy].
  destruct (eq_str (ci_status pr) "failure"); cbn [truthy orb]; [reflexivity|].
  destruct (truthy (has_feedback pr)) eqn:Hf; cbn [truthy andb]; [reflexivity|].
  exact Hf.
Qed.

Lemma wants_attention_truthy (pr : TrackedPR) :
  truthy (needs_attention pr) = true <-> wants_attention pr.
Proof.
  rewrite truthy_needs_attention, orb_true_iff, andb_true_iff, negb_true_iff,
    eq_str_true.
  reflexivity.
Qed.

Lemma repo_mismatch_false (rf : option string) (pr : TrackedPR) :
  repo_mismatch rf pr = false <-> of_repository_if_named rf pr.
Proof.
  destruct rf as [r|]; cbn [repo_mismatch of_repository_if_named truthy]; [|done].
  rewrite andb_false_iff, negb_false_iff, negb_false_iff, String.eqb_eq, eq_str_true.
  reflexivity.
Qed.

Lemma fold_left_ext {A B : Type} (f g : A -> B -> A) (l : list B) (a : A) :
  (forall a x, f a x = g a x) -> fold_left f l a = fold_left g l a.
Proof.
  intros Hfg. revert a. induction l as [|x l IH]; intros a; [reflexivity|].
  cbn [fold_left]. by rewrite Hfg, IH.
Qed.

(** A loop that appends the elements it keeps is a filter. *)
Lemma fold_left_append_filter {A : Type} (keep : A -> bool) (l acc : list A) :
  fold_left (fun result x => if keep x then result ++ [x] else result) l acc
  = acc ++ List.filter keep l.
Proof.
  revert acc. induction l as [|x l IH]; intros acc; cbn [fold_left List.filter].
  - by rewrite app_nil_r.
  - rewrite IH. destruct (keep x); [|reflexivity].
    by rewrite <- app_assoc.
Qed.

(** C7.  For every repository filter but the empty string,
    [get_prs_needing_attention] returns exactly the records the
    specification names: those with status [open], of the repository when
    one is given, for which the CI status is [failure] or there is feedback
    that is not addressed; each is returned once, in the order of the
    store.  With the empty string as filter the guard [if repo and ...]
    switches the filter off, and the query answers as it does without a
    filter. *)
Theorem attention_query_exact (rf : option string) (t : PRTracker) :
  (rf <> Some ""%string ->
   exists keep : TrackedPR -> bool,
     get_prs_needing_attention rf t = List.filter keep (dict_values (prs t))
     /\ forall pr, keep pr = true <-> listed_by_spec rf pr)
  /\ get_prs_needing_attention (Some ""%string) t = get_prs_needing_attention None t.
Proof.
  assert (Hfilter : forall rf',
            get_prs_needing_attention rf' t
            = List.filter (fun pr => eq_str (status pr) "open"
                                     && negb (repo_mismatch rf' pr)
                                     && truthy (needs_attention pr))
                (dict_values (prs t))).
  { intros rf'. unfold get_prs_needing_attention.
    rewrite <- (app_nil_l (List.filter _ _)), <- fold_left_append_filter.
    apply fold_left_ext. intros result pr.
    destruct (eq_str (status pr) "open"); cbn [negb andb]; [|reflexivity].
    destruct (repo_mismatch rf' pr); reflexivity. }
  split.
  - intros Hrf. eexists. split; [apply Hfilter|]. intros pr. cbn beta.
    rewrite !andb_true_iff, negb_true_iff, eq_str_true, repo_mismatch_false,
      wants_attention_truthy.
    unfold listed_by_spec, of_repository, of_repository_if_named.
    destruct rf as [name|]; [|tauto].
    assert (name <> ""%string) by congruence. tauto.
  - rewrite !Hfilter. reflexivity.
Qed.

Lemma attention_query_exact_witness :
  exists keep : TrackedPR -> bool,
    get_prs_needing_attention (Some "o/r"%string) tracker2
    = List.filter keep (dict_values (prs tracker2))
    /\ forall pr, keep pr = true <-> listed_by_spec (Some "o/r"%string) pr.
Proof.
  apply (proj1 (attention_query_exact (Some "o/r"%string) tracker2)). discriminate.
Defined.

(** C7 fails for the empty string as repository filter: the query returns
    a record of repository ["o/r"], where [get_open_prs], which tests
    [repo is None], returns none. *)
Lemma attention_query_empty_repo_name :
  (exists pr,
     In pr (get_prs_needing_attention (Some ""%string) tracker2)
     /\ ~ listed_by_spec (Some ""%string) pr)
  /\ get_open_prs (Some ""%string) tracker2 = [].
Proof.
  split; [|reflexivity]. eexists. split.
  - vm_compute. left. reflexivity.
  - intros (_ & Hrepo & _). discriminate Hrepo.
Qed.

(** *** Loading *)

Lemma dict_mem_set {V : Type} (k k' : string) (v : V) (d : dict V) :
  dict_mem k d = true -> dict_mem k (dict_set k' v d) = true.
Proof.
  unfold dict_mem. intros H.
  destruct (String.eqb_spec k' k) as [->|Hne].
  - by rewrite dict_get_set_eq.
  - by rewrite dict_get_set_ne.
Qed.

(** Loading adds and overwrites entries; it drops none. *)
Lemma load_entries_keeps (entries : list (string * value)) (d : dict TrackedPR)
    (k : string) :
  dict_mem k d = true -> dict_mem k (fst (load_entries entries d)) = true.
Proof.
  revert d. induction entries as [|[key v] entries IH]; intros d Hk; [exact Hk|].
  cbn [load_entries]. destruct v; try exact Hk.
  destruct (TrackedPR_init entries0); [|exact Hk].
  apply IH. by apply dict_mem_set.
Qed.

(** When the loop over the entries ends without an exception, every entry
    was a record. *)
Lemma load_entries_quiet (entries : list (string * value)) (d : dict TrackedPR) :
  snd (load_entries entries d) = false -> Forall record_entry entries.
Proof.
  revert d. induction entries as [|[key v] entries IH]; intros d Hq; [constructor|].
  cbn [load_entries] in Hq. destruct v; try discriminate Hq.
  destruct (TrackedPR_init entries0) as [pr|] eqn:Hinit; [|discriminate Hq].
  constructor; [|by eapply IH].
  exists entries0, pr. by split.
Qed.

(** When the loop over the entries raises, it raises at the first entry
    that is no record, and the store holds what the entries before it
    gave. *)
Lemma load_entries_raised (entries : list (string * value)) (d : dict TrackedPR) :
  snd (load_entries entries d) = true ->
  exists good e bad,
    entries = good ++ e :: bad
    /\ Forall record_entry good
    /\ ~ record_entry e
    /\ load_entries good d = (fst (load_entries entries d), false).
Proof.
  revert d. induction entries as [|[key v] entries IH]; intros d Hraised;
    [discriminate Hraised|].
  assert (Hstop : (forall kw pr, v = VDict kw -> TrackedPR_init kw = Some pr -> False) ->
                  load_entries [] d = (fst (load_entries ((key, v) :: entries) d), false) ->
                  exists good e bad,
                    (key, v) :: entries = good ++ e :: bad
                    /\ Forall record_entry good
                    /\ ~ record_entry e
                    /\ load_entries good d
                       = (fst (load_entries ((key, v) :: entries) d), false)).
  { intros Hv Hload. exists [], (key, v), entries.
    repeat split; [constructor| |exact Hload].
    intros (kw & pr & Hkw & Hpr). by apply (Hv kw pr). }
  destruct v as [|b|z|s|items|kw]; try (by apply Hstop).
  cbn [load_entries] in *.
  destruct (TrackedPR_init kw) as [pr|] eqn:Hinit.
  - destruct (IH _ Hraised) as (good & e & bad & -> & Hgood & He & Hload).
    exists ((key, VDict kw) :: good), e, bad. repeat split; auto.
    + constructor; [|exact Hgood]. by exists kw, pr.
    + cbn [load_entries]. by rewrite Hinit.
  - apply Hstop; [|reflexivity].
    intros kw' pr' [= <-]. congruence.
Qed.

Lemma load_document_quiet (doc : value) (d : dict TrackedPR) :
  snd (load_document doc d) = false -> readable_document doc.
Proof.
  unfold load_document. destruct doc as [| | | |?|data]; try discriminate.
  intros Hq. exists data. split; [reflexivity|].
  destruct (dict_get "prs" data) as [v|]; [|by left].
  destruct v; try discriminate Hq.
  right. eexists. split; [reflexivity|]. by eapply load_entries_quiet.
Qed.

Lemma load_document_keeps (doc : value) (d : dict TrackedPR) (k : string) :
  dict_mem k d = true -> dict_mem k (fst (load_document doc d)) = true.
Proof.
  intros Hk. unfold load_document.
  destruct doc as [| | | |?|data]; try exact Hk.
  destruct (dict_get "prs" data) as [v|]; [|exact Hk].
  destruct v; try exact Hk. by apply load_entries_keeps.
Qed.

Lemma load_entries_lookup (entries : list (string * value)) (d : dict TrackedPR)
    (k : string) :
  Forall record_entry entries -> NoDup (map fst entries) ->
  dict_get k (fst (load_entries entries d))
  = match dict_get k entries with
    | Some (VDict kw) => TrackedPR_init kw
    | _ => dict_get k d
    end.
Proof.
  intros Hall. revert d.
  induction Hall as [|[k0 v0] entries (kw & pr & Hv & Hinit) _ IH]; intros d Hnodup;
    cbn [load_entries dict_get]; [reflexivity|].
  cbn [snd] in Hv. subst v0. rewrite Hinit.
  cbn [map fst] in Hnodup. apply NoDup_cons in Hnodup as [Hfresh Hnodup].
  rewrite (IH _ Hnodup).
  assert (Habsent : forall k', k' ∉ map fst entries -> dict_get k' entries = None).
  { intros k' Hk'. destruct (dict_get k' entries) eqn:Hget; [|reflexivity].
    exfalso. apply Hk', (dict_mem_keys k' entries). unfold dict_mem. by rewrite Hget. }
  destruct (String.eqb_spec k0 k) as [->|Hne].
  - rewrite (Habsent k Hfresh). by rewrite dict_get_set_eq.
  - destruct (dict_get k entries) as [[]|]; try by rewrite dict_get_set_ne.
    reflexivity.
Qed.

(** C2 (as amended).  When the persisted state is corrupt or unreadable,
    the constructor fails only if the file is out of reach, that is, if the
    test for its existence raises; the error is then passed on and nothing
    is logged.  In every other case constructing the store returns a
    store: one warning is logged, the file is left as it is, and the store
    goes on with the records it was given, to which it has added the
    records of the entries that precede the first entry that is no record.
    It holds exactly the records it was given when the file cannot be read
    or parsed, when the document is no dictionary, and when its ["prs"]
    entry is no dictionary. *)
Theorem load_corrupt_warns_and_continues (initial : dict TrackedPR) (f : file)
    (now : nat) :
  corrupt f ->
  (forall exc, f = Inaccessible exc -> PRTracker_new initial f now = Raised exc)
  /\ ((forall exc, f <> Inaccessible exc) ->
      exists t,
        PRTracker_new initial f now = Returned t
        /\ log t = [load_warning]
        /\ disk t = f
        /\ clock t = now
        /\ (forall k, dict_mem k initial = true -> dict_mem k (prs t) = true)
        /\ (f = Unreadable -> prs t = initial)
        /\ (forall doc, f = Document doc -> (forall data, doc <> VDict data) ->
              prs t = initial)
        /\ (forall data v,
              f = Document (VDict data) -> dict_get "prs" data = Some v ->
              (forall entries, v <> VDict entries) ->
              prs t = initial)
        /\ (forall data entries,
              f = Document (VDict data) ->
              dict_get "prs" data = Some (VDict entries) ->
              exists good e bad,
                entries = good ++ e :: bad
                /\ Forall record_entry good
                /\ ~ record_entry e
                /\ load_entries good initial = (prs t, false)
                /\ (NoDup (map fst good) ->
                    forall k, dict_get k (prs t)
                              = match dict_get k good with
                                | Some (VDict kw) => TrackedPR_init kw
                                | _ => dict_get k initial
                                end))).
Proof.
  intros Hcorrupt. unfold PRTracker_new, _load. cbn [disk prs]. split.
  - by intros exc ->.
  - intros Hreach.
    destruct f as [exc| | |doc]; [by destruct (Hreach exc)|destruct Hcorrupt| |].
    + eexists. split; [reflexivity|]. cbn [with_log log disk clock prs app].
      repeat split; auto; try discriminate.
    + assert (Hraised : snd (load_document doc initial) = true).
      { destruct (snd (load_document doc initial)) eqn:Hq; [reflexivity|].
        exfalso. by apply Hcorrupt, (load_document_quiet doc initial). }
      pose proof (load_document_keeps doc initial) as Hkeeps.
      assert (Hshape : (forall data', doc <> VDict data') ->
                fst (load_document doc initial) = initial).
      { intros Hno. unfold load_document. destruct doc as [| | | | |data']; try reflexivity.
        by destruct (Hno data'). }
      assert (Hprs : forall data v,
                doc = VDict data -> dict_get "prs" data = Some v ->
                (forall entries, v <> VDict entries) ->
                fst (load_document doc initial) = initial).
      { intros data v -> Hget Hno. unfold load_document. rewrite Hget.
        destruct v as [| | | | |entries]; try reflexivity. by destruct (Hno entries). }
      assert (Hsplit : forall data entries,
                doc = VDict data ->
                dict_get "prs" data = Some (VDict entries) ->
                exists good e bad,
                  entries = good ++ e :: bad
                  /\ Forall record_entry good
                  /\ ~ record_entry e
                  /\ load_entries good initial = (fst (load_document doc initial), false)).
      { intros data entries -> Hget. unfold load_document in *. rewrite Hget in *.
        by apply load_entries_raised. }
      destruct (load_document doc initial) as [d raised]. cbn [fst snd] in *.
      subst raised. eexists. split; [reflexivity|].
      cbn [with_log with_prs log disk clock prs app].
      split; [reflexivity|]. split; [reflexivity|]. split; [reflexivity|].
      split; [exact Hkeeps|]. split; [discriminate|].
      split; [intros doc' [= <-] Hno; by apply Hshape|].
      split.
      * intros data v [= ->] Hget Hno. by apply (Hprs data v).
      * intros data entries [= ->] Hget.
        destruct (Hsplit data entries eq_refl Hget)
          as (good & e & bad & Hentries & Hgood & Hbad & Hload).
        exists good, e, bad. repeat split; auto.
        intros Hnodup k.
        pose proof (load_entries_lookup good initial k Hgood Hnodup) as Hlook.
        by rewrite Hload in Hlook.
Qed.

Lemma load_corrupt_warns_and_continues_witness :
  exists t,
    PRTracker_new [] (Document half_corrupt_document) 0 = Returned t
    /\ log t = [load_warning]
    /\ length (prs t) = 1%nat.
Proof.
  assert (Hcorrupt : corrupt (Document half_corrupt_document)).
  { intros (data & [= <-] & [Hnone | (entries & [= <-] & Hall)]); [discriminate Hnone|].
    apply Forall_cons in Hall as [_ Hall].
    apply Forall_cons in Hall as [(kw & pr & [= <-] & Hinit) _].
    discriminate Hinit. }
  destruct (proj2 (load_corrupt_warns_and_continues [] (Document half_corrupt_document) 0
                     Hcorrupt)) as (t & Hnew & Hlog & _); [discriminate|].
  exists t. split; [exact Hnew|]. split; [exact Hlog|].
  injection Hnew as <-. reflexivity.
Defined.

(** C2, as stated, fails: on a file that cannot be parsed the constructor
    returns a store with no record, and on a document that is corrupt half
    way it returns a store with the records read so far; neither is a
    failure.  (It does fail, without a warning, when the file is out of
    reach.) *)
Lemma load_unreadable_returns_store :
  corrupt Unreadable
  /\ PRTracker_new [] Unreadable 0
     = Returned {| prs := []; disk := Unreadable; clock := 0; log := [load_warning] |}
  /\ (exists t,
        PRTracker_new [] (Document half_corrupt_document) 0 = Returned t
        /\ dict_keys (prs t) = ["o/r#5"%string]
        /\ log t = [load_warning])
  /\ PRTracker_new [] (Inaccessible "PermissionError") 0 = Raised "PermissionError".
Proof.
  split; [exact I|]. split; [reflexivity|]. split; [|reflexivity].
  eexists. split; [reflexivity|]. by vm_compute.
Qed.

(** *** A scenario of the specification *)

(** A record with CI status [success] and feedback that is not addressed is
    listed; once [feedback_addressed] is set it is not. *)
Example feedback_scenario :
  map pr_number
    (get_prs_needing_attention None
       (snd (update_pr rt0 "o/r" 5
               [("ci_status"%string, VStr "success"); ("has_feedback"%string, VBool true)]
               tracker1)))
  = [VInt 5]
  /\ get_prs_needing_attention None
       (snd (update_pr rt0 "o/r" 5 [("feedback_addressed"%string, VBool true)]
               (snd (update_pr rt0 "o/r" 5
                       [("ci_status"%string, VStr "success");
                        ("has_feedback"%string, VBool true)]
                       tracker1))))
     = [].
Proof. by vm_compute. Qed.

End TrackerFacts.

(** ** The correlator *)

Module CorrelatorFacts.
Import Correlator.

Lemma digit_is_word (c : ascii) : is_digit c = true -> is_word c = true.
Proof. unfold is_word. by intros ->. Qed.

Lemma boundary_after_digit (c : ascii) (after : option ascii) :
  is_digit c = true -> boundary (Some c) after = negb (word_at after).
Proof.
  intros Hc. unfold boundary. cbn [word_at]. by rewrite (digit_is_word c Hc).
Qed.

Lemma head_app_nonempty {A : Type} (l1 l2 : list A) :
  l1 <> [] -> head (l1 ++ l2) = head l1.
Proof. by destruct l1. Qed.

Lemma close_group_after_digit (c : ascii) (s : list ascii) :
  is_digit c = true ->
  close_group (Some c) s = if word_at (head s) then None else Some [].
Proof.
  intros Hc. unfold close_group. cbn [match_items].
  rewrite (boundary_after_digit c _ Hc). by destruct (word_at (head s)).
Qed.

(** No digit run starts where the next character is no word character. *)
Lemma digits_plus_no_word (g : bool) k (s : list ascii) :
  word_at (head s) = false -> digits_plus g k s = None.
Proof.
  destruct s as [|c s]; [reflexivity|]. cbn [head word_at digits_plus].
  intros Hw. destruct (is_digit c) eqn:Hd; [|reflexivity].
  by rewrite (digit_is_word c Hd) in Hw.
Qed.

(** [\d+)\b]: the digits are all the digits there are, and what follows
    them is no word character. *)
Lemma digits_plus_close (s g : list ascii) :
  digits_plus true close_group s = Some g
  <-> exists post,
        s = g ++ post /\ g <> [] /\ Forall (fun c => is_digit c = true) g
        /\ word_at (head post) = false.
Proof.
  revert g. induction s as [|c s IH]; intros g; cbn [digits_plus].
  - split; [discriminate|].
    intros (post & Hs & Hg & _). by destruct g.
  - destruct (is_digit c) eqn:Hc.
    + split.
      * destruct (digits_plus true close_group s) as [g'|] eqn:Hrun.
        -- destruct (proj1 (IH g') eq_refl) as (post & -> & Hg' & Hall & Hpost).
           cbn [keep]. intros [= <-]. exists post. repeat split; auto.
        -- rewrite (close_group_after_digit c s Hc).
           destruct (word_at (head s)) eqn:Hw; [discriminate|].
           cbn. intros [= <-]. exists s. repeat split; auto.
      * intros (post & Hs & Hg & Hall & Hpost).
        destruct g as [|d g]; [done|]. cbn in Hs. injection Hs as <- ->.
        apply Forall_cons in Hall as [_ Hall].
        destruct g as [|e g].
        -- cbn [app]. rewrite digits_plus_no_word by exact Hpost.
           rewrite (close_group_after_digit c post Hc), Hpost. reflexivity.
        -- assert (Hrun : digits_plus true close_group ((e :: g) ++ post) = Some (e :: g)).
           { apply IH. exists post. repeat split; auto. }
           by rewrite Hrun.
    + split; [discriminate|].
      intros (post & Hs & Hg & Hall & _). destruct g as [|d g]; [done|].
      cbn in Hs. injection Hs as <- _. apply Forall_cons in Hall as [Hd _]. congruence.
Qed.

Lemma match_literal (c : ascii) (rest : list item) (before : option ascii)
    (s : list ascii) (g : bool) :
  match_items (Literal c :: rest) before s g
  = match s with
    | d :: s' =>
        if eqb_nocase c d
        then option_map (keep g d) (match_items rest (Some d) s' g)
        else None
    | [] => None
    end.
Proof. reflexivity. Qed.

Lemma eqb_nocase_dash (d : ascii) : eqb_nocase "-" d = true -> d = "-"%char.
Proof.
  destruct d as [[] [] [] [] [] [] [] []]; vm_compute; congruence.
Qed.

Lemma match_tail (before : option ascii) (s g : list ascii) :
  match_items tail_items before s true = Some g
  <-> exists ds post,
        s = "-"%char :: ds ++ post /\ g = "-"%char :: ds /\ ds <> []
        /\ Forall (fun c => is_digit c = true) ds
        /\ word_at (head post) = false.
Proof.
  unfold tail_items. rewrite match_literal.
  destruct s as [|d s].
  { split; [discriminate|]. by intros (? & ? & ? & _). }
  destruct (eqb_nocase "-" d) eqn:Hd.
  - apply eqb_nocase_dash in Hd as ->.
    change (match_items [Digits; GroupClose; WordBoundary] (Some "-"%char) s true)
      with (digits_plus true close_group s).
    destruct (digits_plus true close_group s) as [ds|] eqn:Hrun; cbn [option_map keep].
    + apply digits_plus_close in Hrun as (post & -> & Hds & Hall & Hpost). split.
      * intros [= <-]. by exists ds, post.
      * intros (ds' & post' & [= Hs] & -> & Hds' & Hall' & Hpost'). f_equal. f_equal.
        assert (Hrun : digits_plus true close_group (ds ++ post) = Some ds').
        { apply digits_plus_close. by exists post'. }
        assert (Hrun' : digits_plus true close_group (ds ++ post) = Some ds).
        { apply digits_plus_close. by exists post. }
        congruence.
    + split; [discriminate|].
      intros (ds' & post' & [= ->] & -> & Hds' & Hall' & Hpost').
      assert (Hrun' : digits_plus true close_group (ds' ++ post') = Some ds').
      { apply digits_plus_close. by exists post'. }
      congruence.
  - split; [discriminate|].
    intros (ds & post & Hs & _). injection Hs as -> _. by vm_compute in Hd.
Qed.

(** [PROJECT-\d+)\b], with the group open. *)
Lemma match_key_tail (cs : list ascii) (before : option ascii) (s g : list ascii) :
  match_items (map Literal cs ++ tail_items) before s true = Some g
  <-> exists k ds post,
        s = k ++ "-"%char :: ds ++ post /\ g = k ++ "-"%char :: ds
        /\ Forall2 (fun c d => eqb_nocase c d = true) cs k
        /\ ds <> []
        /\ Forall (fun c => is_digit c = true) ds
        /\ word_at (head post) = false.
Proof.
  revert before s g. induction cs as [|c cs IH]; intros before s g.
  - cbn [map app]. rewrite match_tail. split.
    + intros (ds & post & -> & -> & Hds & Hall & Hpost). exists [], ds, post.
      repeat split; auto.
    + intros (k & ds & post & -> & -> & Hk & Hds & Hall & Hpost).
      apply Forall2_nil_inv_l in Hk as ->. exists ds, post. repeat split; auto.
  - cbn [map app]. rewrite match_literal.
    destruct s as [|d s].
    { split; [discriminate|].
      intros (k & ds & post & Hs & _). by destruct k. }
    destruct (eqb_nocase c d) eqn:Hcd.
    + destruct (match_items (map Literal cs ++ tail_items) (Some d) s true)
        as [g'|] eqn:Hrest; cbn [option_map keep].
      * apply IH in Hrest as (k & ds & post & -> & -> & Hk & Hds & Hall & Hpost). split.
        -- intros [= <-]. exists (d :: k), ds, post.
           repeat split; auto.
        -- intros (k' & ds' & post' & Hs & -> & Hk' & Hds' & Hall' & Hpost').
           apply Forall2_cons_inv_l in Hk' as (d' & k'' & _ & Hk'' & ->).
           cbn in Hs. injection Hs as <- Hs. cbn. do 2 f_equal.
           assert (Hm : match_items (map Literal cs ++ tail_items) (Some d)
                          (k ++ "-"%char :: ds ++ post) true = Some (k'' ++ "-"%char :: ds')).
           { apply IH. exists k'', ds', post'. repeat split; auto. }
           assert (Hm' : match_items (map Literal cs ++ tail_items) (Some d)
                           (k ++ "-"%char :: ds ++ post) true = Some (k ++ "-"%char :: ds)).
           { apply IH. exists k, ds, post. repeat split; auto. }
           congruence.
      * split; [discriminate|].
        intros (k' & ds' & post' & Hs & -> & Hk' & Hds' & Hall' & Hpost').
        apply Forall2_cons_inv_l in Hk' as (d' & k'' & _ & Hk'' & ->).
        cbn in Hs. injection Hs as <- ->.
        assert (Hm : match_items (map Literal cs ++ tail_items) (Some d)
                       (k'' ++ "-"%char :: ds' ++ post') true = Some (k'' ++ "-"%char :: ds')).
        { apply IH. exists k'', ds', post'. repeat split; auto. }
        congruence.
    + split; [discriminate|].
      intros (k' & ds' & post' & Hs & -> & Hk' & Hds' & Hall' & Hpost').
      apply Forall2_cons_inv_l in Hk' as (d' & k'' & Hcd' & Hk'' & ->).
      cbn in Hs. injection Hs as <- _. congruence.
Qed.

Lemma ticket_pattern_unfold (project_key : list ascii) (before : option ascii)
    (s : list ascii) :
  match_items (ticket_pattern project_key) before s false
  = if boundary before (head s)
    then match_items (map Literal project_key ++ tail_items) before s true
    else None.
Proof. reflexivity. Qed.

Lemma last_key_dash_digits (k ds : list ascii) :
  ds <> [] -> last (k ++ "-"%char :: ds) = last ds.
Proof.
  intros Hds. rewrite last_app. rewrite last_cons.
  destruct (last ds) eqn:Hl; [reflexivity|]. by apply last_None in Hl.
Qed.

Lemma last_digits (ds : list ascii) :
  ds <> [] -> Forall (fun c => is_digit c = true) ds ->
  exists c, last ds = Some c /\ is_digit c = true.
Proof.
  intros Hds Hall. destruct (last ds) as [c|] eqn:Hl.
  - exists c. split; [reflexivity|].
    apply last_Some_elem_of in Hl. by eapply Forall_forall in Hall.
  - by apply last_None in Hl.
Qed.

(** The matcher succeeds at a position exactly when a ticket key stands
    there, and its group is that ticket key. *)
Lemma match_at_occurrence (project_key pre s g : list ascii) :
  match_items (ticket_pattern project_key) (last pre) s false = Some g
  <-> exists post, s = g ++ post /\ ticket_occurrence project_key pre g post.
Proof.
  rewrite ticket_pattern_unfold. split.
  - destruct (boundary (last pre) (head s)) eqn:Hb; [|discriminate].
    intros (k & ds & post & -> & -> & Hk & Hds & Hall & Hpost)%match_key_tail.
    exists post. split; [by rewrite <- app_assoc|].
    exists k, ds. repeat split; auto.
    + assert (Hh : head (k ++ "-"%char :: ds ++ post) = head (k ++ "-"%char :: ds))
        by (by destruct k).
      by rewrite Hh in Hb.
    + rewrite last_key_dash_digits by exact Hds.
      destruct (last_digits ds Hds Hall) as (c & -> & Hc).
      rewrite (boundary_after_digit c _ Hc). by rewrite Hpost.
  - intros (post & -> & k & ds & -> & Hk & Hds & Hall & Hb1 & Hb2).
    rewrite head_app_nonempty by (by destruct k). rewrite Hb1.
    apply match_key_tail. exists k, ds, post.
    repeat split; auto; [by rewrite <- app_assoc|].
    rewrite last_key_dash_digits in Hb2 by exact Hds.
    destruct (last_digits ds Hds Hall) as (c & Hl & Hc). rewrite Hl in Hb2.
    rewrite (boundary_after_digit c _ Hc) in Hb2. by apply negb_true_iff in Hb2.
Qed.

(** The search stops at the first position where the matcher succeeds. *)
Lemma search_from_found (project_key pre s : list ascii) (i : nat) (g : list ascii) :
  search_from (ticket_pattern project_key) (length pre) (last pre) s = Some (i, g) ->
  exists skipped rest,
    s = skipped ++ rest
    /\ i = length (pre ++ skipped)
    /\ match_items (ticket_pattern project_key) (last (pre ++ skipped)) rest false = Some g
    /\ forall skipped' rest',
         s = skipped' ++ rest' -> length skipped' < length skipped ->
         match_items (ticket_pattern project_key) (last (pre ++ skipped')) rest' false
         = None.
Proof.
  revert pre. induction s as [|c s IH]; intros pre; cbn [search_from];
    destruct (match_items (ticket_pattern project_key) (last pre) _ false)
      as [g0|] eqn:Hhere; try discriminate.
  - intros [= <- <-]. exists [], [].
    repeat split; rewrite ?app_nil_r; auto.
    intros ? ? _ Hlt. cbn in Hlt. lia.
  - intros [= <- <-]. exists [], (c :: s).
    repeat split; rewrite ?app_nil_r; auto.
    intros ? ? _ Hlt. cbn in Hlt. lia.
  - replace (S (length pre)) with (length (pre ++ [c])) by (rewrite length_app; cbn; lia).
    rewrite <- (last_snoc c pre).
    intros (skipped & rest & -> & -> & Hmatch & Hfirst)%IH.
    exists (c :: skipped), rest.
    rewrite <- app_assoc in Hmatch. cbn [app] in Hmatch.
    repeat split; auto.
    + by rewrite <- app_assoc.
    + intros skipped' rest' Hs Hlt.
      destruct skipped' as [|c' skipped'].
      * cbn [app] in Hs. subst rest'. by rewrite app_nil_r.
      * cbn [app] in Hs. injection Hs as <- Hs. cbn [length] in Hlt.
        specialize (Hfirst skipped' rest' Hs ltac:(lia)).
        by rewrite <- app_assoc in Hfirst.
Qed.

Lemma search_from_none (project_key pre s : list ascii) :
  search_from (ticket_pattern project_key) (length pre) (last pre) s = None ->
  forall skipped rest,
    s = skipped ++ rest ->
    match_items (ticket_pattern project_key) (last (pre ++ skipped)) rest false = None.
Proof.
  revert pre. induction s as [|c s IH]; intros pre; cbn [search_from];
    destruct (match_items (ticket_pattern project_key) (last pre) _ false)
      as [g0|] eqn:Hhere; try discriminate.
  - intros _ skipped rest Hs. symmetry in Hs.
    apply app_eq_nil in Hs as [-> ->]. by rewrite app_nil_r.
  - replace (S (length pre)) with (length (pre ++ [c])) by (rewrite length_app; cbn; lia).
    rewrite <- (last_snoc c pre).
    intros Hnone skipped rest Hs.
    destruct skipped as [|c' skipped].
    + cbn [app] in Hs. subst rest. by rewrite app_nil_r.
    + cbn [app] in Hs. injection Hs as <- Hs.
      specialize (IH _ Hnone skipped rest Hs).
      by rewrite <- app_assoc in IH.
Qed.



(** What the code computes meets the contract. *)
Lemma correlate_chars_meets_contract (project_key text : list ascii) :
  first_ticket_key project_key text (correlate_chars project_key text).
Proof.
  unfold correlate_chars, re_search.
  destruct (search_from (ticket_pattern project_key) 0 None text) as [[i g]|] eqn:Hsearch.
  - apply (search_from_found project_key []) in Hsearch
      as (skipped & rest & -> & -> & Hmatch & Hfirst).
    cbn [app] in *.
    apply match_at_occurrence in Hmatch as (post & -> & Hocc).
    exists skipped, g, post. repeat split; auto.
    intros pre' m' post' Ht Hocc'.
    destruct (decide (length pre' < length skipped)) as [Hlt|]; [|lia].
    specialize (Hfirst pre' (m' ++ post') Ht Hlt).
    assert (Hm : match_items (ticket_pattern project_key) (last pre') (m' ++ post') false
                 = Some m') by (apply match_at_occurrence; eauto).
    congruence.
  - intros pre m post Ht Hocc.
    pose proof (search_from_none project_key [] text Hsearch pre (m ++ post) Ht) as Hnone.
    cbn [app] in Hnone.
    assert (Hm : match_items (ticket_pattern project_key) (last pre) (m ++ post) false
                 = Some m) by (apply match_at_occurrence; eauto).
    congruence.
Qed.

(** The pull request of the specification's scenario, and a few texts that
    hold no ticket key: the key glued to a word, digits followed by a
    letter, another project. *)
Example correlate_scenario :
  correlate "PROJ" "feat: add metric (PROJ-100) feature/proj-100-metric" = Some "PROJ-100"%string
  /\ correlate "PROJ" "fix typo feature/proj-7-typo" = Some "PROJ-7"%string
  /\ correlate "PROJ" "xproj-1 proj-12a PROJ_3 OTHER-4" = None
  /\ correlate "PROJ" "proj-1 then PROJ-2" = Some "PROJ-1"%string.
Proof. by vm_compute. Qed.

End CorrelatorFacts.

(** ** The correlator on every text *)

Module PatternFacts.
Import Pattern.

Section Laws.
Variable A : Alphabet.
Hypothesis laws : lawful A.

Let digit_word : forall c, is_digit A c = true -> is_word A c = true := proj1 laws.
Let dash_only : forall d, matches A (dash A) d = true <-> d = dash A := proj2 laws.

Lemma pattern_boundary_after_digit (c : char A) (after : option (char A)) :
  is_digit A c = true -> boundary (Some c) after = negb (word_at after).
Proof.
  intros Hc. unfold boundary. cbn [word_at]. by rewrite (digit_word c Hc).
Qed.

Lemma pattern_close_group_after_digit (c : char A) (s : list (char A)) :
  is_digit A c = true ->
  close_group (Some c) s = if word_at (head s) then None else Some [].
Proof.
  intros Hc. unfold close_group. cbn [match_items].
  rewrite (pattern_boundary_after_digit c _ Hc). by destruct (word_at (head s)).
Qed.

(** No digit run starts where the next character is no word character. *)
Lemma pattern_digits_plus_no_word (g : bool) k (s : list (char A)) :
  word_at (head s) = false -> digits_plus g k s = None.
Proof.
  destruct s as [|c s]; [reflexivity|]. cbn [head word_at digits_plus].
  intros Hw. destruct (is_digit A c) eqn:Hd; [|reflexivity].
  by rewrite (digit_word c Hd) in Hw.
Qed.

(** [\d+)\b]: the digits are all the digits there are, and what follows
    them is no word character. *)
Lemma pattern_digits_plus_close (s g : list (char A)) :
  digits_plus true close_group s = Some g
  <-> exists post,
        s = g ++ post /\ g <> [] /\ Forall (fun c => is_digit A c = true) g
        /\ word_at (head post) = false.
Proof.
  revert g. induction s as [|c s IH]; intros g; cbn [digits_plus].
  - split; [discriminate|].
    intros (post & Hs & Hg & _). by destruct g.
  - destruct (is_digit A c) eqn:Hc.
    + split.
      * destruct (digits_plus true close_group s) as [g'|] eqn:Hrun.
        -- destruct (proj1 (IH g') eq_refl) as (post & -> & Hg' & Hall & Hpost).
           cbn [keep]. intros [= <-]. exists post. repeat split; auto.
        -- rewrite (pattern_close_group_after_digit c s Hc).
           destruct (word_at (head s)) eqn:Hw; [discriminate|].
           cbn. intros [= <-]. exists s. repeat split; auto.
      * intros (post & Hs & Hg & Hall & Hpost).
        destruct g as [|d g]; [done|]. cbn in Hs. injection Hs as <- ->.
        apply Forall_cons in Hall as [_ Hall].
        destruct g as [|e g].
        -- cbn [app]. rewrite pattern_digits_plus_no_word by exact Hpost.
           rewrite (pattern_close_group_after_digit c post Hc), Hpost. reflexivity.
        -- assert (Hrun : digits_plus true close_group ((e :: g) ++ post) = Some (e :: g)).
           { apply IH. exists post. repeat split; auto. }
           by rewrite Hrun.
    + split; [discriminate|].
      intros (post & Hs & Hg & Hall & _). destruct g as [|d g]; [done|].
      cbn in Hs. injection Hs as <- _. apply Forall_cons in Hall as [Hd _]. congruence.
Qed.

Lemma pattern_match_literal (c : char A) (rest : list (item A)) (before : option (char A))
    (s : list (char A)) (g : bool) :
  match_items (Literal c :: rest) before s g
  = match s with
    | d :: s' =>
        if matches A c d
        then option_map (keep g d) (match_items rest (Some d) s' g)
        else None
    | [] => None
    end.
Proof. reflexivity. Qed.

Lemma pattern_match_tail (before : option (char A)) (s g : list (char A)) :
  match_items (tail_items A) before s true = Some g
  <-> exists ds post,
        s = dash A :: ds ++ post /\ g = dash A :: ds /\ ds <> []
        /\ Forall (fun c => is_digit A c = true) ds
        /\ word_at (head post) = false.
Proof.
  unfold tail_items. rewrite pattern_match_literal.
  destruct s as [|d s].
  { split; [discriminate|]. by intros (? & ? & ? & _). }
  destruct (matches A (dash A) d) eqn:Hd.
  - apply dash_only in Hd as ->.
    change (match_items [Digits; GroupClose; WordBoundary] (Some (dash A)) s true)
      with (digits_plus true close_group s).
    destruct (digits_plus true close_group s) as [ds|] eqn:Hrun; cbn [option_map keep].
    + apply pattern_digits_plus_close in Hrun as (post & -> & Hds & Hall & Hpost). split.
      * intros [= <-]. by exists ds, post.
      * intros (ds' & post' & [= Hs] & -> & Hds' & Hall' & Hpost'). f_equal. f_equal.
        assert (Hrun : digits_plus true close_group (ds ++ post) = Some ds').
        { apply pattern_digits_plus_close. by exists post'. }
        assert (Hrun' : digits_plus true close_group (ds ++ post) = Some ds).
        { apply pattern_digits_plus_close. by exists post. }
        congruence.
    + split; [discriminate|].
      intros (ds' & post' & [= ->] & -> & Hds' & Hall' & Hpost').
      assert (Hrun' : digits_plus true close_group (ds' ++ post') = Some ds').
      { apply pattern_digits_plus_close. by exists post'. }
      congruence.
  - split; [discriminate|].
    intros (ds & post & Hs & _). injection Hs as -> _.
    by rewrite (proj2 (dash_only (dash A)) eq_refl) in Hd.
Qed.

(** [PROJECT-\d+)\b], with the group open. *)
Lemma pattern_match_key_tail (cs : list (char A)) (before : option (char A)) (s g : list (char A)) :
  match_items (map Literal cs ++ (tail_items A)) before s true = Some g
  <-> exists k ds post,
        s = k ++ dash A :: ds ++ post /\ g = k ++ dash A :: ds
        /\ Forall2 (fun c d => matches A c d = true) cs k
        /\ ds <> []
        /\ Forall (fun c => is_digit A c = true) ds
        /\ word_at (head post) = false.
Proof.
  revert before s g. induction cs as [|c cs IH]; intros before s g.
  - cbn [map app]. rewrite pattern_match_tail. split.
    + intros (ds & post & -> & -> & Hds & Hall & Hpost). exists [], ds, post.
      repeat split; auto.
    + intros (k & ds & post & -> & -> & Hk & Hds & Hall & Hpost).
      apply Forall2_nil_inv_l in Hk as ->. exists ds, post. repeat split; auto.
  - cbn [map app]. rewrite pattern_match_literal.
    destruct s as [|d s].
    { split; [discriminate|].
      intros (k & ds & post & Hs & _). by destruct k. }
    destruct (matches A c d) eqn:Hcd.
    + destruct (match_items (map Literal cs ++ (tail_items A)) (Some d) s true)
        as [g'|] eqn:Hrest; cbn [option_map keep].
      * apply IH in Hrest as (k & ds & post & -> & -> & Hk & Hds & Hall & Hpost). split.
        -- intros [= <-]. exists (d :: k), ds, post.
           repeat split; auto.
        -- intros (k' & ds' & post' & Hs & -> & Hk' & Hds' & Hall' & Hpost').
           apply Forall2_cons_inv_l in Hk' as (d' & k'' & _ & Hk'' & ->).
           cbn in Hs. injection Hs as <- Hs. cbn. do 2 f_equal.
           assert (Hm : match_items (map Literal cs ++ (tail_items A)) (Some d)
                          (k ++ dash A :: ds ++ post) true = Some (k'' ++ dash A :: ds')).
           { apply IH. exists k'', ds', post'. repeat split; auto. }
           assert (Hm' : match_items (map Literal cs ++ (tail_items A)) (Some d)
                           (k ++ dash A :: ds ++ post) true = Some (k ++ dash A :: ds)).
           { apply IH. exists k, ds, post. repeat split; auto. }
           congruence.
      * split; [discriminate|].
        intros (k' & ds' & post' & Hs & -> & Hk' & Hds' & Hall' & Hpost').
        apply Forall2_cons_inv_l in Hk' as (d' & k'' & _ & Hk'' & ->).
        cbn in Hs. injection Hs as <- ->.
        assert (Hm : match_items (map Literal cs ++ (tail_items A)) (Some d)
                       (k'' ++ dash A :: ds' ++ post') true = Some (k'' ++ dash A :: ds')).
        { apply IH. exists k'', ds', post'. repeat split; auto. }
        congruence.
    + split; [discriminate|].
      intros (k' & ds' & post' & Hs & -> & Hk' & Hds' & Hall' & Hpost').
      apply Forall2_cons_inv_l in Hk' as (d' & k'' & Hcd' & Hk'' & ->).
      cbn in Hs. injection Hs as <- _. congruence.
Qed.

Lemma pattern_ticket_pattern_unfold (project_key : list (char A)) (before : option (char A))
    (s : list (char A)) :
  match_items (ticket_pattern project_key) before s false
  = if boundary before (head s)
    then match_items (map Literal project_key ++ (tail_items A)) before s true
    else None.
Proof. reflexivity. Qed.

Lemma pattern_last_key_dash_digits (k ds : list (char A)) :
  ds <> [] -> last (k ++ dash A :: ds) = last ds.
Proof.
  intros Hds. rewrite last_app. rewrite last_cons.
  destruct (last ds) eqn:Hl; [reflexivity|]. by apply last_None in Hl.
Qed.

Lemma pattern_last_digits (ds : list (char A)) :
  ds <> [] -> Forall (fun c => is_digit A c = true) ds ->
  exists c, last ds = Some c /\ is_digit A c = true.
Proof.
  intros Hds Hall. destruct (last ds) as [c|] eqn:Hl.
  - exists c. split; [reflexivity|].
    apply last_Some_elem_of in Hl. by eapply Forall_forall in Hall.
  - by apply last_None in Hl.
Qed.

(** The matcher succeeds at a position exactly when a ticket key stands
    there, and its group is that ticket key. *)
Lemma pattern_match_at_occurrence (project_key pre s g : list (char A)) :
  match_items (ticket_pattern project_key) (last pre) s false = Some g
  <-> exists post, s = g ++ post /\ ticket_occurrence A project_key pre g post.
Proof.
  rewrite pattern_ticket_pattern_unfold. split.
  - destruct (boundary (last pre) (head s)) eqn:Hb; [|discriminate].
    intros (k & ds & post & -> & -> & Hk & Hds & Hall & Hpost)%pattern_match_key_tail.
    exists post. split; [by rewrite <- app_assoc|].
    exists k, ds. repeat split; auto.
    + assert (Hh : head (k ++ dash A :: ds ++ post) = head (k ++ dash A :: ds))
        by (by destruct k).
      by rewrite Hh in Hb.
    + rewrite pattern_last_key_dash_digits by exact Hds.
      destruct (pattern_last_digits ds Hds Hall) as (c & -> & Hc).
      rewrite (pattern_boundary_after_digit c _ Hc). by rewrite Hpost.
  - intros (post & -> & k & ds & -> & Hk & Hds & Hall & Hb1 & Hb2).
    rewrite CorrelatorFacts.head_app_nonempty by (by destruct k). rewrite Hb1.
    apply pattern_match_key_tail. exists k, ds, post.
    repeat split; auto; [by rewrite <- app_assoc|].
    rewrite pattern_last_key_dash_digits in Hb2 by exact Hds.
    destruct (pattern_last_digits ds Hds Hall) as (c & Hl & Hc). rewrite Hl in Hb2.
    rewrite (pattern_boundary_after_digit c _ Hc) in Hb2. by apply negb_true_iff in Hb2.
Qed.

(** The search stops at the first position where the matcher succeeds. *)
Lemma pattern_search_from_found (project_key pre s : list (char A)) (i : nat) (g : list (char A)) :
  search_from (ticket_pattern project_key) (length pre) (last pre) s = Some (i, g) ->
  exists skipped rest,
    s = skipped ++ rest
    /\ i = length (pre ++ skipped)
    /\ match_items (ticket_pattern project_key) (last (pre ++ skipped)) rest false = Some g
    /\ forall skipped' rest',
         s = skipped' ++ rest' -> length skipped' < length skipped ->
         match_items (ticket_pattern project_key) (last (pre ++ skipped')) rest' false
         = None.
Proof.
  revert pre. induction s as [|c s IH]; intros pre; cbn [search_from];
    destruct (match_items (ticket_pattern project_key) (last pre) _ false)
      as [g0|] eqn:Hhere; try discriminate.
  - intros [= <- <-]. exists [], [].
    repeat split; rewrite ?app_nil_r; auto.
    intros ? ? _ Hlt. cbn in Hlt. lia.
  - intros [= <- <-]. exists [], (c :: s).
    repeat split; rewrite ?app_nil_r; auto.
    intros ? ? _ Hlt. cbn in Hlt. lia.
  - replace (S (length pre)) with (length (pre ++ [c])) by (rewrite length_app; cbn; lia).
    rewrite <- (last_snoc c pre).
    intros (skipped & rest & -> & -> & Hmatch & Hfirst)%IH.
    exists (c :: skipped), rest.
    rewrite <- app_assoc in Hmatch. cbn [app] in Hmatch.
    repeat split; auto.
    + by rewrite <- app_assoc.
    + intros skipped' rest' Hs Hlt.
      destruct skipped' as [|c' skipped'].
      * cbn [app] in Hs. subst rest'. by rewrite app_nil_r.
      * cbn [app] in Hs. injection Hs as <- Hs. cbn [length] in Hlt.
        specialize (Hfirst skipped' rest' Hs ltac:(lia)).
        by rewrite <- app_assoc in Hfirst.
Qed.

Lemma pattern_search_from_none (project_key pre s : list (char A)) :
  search_from (ticket_pattern project_key) (length pre) (last pre) s = None ->
  forall skipped rest,
    s = skipped ++ rest ->
    match_items (ticket_pattern project_key) (last (pre ++ skipped)) rest false = None.
Proof.
  revert pre. induction s as [|c s IH]; intros pre; cbn [search_from];
    destruct (match_items (ticket_pattern project_key) (last pre) _ false)
      as [g0|] eqn:Hhere; try discriminate.
  - intros _ skipped rest Hs. symmetry in Hs.
    apply app_eq_nil in Hs as [-> ->]. by rewrite app_nil_r.
  - replace (S (length pre)) with (length (pre ++ [c])) by (rewrite length_app; cbn; lia).
    rewrite <- (last_snoc c pre).
    intros Hnone skipped rest Hs.
    destruct skipped as [|c' skipped].
    + cbn [app] in Hs. subst rest. by rewrite app_nil_r.
    + cbn [app] in Hs. injection Hs as <- Hs.
      specialize (IH _ Hnone skipped rest Hs).
      by rewrite <- app_assoc in IH.
Qed.

(** At one position there is at most one ticket key. *)
Lemma pattern_occurrence_unique_here (project_key pre m1 post1 m2 post2 : list (char A)) :
  m1 ++ post1 = m2 ++ post2 ->
  ticket_occurrence A project_key pre m1 post1 ->
  ticket_occurrence A project_key pre m2 post2 ->
  m1 = m2.
Proof.
  intros Hs H1 H2.
  assert (Hm1 : match_items (ticket_pattern project_key) (last pre) (m1 ++ post1) false
                = Some m1) by (apply pattern_match_at_occurrence; eauto).
  assert (Hm2 : match_items (ticket_pattern project_key) (last pre) (m1 ++ post1) false
                = Some m2) by (apply pattern_match_at_occurrence; eauto).
  congruence.
Qed.

(** The contract names one result and no other. *)
Lemma pattern_first_ticket_key_functional (project_key text : list (char A))
    (r1 r2 : option (list (char A))) :
  first_ticket_key A project_key text r1 ->
  first_ticket_key A project_key text r2 ->
  r1 = r2.
Proof.
  destruct r1 as [k1|], r2 as [k2|]; cbn [first_ticket_key]; try done.
  - intros (pre1 & m1 & post1 & Ht1 & Ho1 & -> & Hmin1)
           (pre2 & m2 & post2 & Ht2 & Ho2 & -> & Hmin2).
    pose proof (Hmin1 _ _ _ Ht2 Ho2). pose proof (Hmin2 _ _ _ Ht1 Ho1).
    rewrite Ht1 in Ht2.
    apply app_inj_1 in Ht2 as [<- Ht2]; [|lia].
    by rewrite (pattern_occurrence_unique_here _ _ _ _ _ _ Ht2 Ho1 Ho2).
  - intros (pre1 & m1 & post1 & Ht1 & Ho1 & _) Hnone. by destruct (Hnone _ _ _ Ht1).
  - intros Hnone (pre2 & m2 & post2 & Ht2 & Ho2 & _). by destruct (Hnone _ _ _ Ht2).
Qed.

(** What the code computes meets the contract. *)
Lemma pattern_correlate_meets_contract (project_key text : list (char A)) :
  first_ticket_key A project_key text (correlate A project_key text).
Proof.
  unfold correlate, re_search.
  destruct (search_from (ticket_pattern project_key) 0 None text) as [[i g]|] eqn:Hsearch.
  - apply (pattern_search_from_found project_key []) in Hsearch
      as (skipped & rest & -> & -> & Hmatch & Hfirst).
    cbn [app] in *.
    apply pattern_match_at_occurrence in Hmatch as (post & -> & Hocc).
    exists skipped, g, post. repeat split; auto.
    intros pre' m' post' Ht Hocc'.
    destruct (decide (length pre' < length skipped)) as [Hlt|]; [|lia].
    specialize (Hfirst pre' (m' ++ post') Ht Hlt).
    assert (Hm : match_items (ticket_pattern project_key) (last pre') (m' ++ post') false
                 = Some m') by (apply pattern_match_at_occurrence; eauto).
    congruence.
  - intros pre m post Ht Hocc.
    pose proof (pattern_search_from_none project_key [] text Hsearch pre (m ++ post) Ht) as Hnone.
    cbn [app] in Hnone.
    assert (Hm : match_items (ticket_pattern project_key) (last pre) (m ++ post) false
                 = Some m) by (apply pattern_match_at_occurrence; eauto).
    congruence.
Qed.

End Laws.

Lemma ascii_alphabet_lawful : lawful ascii_alphabet.
Proof.
  split.
  - apply CorrelatorFacts.digit_is_word.
  - intros d. split; [apply CorrelatorFacts.eqb_nocase_dash|by intros ->].
Qed.

Lemma ascii_to_upper_to_lower (c : ascii) :
  Correlator.to_upper (Correlator.to_lower c) = Correlator.to_upper c.
Proof. destruct c as [[] [] [] [] [] [] [] []]; reflexivity. Qed.

Lemma ascii_to_lower_to_upper (c : ascii) :
  Correlator.to_lower (Correlator.to_upper c) = Correlator.to_lower c.
Proof. destruct c as [[] [] [] [] [] [] [] []]; reflexivity. Qed.

Lemma ascii_is_digit_listed (c : ascii) :
  Correlator.is_digit c = existsb (Ascii.eqb c) ascii_digits.
Proof. destruct c as [[] [] [] [] [] [] [] []]; reflexivity. Qed.

Lemma ascii_is_word_listed (c : ascii) :
  Correlator.is_word c
  = existsb (Ascii.eqb c) (ascii_digits ++ ascii_small ++ ascii_capital ++ ["_"%char]).
Proof. destruct c as [[] [] [] [] [] [] [] []]; reflexivity. Qed.

Lemma ascii_to_upper_other (c : ascii) :
  existsb (Ascii.eqb c) ascii_small = false -> Correlator.to_upper c = c.
Proof. destruct c as [[] [] [] [] [] [] [] []]; vm_compute; congruence. Qed.

Lemma existsb_eqb_In (c : ascii) (l : list ascii) :
  existsb (Ascii.eqb c) l = true <-> In c l.
Proof.
  rewrite existsb_exists. split.
  - by intros (d & Hin & ->%Ascii.eqb_eq).
  - intros Hin. exists c. split; [exact Hin|apply Ascii.eqb_refl].
Qed.

Lemma ascii_alphabet_plain : plain_ascii ascii_alphabet (fun c => c).
Proof.
  unfold plain_ascii. cbn [is_digit is_word upper matches dash ascii_alphabet].
  split; [intros c; by rewrite ascii_is_digit_listed, existsb_eqb_In|].
  split; [intros c; by rewrite ascii_is_word_listed, existsb_eqb_In|].
  split; [reflexivity|].
  split.
  { intros c Hc. cbn [Correlator.upper map]. f_equal.
    apply ascii_to_upper_other. apply not_true_is_false.
    intros Hin%existsb_eqb_In. by apply Hc. }
  split; [intros s t; apply map_app|].
  split; [|reflexivity].
  intros c d. unfold Correlator.eqb_nocase. rewrite Ascii.eqb_eq.
  cbn [Correlator.upper map]. split.
  - intros Heq. f_equal.
    by rewrite <- (ascii_to_upper_to_lower c), Heq, ascii_to_upper_to_lower.
  - intros [= Heq].
    by rewrite <- (ascii_to_lower_to_upper c), Heq, ascii_to_lower_to_upper.
Qed.

(** The correlator of the poll loop is the search on the ASCII alphabet. *)
Lemma ascii_digits_plus (g : bool)
    (k k' : option ascii -> list ascii -> option (list ascii)) (s : list ascii) :
  (forall before s', k before s' = k' before s') ->
  Correlator.digits_plus g k s = digits_plus (A := ascii_alphabet) g k' s.
Proof.
  intros Hk. induction s as [|c s IH]; [reflexivity|].
  cbn [Correlator.digits_plus digits_plus]. rewrite IH, Hk. reflexivity.
Qed.

Lemma ascii_match_items (items : list Correlator.item) (before : option ascii)
    (s : list ascii) (g : bool) :
  Correlator.match_items items before s g
  = match_items (A := ascii_alphabet) (map ascii_item items) before s g.
Proof.
  revert before s g. induction items as [|[| | |c|] items IH]; intros before s g;
    cbn [map ascii_item Correlator.match_items match_items]; try by rewrite ?IH.
  - destruct s as [|d s]; [reflexivity|]. by rewrite IH.
  - apply ascii_digits_plus. intros before' s'. apply IH.
Qed.

Lemma ascii_search_from (items : list Correlator.item) (pos : nat)
    (before : option ascii) (s : list ascii) :
  Correlator.search_from items pos before s
  = search_from (A := ascii_alphabet) (map ascii_item items) pos before s.
Proof.
  revert pos before. induction s as [|c s IH]; intros pos before;
    cbn [Correlator.search_from search_from]; rewrite ascii_match_items;
    destruct (match_items _ _ _ _); try reflexivity.
  apply IH.
Qed.

Lemma ascii_correlate (project_key text : list ascii) :
  Correlator.correlate_chars project_key text
  = correlate ascii_alphabet project_key text.
Proof.
  unfold Correlator.correlate_chars, correlate, Correlator.re_search, re_search.
  rewrite ascii_search_from.
  replace (map ascii_item (Correlator.ticket_pattern project_key))
    with (ticket_pattern (A := ascii_alphabet) project_key); [reflexivity|].
  unfold Correlator.ticket_pattern, ticket_pattern.
  rewrite !map_app, map_map. reflexivity.
Qed.

(** C9.  On every text the correlator returns the result the contract
    describes and no other: the leftmost piece of the text that reads as
    the project key without regard to case, a dash and digits, between
    word boundaries, in upper case, and nothing when the text has no such
    piece.  The contract names one result for a project key and a text, so
    the same input always yields the same result.  This holds whatever
    characters the text is made of, [\d], [\w], the matching without
    regard to case and [str.upper] being Python's own.  The correlator of
    the poll loop is this search on the ASCII alphabet, on which the
    digits, the word characters, the upper case and the matching without
    regard to case are the ones of ASCII. *)
Theorem correlator_contract :
  (forall (A : Alphabet) (project_key text : list (char A))
          (r : option (list (char A))),
     lawful A ->
     (correlate A project_key text = r <-> first_ticket_key A project_key text r))
  /\ lawful ascii_alphabet
  /\ plain_ascii ascii_alphabet (fun c => c)
  /\ (forall project_key text : string,
        Correlator.correlate project_key text
        = option_map string_of_list_ascii
            (correlate ascii_alphabet (list_ascii_of_string project_key)
               (list_ascii_of_string text))).
Proof.
  split; [|split; [exact ascii_alphabet_lawful|split; [exact ascii_alphabet_plain|]]].
  2: { intros project_key text. unfold Correlator.correlate.
       by rewrite ascii_correlate. }
  intros A project_key text r Hlaws. split.
  - intros <-. by apply pattern_correlate_meets_contract.
  - intros Hr. symmetry.
    apply (pattern_first_ticket_key_functional A Hlaws project_key text); [exact Hr|].
    by apply pattern_correlate_meets_contract.
Qed.

Lemma correlator_contract_witness :
  first_ticket_key ascii_alphabet
    (list_ascii_of_string "PROJ") (list_ascii_of_string "fix typo feature/proj-7-typo")
    (Some (list_ascii_of_string "PROJ-7")).
Proof.
  apply (proj1 (proj1 correlator_contract ascii_alphabet _ _ _
                  (proj1 (proj2 correlator_contract)))).
  reflexivity.
Defined.

End PatternFacts.

(** ** The poll loop *)

Module WatchFacts.
Import Py Watch Samples.

Lemma count_events_app (p : event -> bool) (l1 l2 : list event) :
  count_events p (l1 ++ l2) = count_events p l1 + count_events p l2.
Proof. unfold count_events. by rewrite List.filter_app, length_app. Qed.

Lemma for_each_cons {A : Type} (body : A -> M unit) (x : A) (l : list A) (st : State) :
  for_each body (x :: l) st
  = match body x st with
    | (Returned _, st') => for_each body l st'
    | (Raised e, st') => (Raised e, st')
    end.
Proof. reflexivity. Qed.

Lemma for_each_app {A : Type} (body : A -> M unit) (l1 l2 : list A) (st : State) :
  for_each body (l1 ++ l2) st
  = match for_each body l1 st with
    | (Returned _, st') => for_each body l2 st'
    | (Raised e, st') => (Raised e, st')
    end.
Proof.
  revert st. induction l1 as [|x l1 IH]; intros st; [reflexivity|].
  cbn [app]. rewrite !for_each_cons.
  destruct (body x st) as [[[]|e] st']; [apply IH|reflexivity].
Qed.

(** The four ways through the body of the ticket loop. *)
Lemma process_ticket_skip (env : Env) (ticket : Ticket) (st : State) :
  key ticket ∈ processing_tickets st ->
  process_ticket env ticket st = (Returned tt, st).
Proof.
  intros Hin. unfold process_ticket, bind, get.
  by rewrite bool_decide_eq_true_2.
Qed.

Lemma process_ticket_raised (env : Env) (ticket : Ticket) (st : State) (e : string) :
  key ticket ∉ processing_tickets st ->
  process_single_ticket env (calls st) (key ticket) = Raised e ->
  process_ticket env ticket st
  = (Raised e,
     {| processed_prs := processed_prs st;
        processing_tickets := {[key ticket]} ∪ processing_tickets st;
        calls := S (calls st);
        trace := trace st ++ [EvPrint (FoundTicket (key ticket));
                              EvPrint (Processing (key ticket));
                              EvProcess (key ticket) (Raised e)] |}).
Proof.
  intros Hnotin Hcall. unfold process_ticket, bind, get.
  rewrite bool_decide_eq_false_2 by done.
  unfold print, record, processing_add, agent_call. cbn.
  rewrite Hcall. by rewrite <- !app_assoc.
Qed.

Lemma process_ticket_completed (env : Env) (ticket : Ticket) (st : State)
    (result : dict value) :
  key ticket ∉ processing_tickets st ->
  process_single_ticket env (calls st) (key ticket) = Returned result ->
  eq_str (result_get "status" result) "completed" = true ->
  process_ticket env ticket st
  = (Returned tt,
     {| processed_prs := processed_prs st;
        processing_tickets := {[key ticket]} ∪ processing_tickets st;
        calls := S (calls st);
        trace := trace st ++ [EvPrint (FoundTicket (key ticket));
                              EvPrint (Processing (key ticket));
                              EvProcess (key ticket) (Returned result);
                              EvPrint (PRCreated (key ticket)
                                         (result_get_or "pr_url" "N/A" result))] |}).
Proof.
  intros Hnotin Hcall Hstatus. unfold process_ticket, bind, get.
  rewrite bool_decide_eq_false_2 by done.
  unfold print, record, processing_add, agent_call. cbn.
  rewrite Hcall, Hstatus. cbn. by rewrite <- !app_assoc.
Qed.

Lemma process_ticket_not_completed (env : Env) (ticket : Ticket) (st : State)
    (result : dict value) :
  key ticket ∉ processing_tickets st ->
  process_single_ticket env (calls st) (key ticket) = Returned result ->
  eq_str (result_get "status" result) "completed" = false ->
  process_ticket env ticket st
  = (Returned tt,
     {| processed_prs := processed_prs st;
        processing_tickets := ({[key ticket]} ∪ processing_tickets st) ∖ {[key ticket]};
        calls := S (calls st);
        trace := trace st ++ [EvPrint (FoundTicket (key ticket));
                              EvPrint (Processing (key ticket));
                              EvProcess (key ticket) (Returned result);
                              EvPrint (if eq_str (result_get "status" result) "skipped"
                                       then Skipped (key ticket)
                                              (result_get_or "reason" "N/A" result)
                                       else Failed (key ticket)
                                              (result_get_or "error" "Unknown error" result))] |}).
Proof.
  intros Hnotin Hcall Hstatus. unfold process_ticket, bind, get.
  rewrite bool_decide_eq_false_2 by done.
  unfold print, record, processing_add, agent_call, processing_discard. cbn.
  rewrite Hcall, Hstatus. cbn.
  destruct (eq_str (result_get "status" result) "skipped"); cbn;
    by rewrite <- !app_assoc.
Qed.


Lemma count_process_step (k k' : string) (tr : list event) (a : outcome (dict value))
    (m : message) :
  count_events (is_process_of k)
    (tr ++ [EvPrint (FoundTicket k'); EvPrint (Processing k'); EvProcess k' a; EvPrint m])
  = count_events (is_process_of k) tr + (if String.eqb k' k then 1 else 0).
Proof.
  rewrite count_events_app. f_equal. unfold count_events. cbn.
  by destruct (String.eqb k' k).
Qed.

Lemma count_process_step_raised (k k' : string) (tr : list event)
    (a : outcome (dict value)) :
  count_events (is_process_of k)
    (tr ++ [EvPrint (FoundTicket k'); EvPrint (Processing k'); EvProcess k' a])
  = count_events (is_process_of k) tr + (if String.eqb k' k then 1 else 0).
Proof.
  rewrite count_events_app. f_equal. unfold count_events. cbn.
  by destruct (String.eqb k' k).
Qed.

(** A ticket key that is in [processing_tickets] stays there through the
    handling of any ticket, and the agent is not asked to process it. *)
Lemma process_ticket_keeps (env : Env) (ticket : Ticket) (st : State) (k : string) :
  k ∈ processing_tickets st ->
  k ∈ processing_tickets (snd (process_ticket env ticket st))
  /\ count_events (is_process_of k) (trace (snd (process_ticket env ticket st)))
     = count_events (is_process_of k) (trace st).
Proof.
  intros Hk.
  destruct (decide (key ticket ∈ processing_tickets st)) as [Hin|Hnotin].
  { by rewrite process_ticket_skip. }
  assert (Hne : String.eqb (key ticket) k = false).
  { apply String.eqb_neq. intros Heq. apply Hnotin. by rewrite Heq. }
  assert (Hne' : key ticket <> k) by (by apply String.eqb_neq).
  destruct (process_single_ticket env (calls st) (key ticket)) as [result|e] eqn:Hcall.
  - destruct (eq_str (result_get "status" result) "completed") eqn:Hstatus.
    + rewrite (process_ticket_completed _ _ _ _ Hnotin Hcall Hstatus).
      cbn [snd trace processing_tickets].
      rewrite count_process_step, Hne. split; [set_solver|lia].
    + rewrite (process_ticket_not_completed _ _ _ _ Hnotin Hcall Hstatus).
      cbn [snd trace processing_tickets].
      rewrite count_process_step, Hne. split; [set_solver|lia].
  - rewrite (process_ticket_raised _ _ _ _ Hnotin Hcall).
    cbn [snd trace processing_tickets].
    rewrite count_process_step_raised, Hne. split; [set_solver|lia].
Qed.

Lemma ticket_loop_keeps (env : Env) (tickets : list Ticket) (st : State) (k : string) :
  k ∈ processing_tickets st ->
  k ∈ processing_tickets (snd (for_each (process_ticket env) tickets st))
  /\ count_events (is_process_of k)
       (trace (snd (for_each (process_ticket env) tickets st)))
     = count_events (is_process_of k) (trace st).
Proof.
  revert st. induction tickets as [|ticket tickets IH]; intros st Hk; [done|].
  rewrite for_each_cons.
  destruct (process_ticket_keeps env ticket st k Hk) as [Hk' Hcount].
  destruct (process_ticket env ticket st) as [[[]|e] st']; cbn [snd] in *.
  - destruct (IH st' Hk') as [Hk'' Hcount']. split; [done|congruence].
  - done.
Qed.

(** C3.  While a ticket key is in [processing_tickets], the ticket loop
    does not ask the agent to process it, however often the ticket is
    returned, and the key stays in the set.  For a ticket whose key is not
    in the set the agent is asked once; after a [completed] result the key
    is in the set, and after any other result ([skipped], or a failure) it
    is not. *)
Theorem trigger_detection_dedup (env : Env) :
  (forall tickets st k,
     k ∈ processing_tickets st ->
     k ∈ processing_tickets (snd (for_each (process_ticket env) tickets st))
     /\ count_events (is_process_of k)
          (trace (snd (for_each (process_ticket env) tickets st)))
        = count_events (is_process_of k) (trace st))
  /\ (forall ticket st,
        key ticket ∈ processing_tickets st ->
        process_ticket env ticket st = (Returned tt, st))
  /\ (forall ticket st result,
        key ticket ∉ processing_tickets st ->
        process_single_ticket env (calls st) (key ticket) = Returned result ->
        fst (process_ticket env ticket st) = Returned tt
        /\ count_events (is_process_of (key ticket))
             (trace (snd (process_ticket env ticket st)))
           = S (count_events (is_process_of (key ticket)) (trace st))
        /\ (eq_str (result_get "status" result) "completed" = true ->
            key ticket ∈ processing_tickets (snd (process_ticket env ticket st)))
        /\ (eq_str (result_get "status" result) "completed" = false ->
            key ticket ∉ processing_tickets (snd (process_ticket env ticket st)))).
Proof.
  split; [|split].
  - intros tickets st k. apply ticket_loop_keeps.
  - intros ticket st. apply process_ticket_skip.
  - intros ticket st result Hnotin Hcall.
    destruct (eq_str (result_get "status" result) "completed") eqn:Hstatus.
    + rewrite (process_ticket_completed _ _ _ _ Hnotin Hcall Hstatus).
      cbn [fst snd trace processing_tickets].
      rewrite count_process_step, String.eqb_refl.
      split; [reflexivity|]. split; [lia|]. split; [intros _|discriminate].
      apply elem_of_union_l. by apply elem_of_singleton.
    + rewrite (process_ticket_not_completed _ _ _ _ Hnotin Hcall Hstatus).
      cbn [fst snd trace processing_tickets].
      rewrite count_process_step, String.eqb_refl.
      split; [reflexivity|]. split; [lia|]. split; [discriminate|intros _].
      intros [_ Hout]%elem_of_difference. apply Hout. by apply elem_of_singleton.
Qed.

(** *** The pull-request loop *)

Lemma handle_pr_unmerged (env : Env) (cfg : Config) (pr : PullRequest) (st : State) :
  truthy (merged_at pr) = false ->
  handle_pr env cfg pr st = (Returned tt, st).
Proof.
  intros Hm. unfold handle_pr, bind, get. by rewrite Hm.
Qed.

Lemma handle_pr_cached (env : Env) (cfg : Config) (pr : PullRequest) (st : State) :
  number pr ∈ processed_prs st ->
  handle_pr env cfg pr st = (Returned tt, st).
Proof.
  intros Hin. unfold handle_pr, bind, get.
  rewrite (bool_decide_eq_true_2 _ Hin). by rewrite orb_true_r.
Qed.

Lemma handle_pr_no_key (env : Env) (cfg : Config) (pr : PullRequest) (st : State) :
  truthy (merged_at pr) = true ->
  number pr ∉ processed_prs st ->
  correlated cfg pr = None ->
  handle_pr env cfg pr st
  = (Returned tt,
     {| processed_prs := {[number pr]} ∪ processed_prs st;
        processing_tickets := processing_tickets st;
        calls := calls st;
        trace := trace st |}).
Proof.
  intros Hm Hnotin Hnone. unfold handle_pr, bind, get.
  rewrite Hm, (bool_decide_eq_false_2 _ Hnotin), Hnone. reflexivity.
Qed.

Lemma handle_pr_raised (env : Env) (cfg : Config) (pr : PullRequest) (st : State)
    (k e : string) :
  truthy (merged_at pr) = true ->
  number pr ∉ processed_prs st ->
  correlated cfg pr = Some k ->
  transition_ticket_to_done env (calls st) k = Raised e ->
  handle_pr env cfg pr st
  = (Raised e,
     {| processed_prs := processed_prs st;
        processing_tickets := processing_tickets st;
        calls := S (calls st);
        trace := trace st ++ [EvPrint (Merged (number pr) k);
                              EvTransition (number pr) k (Raised e)] |}).
Proof.
  intros Hm Hnotin Hkey Hcall. unfold handle_pr, bind, get.
  rewrite Hm, (bool_decide_eq_false_2 _ Hnotin), Hkey.
  unfold print, record, agent_call. cbn. rewrite Hcall. by rewrite <- !app_assoc.
Qed.

Lemma handle_pr_returned (env : Env) (cfg : Config) (pr : PullRequest) (st : State)
    (k : string) (result : dict value) :
  truthy (merged_at pr) = true ->
  number pr ∉ processed_prs st ->
  correlated cfg pr = Some k ->
  transition_ticket_to_done env (calls st) k = Returned result ->
  handle_pr env cfg pr st
  = (Returned tt,
     {| processed_prs := {[number pr]} ∪ processed_prs st;
        processing_tickets :=
          if truthy (result_get "success" result)
          then processing_tickets st ∖ {[k]}
          else processing_tickets st;
        calls := S (calls st);
        trace := trace st ++ [EvPrint (Merged (number pr) k);
                              EvTransition (number pr) k (Returned result);
                              EvPrint (if truthy (result_get "success" result)
                                       then Transitioned k
                                              (result_get_or "transition" "Done" result)
                                       else TransitionFailed k
                                              (result_get "error" result))] |}).
Proof.
  intros Hm Hnotin Hkey Hcall. unfold handle_pr, bind, get.
  rewrite Hm, (bool_decide_eq_false_2 _ Hnotin), Hkey.
  unfold print, record, agent_call, processing_discard, processed_add. cbn.
  rewrite Hcall.
  destruct (truthy (result_get "success" result)); cbn; by rewrite <- !app_assoc.
Qed.

(** C5.  A closed pull request without a merge time stamp is passed over:
    no transition is attempted and nothing is cached, so the state after it
    is the state before it and the next poll looks at it again; a loop over
    such pull requests alone changes nothing.  A merged pull request whose
    text holds no ticket key is cached in [processed_prs], and no
    transition is attempted for it either. *)
Theorem unmerged_pr_never_cached (env : Env) (cfg : Config) :
  (forall pr st,
     truthy (merged_at pr) = false ->
     handle_pr env cfg pr st = (Returned tt, st))
  /\ (forall prs st,
        Forall (fun pr => truthy (merged_at pr) = false) prs ->
        for_each (handle_pr env cfg) prs st = (Returned tt, st))
  /\ (forall pr st,
        truthy (merged_at pr) = true ->
        number pr ∉ processed_prs st ->
        correlated cfg pr = None ->
        fst (handle_pr env cfg pr st) = Returned tt
        /\ number pr ∈ processed_prs (snd (handle_pr env cfg pr st))
        /\ trace (snd (handle_pr env cfg pr st)) = trace st).
Proof.
  split; [|split].
  - intros pr st. apply handle_pr_unmerged.
  - intros prs st Hall. revert st.
    induction Hall as [|pr prs Hpr _ IH]; intros st; [reflexivity|].
    rewrite for_each_cons, (handle_pr_unmerged env cfg pr st Hpr). apply IH.
  - intros pr st Hm Hnotin Hnone.
    rewrite (handle_pr_no_key env cfg pr st Hm Hnotin Hnone).
    cbn [fst snd processed_prs trace]. split; [reflexivity|]. split; [|reflexivity].
    set_solver.
Qed.

(** *** What holds after any number of turns *)

(** Code put together from pieces that keep a property keeps it. *)
Section Keeps.
Variable Inv : State -> Prop.

Lemma keeps_ret {A : Type} (a : A) : keeps Inv (ret a).
Proof. by intros st. Qed.

Lemma keeps_bind {A B : Type} (c : M A) (k : A -> M B) :
  keeps Inv c -> (forall a, keeps Inv (k a)) -> keeps Inv (bind c k).
Proof.
  intros Hc Hk st Hst. unfold bind. specialize (Hc st Hst).
  destruct (c st) as [[a|e] st']; cbn [snd] in *; [by apply Hk|done].
Qed.

Lemma keeps_for_each {A : Type} (body : A -> M unit) (l : list A) :
  (forall x, keeps Inv (body x)) -> keeps Inv (for_each body l).
Proof.
  intros Hbody. induction l as [|x l IH]; [apply keeps_ret|].
  cbn [for_each]. apply keeps_bind; [apply Hbody|by intros _].
Qed.

Lemma keeps_handle_watch (env : Env) (cfg : Config) (n : nat) (st : State) :
  (forall st, Inv st -> Inv (tick env cfg st)) ->
  Inv st -> Inv (handle_watch env cfg n st).
Proof.
  intros Htick. revert st. induction n as [|n IH]; intros st Hst; [done|].
  cbn [handle_watch]. by apply IH, Htick.
Qed.

End Keeps.

Lemma returned_once_call {A : Type} (n : Z) (answer : nat -> outcome A) :
  keeps (returned_once n) (call answer).
Proof. by intros st. Qed.

Lemma returned_once_process_ticket (n : Z) (env : Env) (ticket : Ticket) :
  keeps (returned_once n) (process_ticket env ticket).
Proof.
  intros st Hst. unfold returned_once in *.
  destruct (decide (key ticket ∈ processing_tickets st)) as [Hin|Hnotin].
  { by rewrite process_ticket_skip. }
  destruct (process_single_ticket env (calls st) (key ticket)) as [result|e] eqn:Hcall.
  - destruct (eq_str (result_get "status" result) "completed") eqn:Hstatus.
    + rewrite (process_ticket_completed _ _ _ _ Hnotin Hcall Hstatus).
      cbn [snd trace processed_prs]. rewrite count_events_app. cbn. lia.
    + rewrite (process_ticket_not_completed _ _ _ _ Hnotin Hcall Hstatus).
      cbn [snd trace processed_prs]. rewrite count_events_app. cbn. lia.
  - rewrite (process_ticket_raised _ _ _ _ Hnotin Hcall).
    cbn [snd trace processed_prs]. rewrite count_events_app. cbn. lia.
Qed.

Lemma returned_once_handle_pr (n : Z) (env : Env) (cfg : Config) (pr : PullRequest) :
  keeps (returned_once n) (handle_pr env cfg pr).
Proof.
  intros st Hst. unfold returned_once in *.
  destruct (truthy (merged_at pr)) eqn:Hm; [|by rewrite handle_pr_unmerged].
  destruct (decide (number pr ∈ processed_prs st)) as [Hin|Hnotin].
  { by rewrite handle_pr_cached. }
  destruct (correlated cfg pr) as [k|] eqn:Hkey.
  - destruct (transition_ticket_to_done env (calls st) k) as [result|e] eqn:Hcall.
    + rewrite (handle_pr_returned _ _ _ _ _ _ Hm Hnotin Hkey Hcall).
      cbn [snd trace processed_prs]. rewrite count_events_app.
      unfold count_events at 2. cbn.
      destruct (Z.eqb_spec (number pr) n) as [Heq|Hne].
      * rewrite Heq in Hnotin. rewrite (bool_decide_eq_false_2 _ Hnotin) in Hst.
        rewrite bool_decide_eq_true_2 by set_solver. cbn. lia.
      * cbn. repeat case_bool_decide; try lia. set_solver.
    + rewrite (handle_pr_raised _ _ _ _ _ _ Hm Hnotin Hkey Hcall).
      cbn [snd trace processed_prs]. rewrite count_events_app. cbn. lia.
  - rewrite (handle_pr_no_key _ _ _ _ Hm Hnotin Hkey).
    cbn [snd trace processed_prs]. repeat case_bool_decide; try lia. set_solver.
Qed.

Lemma returned_once_tick (n : Z) (env : Env) (cfg : Config) (st : State) :
  returned_once n st -> returned_once n (tick env cfg st).
Proof.
  intros Hst. unfold tick.
  assert (Hpoll : keeps (returned_once n) (poll env cfg)).
  { unfold poll, poll_jira, poll_github.
    repeat (apply keeps_bind; [|intros ?]);
      auto using returned_once_call, returned_once_process_ticket,
        returned_once_handle_pr, keeps_for_each. }
  specialize (Hpoll st Hst).
  destruct (poll env cfg st) as [[[]|e] st']; cbn [snd] in *; [done|].
  unfold returned_once, print, record in *. cbn [snd trace processed_prs].
  rewrite count_events_app. cbn. lia.
Qed.

(** C4 (as amended).  For a merged pull request that is not cached and
    whose text holds the ticket key [k], a transition attempt that returns
    is the only one made for it in that step; the pull request is then
    cached, whether the attempt succeeded or failed.  After a success [k]
    is not in [processing_tickets]; after a failure [processing_tickets]
    is as it was.  Over any number of turns of the loop, at most one
    transition attempt returns for a given pull request. *)
Theorem merge_transition_once (env : Env) (cfg : Config) :
  (forall pr st k result,
     truthy (merged_at pr) = true ->
     number pr ∉ processed_prs st ->
     correlated cfg pr = Some k ->
     transition_ticket_to_done env (calls st) k = Returned result ->
     fst (handle_pr env cfg pr st) = Returned tt
     /\ count_events is_transition (trace (snd (handle_pr env cfg pr st)))
        = S (count_events is_transition (trace st))
     /\ number pr ∈ processed_prs (snd (handle_pr env cfg pr st))
     /\ (truthy (result_get "success" result) = true ->
         k ∉ processing_tickets (snd (handle_pr env cfg pr st)))
     /\ (truthy (result_get "success" result) = false ->
         processing_tickets (snd (handle_pr env cfg pr st)) = processing_tickets st))
  /\ (forall n turns,
        count_events (is_returned_transition_of n)
          (trace (handle_watch env cfg turns initial)) <= 1).
Proof.
  split.
  - intros pr st k result Hm Hnotin Hkey Hcall.
    rewrite (handle_pr_returned _ _ _ _ _ _ Hm Hnotin Hkey Hcall).
    cbn [fst snd trace processed_prs processing_tickets].
    split; [reflexivity|]. split.
    { rewrite count_events_app. unfold count_events at 2. cbn. lia. }
    split; [set_solver|].
    split; intros Hsuccess; rewrite Hsuccess; [|reflexivity].
    intros [_ Hout]%elem_of_difference. apply Hout. by apply elem_of_singleton.
  - intros n turns.
    assert (Hinv : returned_once n (handle_watch env cfg turns initial)).
    { apply keeps_handle_watch; [apply returned_once_tick|].
      unfold returned_once. cbn. lia. }
    unfold returned_once in Hinv. case_bool_decide; lia.
Qed.

(** *** Exceptions *)

(** C6 (as amended).  An error thrown by the agent while it processes a
    ticket is caught at the end of the turn: it is printed, the loop goes
    on with its next turn, but the turn itself ends there, so the tickets
    after that one and the pull-request stage wait for the next turn (and
    the ticket key stays in [processing_tickets]).  A result that is
    returned, failures included, does not end the turn: the loop goes on
    with the next ticket. *)
Theorem thrown_error_ends_turn (env : Env) (cfg : Config) :
  (forall st st1 pre ticket rest e,
     jira_open env (calls st) = Returned tt ->
     search_issues env (S (calls st)) = Returned (pre ++ ticket :: rest) ->
     for_each (process_ticket env) pre
       {| processed_prs := processed_prs st;
          processing_tickets := processing_tickets st;
          calls := S (S (calls st));
          trace := trace st |} = (Returned tt, st1) ->
     key ticket ∉ processing_tickets st1 ->
     process_single_ticket env (calls st1) (key ticket) = Raised e ->
     tick env cfg st
     = {| processed_prs := processed_prs st1;
          processing_tickets := {[key ticket]} ∪ processing_tickets st1;
          calls := S (calls st1);
          trace := trace st1 ++ [EvPrint (FoundTicket (key ticket));
                                 EvPrint (Processing (key ticket));
                                 EvProcess (key ticket) (Raised e);
                                 EvPrint (PollError e)] |})
  /\ (forall st ticket rest result,
        key ticket ∉ processing_tickets st ->
        process_single_ticket env (calls st) (key ticket) = Returned result ->
        for_each (process_ticket env) (ticket :: rest) st
        = for_each (process_ticket env) rest (snd (process_ticket env ticket st)))
  /\ (forall n st,
        handle_watch env cfg (S n) st = handle_watch env cfg n (tick env cfg st)).
Proof.
  split; [|split; [|reflexivity]].
  - intros st st1 pre ticket rest e Hopen Hsearch Hpre Hnotin Hraise.
    unfold tick, poll, poll_jira, bind, call. rewrite Hopen. cbn [calls].
    rewrite Hsearch. cbn [processed_prs processing_tickets calls trace].
    rewrite for_each_app, Hpre, for_each_cons.
    rewrite (process_ticket_raised env ticket st1 e Hnotin Hraise).
    unfold print, record. cbn. by rewrite <- app_assoc.
  - intros st ticket rest result Hnotin Hcall. rewrite for_each_cons.
    destruct (eq_str (result_get "status" result) "completed") eqn:Hstatus.
    + by rewrite (process_ticket_completed _ _ _ _ Hnotin Hcall Hstatus).
    + by rewrite (process_ticket_not_completed _ _ _ _ Hnotin Hcall Hstatus).
Qed.

(** *** The sample runs *)

Lemma trigger_detection_dedup_witness :
  "PROJ-100"%string
    ∈ processing_tickets (snd (process_ticket env_ok (mkTicket "PROJ-100") initial))
  /\ "PROJ-100"%string
       ∉ processing_tickets
           (snd (process_ticket env_process_fails (mkTicket "PROJ-100") initial)).
Proof.
  split.
  - refine (proj1 (proj2 (proj2 (proj2 (proj2 (trigger_detection_dedup env_ok))
              (mkTicket "PROJ-100") initial completed _ _))) _);
      [set_solver|reflexivity|reflexivity].
  - refine (proj2 (proj2 (proj2 (proj2 (proj2 (trigger_detection_dedup env_process_fails))
              (mkTicket "PROJ-100") initial failed _ _))) _);
      [set_solver|reflexivity|reflexivity].
Defined.

Lemma merge_transition_once_witness :
  5%Z ∈ processed_prs (snd (handle_pr env_ok cfg0 pr5 initial))
  /\ "PROJ-100"%string ∉ processing_tickets (snd (handle_pr env_ok cfg0 pr5 initial)).
Proof.
  assert (H : truthy (merged_at pr5) = true
              /\ (number pr5 ∉ processed_prs initial)
              /\ correlated cfg0 pr5 = Some "PROJ-100"%string
              /\ transition_ticket_to_done env_ok (calls initial) "PROJ-100"
                 = Returned transition_ok).
  { split; [reflexivity|]. split; [set_solver|]. split; [by vm_compute|reflexivity]. }
  destruct H as (Hm & Hnotin & Hkey & Hcall).
  destruct (proj1 (merge_transition_once env_ok cfg0) pr5 initial "PROJ-100"%string
              transition_ok Hm Hnotin Hkey Hcall)
    as (_ & _ & Hcached & Hgone & _).
  split; [exact Hcached|]. apply Hgone. reflexivity.
Defined.

Lemma unmerged_pr_never_cached_witness :
  handle_pr env_ok cfg0 pr7 initial = (Returned tt, initial)
  /\ 8%Z ∈ processed_prs (snd (handle_pr env_ok cfg0 pr8 initial)).
Proof.
  split.
  - apply (proj1 (unmerged_pr_never_cached env_ok cfg0)). reflexivity.
  - refine (proj1 (proj2 (proj2 (proj2 (unmerged_pr_never_cached env_ok cfg0))
              pr8 initial _ _ _)));
      [reflexivity|set_solver|by vm_compute].
Defined.

Lemma thrown_error_ends_turn_witness :
  tick env_process_raises cfg0 initial
  = {| processed_prs := ∅;
       processing_tickets := {["PROJ-100"%string]} ∪ ∅;
       calls := 3;
       trace := [EvPrint (FoundTicket "PROJ-100");
                 EvPrint (Processing "PROJ-100");
                 EvProcess "PROJ-100" (Raised "boom");
                 EvPrint (PollError "boom")] |}.
Proof.
  refine (proj1 (thrown_error_ends_turn env_process_raises cfg0) initial
            {| processed_prs := ∅; processing_tickets := ∅; calls := 2; trace := [] |}
            [] (mkTicket "PROJ-100") [mkTicket "PROJ-101"] "boom" _ _ _ _ _);
    [reflexivity|reflexivity|reflexivity|apply not_elem_of_empty|reflexivity].
Defined.

(** C4, as stated, fails: when the transition is refused the ticket key is
    still in [processing_tickets] after the attempt (the pull request is
    cached all the same). *)
Lemma refused_transition_keeps_ticket :
  count_events (is_transition_of 5) (trace (tick env_transition_refused cfg0 initial)) = 1
  /\ "PROJ-100"%string ∈ processing_tickets (tick env_transition_refused cfg0 initial)
  /\ 5%Z ∈ processed_prs (tick env_transition_refused cfg0 initial).
Proof.
  split; [by vm_compute|]. split; compute_done.
Qed.

(** An attempt that raises is not cached: the next turn makes it again. *)
Lemma raised_transition_is_retried :
  count_events (is_transition_of 5) (trace (handle_watch env_transition_raises cfg0 2 initial)) = 2
  /\ 5%Z ∉ processed_prs (handle_watch env_transition_raises cfg0 2 initial).
Proof.
  split; [by vm_compute|compute_done].
Qed.

(** C6, as stated, fails: when processing [PROJ-100] raises, the turn ends
    with the error line; [PROJ-101] is not processed and pull request 5 is
    not looked at in that turn, as they are when processing [PROJ-100]
    returns a failure instead. *)
Lemma raised_processing_ends_turn :
  trace (tick env_process_raises cfg0 initial)
  = [EvPrint (FoundTicket "PROJ-100"); EvPrint (Processing "PROJ-100");
     EvProcess "PROJ-100" (Raised "boom"); EvPrint (PollError "boom")]
  /\ count_events (is_process_of "PROJ-101") (trace (tick env_process_raises cfg0 initial)) = 0
  /\ count_events is_transition (trace (tick env_process_raises cfg0 initial)) = 0
  /\ count_events (is_process_of "PROJ-101") (trace (tick env_process_fails cfg0 initial)) = 1
  /\ count_events is_transition (trace (tick env_process_fails cfg0 initial)) = 1.
Proof.
  by vm_compute.
Qed.
(** One turn in which everything succeeds: [PROJ-100] is processed and,
    its pull request 5 being merged, moved to done and taken out of
    [processing_tickets]; [PROJ-101] stays there; pull request 7 (not
    merged) is not cached, pull request 8 (no ticket key) is. *)
Example successful_turn :
  elements (processing_tickets (tick env_ok cfg0 initial)) = ["PROJ-101"%string]
  /\ elements (processed_prs (tick env_ok cfg0 initial)) = [5%Z; 8%Z]
  /\ count_events is_transition (trace (tick env_ok cfg0 initial)) = 1.
Proof. by vm_compute. Qed.

End WatchFacts.

(** ** The lifecycle store over runs of calls *)

Module StoreFacts.
Import Py Tracker PyFacts TrackerFacts Samples StoreContract.

(** *** Deleting *)

Lemma dict_get_absent {V : Type} (k : string) (d : dict V) :
  k ∉ dict_keys d -> dict_get k d = None.
Proof.
  intros Hk. destruct (dict_get k d) eqn:Hget; [|reflexivity].
  exfalso. apply Hk, dict_mem_keys. unfold dict_mem. by rewrite Hget.
Qed.

(** With distinct keys, deleting a key leaves no entry for it. *)
Lemma dict_get_del_eq {V : Type} (k : string) (d : dict V) :
  dict_wf d -> dict_get k (dict_del k d) = None.
Proof.
  unfold dict_wf. induction d as [|[k0 v0] d IH]; cbn [dict_del dict_keys map fst];
    [done|].
  intros [Hfresh Hwf]%NoDup_cons.
  destruct (String.eqb_spec k0 k) as [->|Hne].
  - by apply dict_get_absent.
  - cbn [dict_get]. destruct (String.eqb_spec k0 k); [done|]. by apply IH.
Qed.

Lemma dict_get_del_ne {V : Type} (k k' : string) (d : dict V) :
  k <> k' -> dict_get k' (dict_del k d) = dict_get k' d.
Proof.
  intros Hne. induction d as [|[k0 v0] d IH]; cbn [dict_del dict_get]; [done|].
  destruct (String.eqb_spec k0 k) as [->|Hk0].
  - destruct (String.eqb_spec k k'); [done|reflexivity].
  - cbn [dict_get]. destruct (String.eqb_spec k0 k'); [reflexivity|exact IH].
Qed.

Lemma filter_all {A : Type} (p : A -> bool) (l : list A) :
  (forall x, In x l -> p x = true) -> List.filter p l = l.
Proof.
  induction l as [|x l IH]; intros Hp; [done|]. cbn [List.filter].
  rewrite (Hp x) by (by left). f_equal. apply IH. intros y Hy. apply Hp. by right.
Qed.

(** With distinct keys, deleting a key is dropping every entry that has it. *)
Lemma dict_del_filter {V : Type} (k : string) (d : dict V) :
  dict_wf d ->
  dict_del k d = List.filter (fun kv => negb (String.eqb (fst kv) k)) d.
Proof.
  unfold dict_wf. induction d as [|[k0 v0] d IH];
    cbn [dict_del dict_keys map fst List.filter]; [done|].
  intros [Hfresh Hwf]%NoDup_cons.
  destruct (String.eqb_spec k0 k) as [->|Hne]; cbn [negb].
  - symmetry. apply filter_all.
    intros [k1 v1] Hin. cbn [fst]. apply negb_true_iff, String.eqb_neq.
    intros ->. apply Hfresh. apply list_elem_of_In in Hin.
    by apply (list_elem_of_fmap_2 fst) in Hin.
  - by rewrite IH.
Qed.

Lemma dict_wf_filter {V : Type} (p : string * V -> bool) (d : dict V) :
  dict_wf d -> dict_wf (List.filter p d).
Proof.
  unfold dict_wf, dict_keys. induction d as [|x d IH]; cbn [List.filter map]; [done|].
  intros [Hfresh Hwf]%NoDup_cons. destruct (p x); cbn [map]; [|by apply IH].
  apply NoDup_cons. split; [|by apply IH].
  intros Hin. apply Hfresh. apply list_elem_of_fmap in Hin as (y & -> & Hy).
  apply list_elem_of_In, List.filter_In in Hy as [Hy _].
  apply list_elem_of_fmap. exists y. split; [reflexivity|]. by apply list_elem_of_In.
Qed.

Lemma dict_del_wf {V : Type} (k : string) (d : dict V) :
  dict_wf d -> dict_wf (dict_del k d).
Proof. intros Hwf. rewrite dict_del_filter by done. by apply dict_wf_filter. Qed.

Lemma filter_filter_and {A : Type} (p q : A -> bool) (l : list A) :
  List.filter p (List.filter q l) = List.filter (fun x => q x && p x) l.
Proof.
  induction l as [|x l IH]; [done|]. cbn [List.filter].
  destruct (q x); cbn [List.filter andb]; [|exact IH].
  destruct (p x); by rewrite IH.
Qed.

(** Deleting a list of keys, one after the other. *)
Lemma dict_del_all_filter {V : Type} (ks : list string) (d : dict V) :
  dict_wf d ->
  fold_left (fun d key => dict_del key d) ks d
  = List.filter (fun kv => negb (existsb (String.eqb (fst kv)) ks)) d.
Proof.
  revert d. induction ks as [|k ks IH]; intros d Hwf; cbn [fold_left existsb].
  - symmetry. by apply filter_all.
  - rewrite IH by (by apply dict_del_wf). rewrite dict_del_filter by done.
    rewrite filter_filter_and. apply List.filter_ext. intros [k0 v0]. cbn [fst].
    by rewrite negb_orb.
Qed.

Lemma dict_get_In {V : Type} (k : string) (v : V) (d : dict V) :
  dict_get k d = Some v -> In (k, v) d.
Proof.
  induction d as [|[k0 v0] d IH]; cbn [dict_get]; [done|].
  destruct (String.eqb_spec k0 k) as [->|Hne].
  - intros [= ->]. by left.
  - intros Hget. right. by apply IH.
Qed.

Lemma dict_In_get {V : Type} (k : string) (v : V) (d : dict V) :
  dict_wf d -> In (k, v) d -> dict_get k d = Some v.
Proof.
  unfold dict_wf. induction d as [|[k0 v0] d IH]; cbn [dict_keys map fst]; [done|].
  intros [Hfresh Hwf]%NoDup_cons [[= -> ->]|Hin]; cbn [dict_get].
  - by rewrite String.eqb_refl.
  - destruct (String.eqb_spec k0 k) as [->|Hne]; [|by apply IH].
    exfalso. apply Hfresh. apply list_elem_of_In in Hin.
    by apply (list_elem_of_fmap_2 fst) in Hin.
Qed.

(** *** The two queries are filters *)

Lemma get_open_prs_filter (rf : option string) (t : PRTracker) :
  get_open_prs rf t = List.filter (is_open_in rf) (dict_values (prs t)).
Proof.
  unfold get_open_prs.
  rewrite <- (app_nil_l (List.filter _ _)), <- fold_left_append_filter.
  apply fold_left_ext. intros result pr. unfold is_open_in.
  by destruct (eq_str (status pr) "open").
Qed.

Lemma get_prs_needing_attention_filter (rf : option string) (t : PRTracker) :
  get_prs_needing_attention rf t = List.filter (is_listed rf) (dict_values (prs t)).
Proof.
  unfold get_prs_needing_attention.
  rewrite <- (app_nil_l (List.filter _ _)), <- fold_left_append_filter.
  apply fold_left_ext. intros result pr. unfold is_listed.
  destruct (eq_str (status pr) "open"); cbn [negb andb]; [|reflexivity].
  by destruct (repo_mismatch rf pr).
Qed.

Lemma filter_sublist {A : Type} (p q : A -> bool) (l : list A) :
  (forall x, p x = true -> q x = true) ->
  List.filter p l `sublist_of` List.filter q l.
Proof.
  intros Hpq. induction l as [|x l IH]; cbn [List.filter]; [constructor|].
  destruct (p x) eqn:Hp.
  - rewrite (Hpq x Hp). by constructor.
  - destruct (q x); [by constructor|exact IH].
Qed.

(** X1.  Every pull request that needs attention is an open pull request: what
    [get_prs_needing_attention] returns is, in the same order, part of what
    [get_open_prs] returns for all repositories, and of what it returns for
    the same repository when one is named. *)
Theorem attention_within_open (rf : option string) (t : PRTracker) :
  get_prs_needing_attention rf t `sublist_of` get_open_prs None t
  /\ (rf <> Some ""%string ->
      get_prs_needing_attention rf t `sublist_of` get_open_prs rf t).
Proof.
  rewrite get_prs_needing_attention_filter, !get_open_prs_filter. split.
  - apply filter_sublist. intros pr. unfold is_listed, is_open_in.
    rewrite !andb_true_iff. tauto.
  - intros Hrf. apply filter_sublist. intros pr. unfold is_listed, is_open_in.
    rewrite !andb_true_iff, negb_true_iff. intros [[Hopen Hrepo] _].
    split; [exact Hopen|].
    destruct rf as [r|]; [|reflexivity]. cbn [repo_mismatch truthy] in Hrepo.
    apply andb_false_iff in Hrepo as [Hr|Hr].
    + apply negb_false_iff, String.eqb_eq in Hr. by subst r.
    + by apply negb_false_iff in Hr.
Qed.

Lemma attention_within_open_witness :
  get_prs_needing_attention (Some "o/r"%string) tracker2
    `sublist_of` get_open_prs (Some "o/r"%string) tracker2.
Proof.
  apply (proj2 (attention_within_open (Some "o/r"%string) tracker2)). discriminate.
Defined.

(** *** Removing *)

(** X2.  [remove_pr] tells whether the pair was tracked; afterwards the pair is
    not tracked and every other pair is as before.  What it writes to the
    file is the store it leaves: a tracker constructed from the file
    afterwards holds the remaining records and not the pair.  When the
    pair was not tracked nothing changes, the file included. *)
Theorem remove_pr_forgets_the_pair (rt : Runtime) (r : string) (n : Z)
    (t : PRTracker) :
  dict_wf (prs t) ->
  (fst (remove_pr rt r n t) = true <-> get_pr r n t <> None)
  /\ get_pr r n (snd (remove_pr rt r n t)) = None
  /\ (forall r' n', (r', n') <> (r, n) ->
        get_pr r' n' (snd (remove_pr rt r n t)) = get_pr r' n' t)
  /\ (fst (remove_pr rt r n t) = true ->
      forall now, exists restarted,
        PRTracker_new [] (disk (snd (remove_pr rt r n t))) now = Returned restarted
        /\ prs restarted = prs (snd (remove_pr rt r n t))
        /\ get_pr r n restarted = None
        /\ (forall r' n', (r', n') <> (r, n) ->
              get_pr r' n' restarted = get_pr r' n' t)
        /\ log restarted = [])
  /\ (get_pr r n t = None -> remove_pr rt r n t = (false, t)).
Proof.
  intros Hwf. unfold remove_pr, get_pr, dict_mem.
  destruct (dict_get (_key r n) (prs t)) as [pr|] eqn:Hget; cbn [fst snd].
  - assert (Hother : forall r' n', (r', n') <> (r, n) ->
              dict_get (_key r' n') (dict_del (_key r n) (prs t))
              = dict_get (_key r' n') (prs t)).
    { intros r' n' Hne. apply dict_get_del_ne. intros Hkey.
      apply _key_inj in Hkey as [-> ->]. by apply Hne. }
    split; [by split|]. rewrite save_prs. cbn [with_prs prs].
    split; [by apply dict_get_del_eq|]. split; [exact Hother|]. split; [|done].
    intros _ now. rewrite save_disk. cbn [with_prs prs].
    rewrite document_reads_back by (by apply dict_del_wf).
    eexists. split; [reflexivity|]. cbn [prs log]. split; [reflexivity|].
    split; [by apply dict_get_del_eq|]. split; [exact Hother|reflexivity].
  - split; [split; [discriminate|by intros []]|].
    split; [exact Hget|]. split; [reflexivity|]. split; [discriminate|reflexivity].
Qed.

Lemma remove_pr_forgets_the_pair_witness :
  fst (remove_pr rt0 "o/r" 5 tracker1) = true
  /\ exists restarted,
       PRTracker_new [] (disk (snd (remove_pr rt0 "o/r" 5 tracker1))) 3 = Returned restarted
       /\ get_pr "o/r" 5 restarted = None.
Proof.
  assert (Hwf : dict_wf (prs tracker1)).
  { unfold dict_wf. cbn. apply NoDup_singleton. }
  destruct (remove_pr_forgets_the_pair rt0 "o/r" 5 tracker1 Hwf)
    as (Hfound & _ & _ & Hback & _).
  assert (Htrue : fst (remove_pr rt0 "o/r" 5 tracker1) = true)
    by (apply Hfound; discriminate).
  split; [exact Htrue|].
  destruct (Hback Htrue 3) as (restarted & Hnew & _ & Hgone & _).
  by exists restarted.
Defined.

(** *** Keys *)

(** X3.  Two pairs share a key only when they are the same pair, also when the
    repository name itself holds a [#]. *)
Theorem key_identifies_pair (r r' : string) (n n' : Z) :
  _key r n = _key r' n' <-> (r, n) = (r', n').
Proof.
  split.
  - intros Hkey. apply _key_inj in Hkey as [-> ->]. reflexivity.
  - intros [= -> ->]. reflexivity.
Qed.

(** *** Updating *)

(** X4.  Whatever [update_pr] is given and however it ends, the store tracks the
    same pairs in the same order afterwards, and every other pair has the
    record it had. *)
Theorem update_pr_keeps_the_pairs (rt : Runtime) (r : string) (n : Z)
    (ups : list (string * value)) (t : PRTracker) :
  dict_keys (prs (snd (update_pr rt r n ups t))) = dict_keys (prs t)
  /\ (forall r' n', (r', n') <> (r, n) ->
        get_pr r' n' (snd (update_pr rt r n ups t)) = get_pr r' n' t)
  /\ (get_pr r n t = None <-> fst (update_pr rt r n ups t) = Returned None).
Proof.
  unfold update_pr, get_pr.
  destruct (dict_get (_key r n) (prs t)) as [pr|] eqn:Hget; cbn [fst snd].
  - assert (Hmem : dict_mem (_key r n) (prs t) = true).
    { unfold dict_mem. by rewrite Hget. }
    assert (Hother : forall (pr' : TrackedPR) r' n', (r', n') <> (r, n) ->
              dict_get (_key r' n') (dict_set (_key r n) pr' (prs t))
              = dict_get (_key r' n') (prs t)).
    { intros pr' r' n' Hne. apply dict_get_set_ne. intros Hkey.
      apply _key_inj in Hkey as [-> ->]. by apply Hne. }
    destruct (apply_updates rt ups pr) as [pr1 [e|]]; cbn [fst snd].
    + cbn [with_prs prs]. split; [by apply dict_keys_set_present|].
      split; [by intros; apply Hother|]. split; discriminate.
    + rewrite save_prs. cbn [prs]. split; [by apply dict_keys_set_present|].
      split; [by intros; apply Hother|]. split; discriminate.
  - split; [reflexivity|]. split; [reflexivity|]. by split.
Qed.

(** *** Adding *)

Lemma filter_values {V : Type} (p : V -> bool) (d : dict V) :
  List.filter p (dict_values d) = dict_values (List.filter (fun kv => p (snd kv)) d).
Proof.
  unfold dict_values. induction d as [|[k v] d IH]; cbn [List.filter map snd]; [done|].
  destruct (p v); cbn [map snd]; by rewrite IH.
Qed.

(** X5.  A pair that was not tracked is listed last among the open pull requests
    once it is added, for every repository and for its own, and the list of
    pull requests that need attention is what it was. *)
Theorem add_pr_lists_new_pair_last (rt : Runtime) (n : Z) (url r k b : string)
    (t : PRTracker) :
  get_pr r n t = None ->
  get_open_prs None (snd (add_pr rt n url r k b t))
  = get_open_prs None t ++ [fst (add_pr rt n url r k b t)]
  /\ get_open_prs (Some r) (snd (add_pr rt n url r k b t))
     = get_open_prs (Some r) t ++ [fst (add_pr rt n url r k b t)]
  /\ (forall rf, get_prs_needing_attention rf (snd (add_pr rt n url r k b t))
                 = get_prs_needing_attention rf t).
Proof.
  intros Hget. unfold get_pr in Hget.
  assert (Hfresh : _key r n ∉ dict_keys (prs t)).
  { intros Hin%dict_mem_keys. unfold dict_mem in Hin. by rewrite Hget in Hin. }
  rewrite !get_open_prs_filter. 
  assert (Hprs : dict_values (prs (snd (add_pr rt n url r k b t)))
                 = dict_values (prs t) ++ [fst (add_pr rt n url r k b t)]).
  { rewrite add_pr_prs, add_pr_result, (dict_set_fresh _ _ _ Hfresh).
    unfold dict_values. by rewrite map_app. }
  split; [|split].
  - rewrite Hprs, List.filter_app. f_equal.
  - rewrite Hprs, List.filter_app. f_equal. rewrite add_pr_result.
    cbn [List.filter]. unfold is_open_in, new_record.
    cbn [status repo eq_str andb]. by rewrite !String.eqb_refl.
  - intros rf. rewrite !get_prs_needing_attention_filter, Hprs, List.filter_app.
    rewrite add_pr_result.
    cbn [List.filter]. unfold is_listed. rewrite truthy_needs_attention.
    unfold new_record.
    cbn [ci_status has_feedback feedback_addressed eq_str truthy].
    replace ("pending" =? "failure")%string with false by reflexivity.
    cbn [orb andb]. rewrite andb_false_r. apply app_nil_r.
Qed.

Lemma add_pr_lists_new_pair_last_witness :
  get_open_prs None (snd (add_pr rt0 6 "https://host/o/r/pull/6" "o/r" "PROJ-101" "b" tracker2))
  = get_open_prs None tracker2
    ++ [fst (add_pr rt0 6 "https://host/o/r/pull/6" "o/r" "PROJ-101" "b" tracker2)].
Proof.
  apply (add_pr_lists_new_pair_last rt0 6 "https://host/o/r/pull/6" "o/r" "PROJ-101" "b"
           tracker2).
  reflexivity.
Defined.

(** *** Cleaning up *)

Lemma dict_get_filter {V : Type} (p : string * V -> bool) (k : string) (d : dict V) :
  dict_wf d ->
  dict_get k (List.filter p d)
  = match dict_get k d with
    | Some v => if p (k, v) then Some v else None
    | None => None
    end.
Proof.
  unfold dict_wf. induction d as [|[k0 v0] d IH]; cbn [dict_keys map fst]; [done|].
  intros [Hfresh Hwf]%NoDup_cons. cbn [List.filter dict_get].
  destruct (String.eqb_spec k0 k) as [->|Hne].
  - destruct (p (k, v0)); cbn [dict_get]; [by rewrite String.eqb_refl|].
    rewrite (IH Hwf), (dict_get_absent k d); [reflexivity|exact Hfresh].
  - destruct (p (k0, v0)); cbn [dict_get]; [|by apply IH].
    destruct (String.eqb_spec k0 k); [done|by apply IH].
Qed.

Lemma closed_keys_spec (d : dict TrackedPR) (kv : string * TrackedPR) :
  dict_wf d -> In kv d ->
  existsb (String.eqb (fst kv))
    (map fst (List.filter (fun kv => is_closed (snd kv)) d))
  = is_closed (snd kv).
Proof.
  intros Hwf Hin. destruct kv as [k v]. cbn [fst snd].
  destruct (is_closed v) eqn:Hclosed.
  - apply existsb_exists. exists k. split; [|apply String.eqb_refl].
    apply in_map_iff. exists (k, v). split; [reflexivity|].
    apply filter_In. by split.
  - apply not_true_is_false. intros (k' & Hk' & ->%String.eqb_eq)%existsb_exists.
    apply in_map_iff in Hk' as ([k'' v'] & Hfst & [Hin' Hc]%filter_In).
    cbn [fst snd] in *. subst k''.
    pose proof (dict_In_get _ _ _ Hwf Hin) as H1.
    pose proof (dict_In_get _ _ _ Hwf Hin') as H2.
    rewrite H1 in H2. injection H2 as ->. congruence.
Qed.

Lemma cleanup_closed_prs (rt : Runtime) (t : PRTracker) :
  dict_wf (prs t) ->
  prs (snd (cleanup_closed rt t))
  = List.filter (fun kv => negb (is_closed (snd kv))) (prs t).
Proof.
  intros Hwf. unfold cleanup_closed. cbn [snd].
  set (ks := map fst (List.filter (fun kv => is_closed (snd kv)) (prs t))).
  assert (Hprs : forall t1, prs (match ks with [] => t1 | _ :: _ => _save rt t1 end) = prs t1).
  { intros t1. destruct ks; [reflexivity|apply save_prs]. }
  rewrite Hprs. cbn [with_prs prs]. rewrite (dict_del_all_filter _ _ Hwf).
  apply filter_ext_in. intros kv Hin. subst ks. by rewrite closed_keys_spec.
Qed.

Lemma cleanup_closed_count (rt : Runtime) (t : PRTracker) :
  fst (cleanup_closed rt t) = length (List.filter is_closed (dict_values (prs t))).
Proof.
  unfold cleanup_closed. cbn [fst].
  rewrite length_map, filter_values. unfold dict_values. by rewrite length_map.
Qed.

Lemma cleanup_closed_lookup (rt : Runtime) (t : PRTracker) :
  dict_wf (prs t) ->
  fst (cleanup_closed rt t) = length (List.filter is_closed (dict_values (prs t)))
  /\ (forall r n,
        get_pr r n (snd (cleanup_closed rt t))
        = match get_pr r n t with
          | Some pr => if is_closed pr then None else Some pr
          | None => None
          end).
Proof.
  intros Hwf. split; [apply cleanup_closed_count|].
  intros r n. unfold get_pr. rewrite (cleanup_closed_prs rt t Hwf).
  rewrite dict_get_filter by exact Hwf.
  destruct (dict_get (_key r n) (prs t)) as [pr|]; [|reflexivity].
  cbn [snd]. by destruct (is_closed pr).
Qed.

Lemma list_filter_sublist {A : Type} (p : A -> bool) (l : list A) :
  List.filter p l `sublist_of` l.
Proof.
  induction l as [|x l IH]; cbn [List.filter]; [constructor|].
  destruct (p x); by constructor.
Qed.

Lemma map_sublist {A B : Type} (f : A -> B) (l1 l2 : list A) :
  l1 `sublist_of` l2 -> map f l1 `sublist_of` map f l2.
Proof. induction 1; cbn [map]; by constructor. Qed.

Lemma filter_none {A : Type} (p : A -> bool) (l : list A) :
  (forall x, In x l -> p x = false) -> List.filter p l = [].
Proof.
  induction l as [|x l IH]; cbn [List.filter]; [done|]. intros Hall.
  rewrite (Hall x) by (by left). apply IH. intros y Hy. apply Hall. by right.
Qed.

(** X6.  [cleanup_closed] removes the records whose status is [merged] or
    [closed] and no other: it returns their number, every other pair keeps
    its record and its place, the two queries answer as before, a second
    call finds nothing to remove, and a call that removes nothing leaves
    the tracker, file included, as it was. *)
Theorem cleanup_closed_drops_finished_records (rt : Runtime) (t : PRTracker) :
  dict_wf (prs t) ->
  fst (cleanup_closed rt t) = length (List.filter is_closed (dict_values (prs t)))
  /\ (forall r n,
        get_pr r n (snd (cleanup_closed rt t))
        = match get_pr r n t with
          | Some pr => if is_closed pr then None else Some pr
          | None => None
          end)
  /\ dict_keys (prs (snd (cleanup_closed rt t))) `sublist_of` dict_keys (prs t)
  /\ (forall rf, get_open_prs rf (snd (cleanup_closed rt t)) = get_open_prs rf t)
  /\ (forall rf, get_prs_needing_attention rf (snd (cleanup_closed rt t))
                 = get_prs_needing_attention rf t)
  /\ fst (cleanup_closed rt (snd (cleanup_closed rt t))) = 0%nat
  /\ (fst (cleanup_closed rt t) = 0%nat -> snd (cleanup_closed rt t) = t).
Proof.
  intros Hwf. pose proof (cleanup_closed_prs rt t Hwf) as Hprs.
  assert (Hquery : forall p : TrackedPR -> bool,
            (forall pr, p pr = true -> is_closed pr = false) ->
            List.filter p (dict_values (prs (snd (cleanup_closed rt t))))
            = List.filter p (dict_values (prs t))).
  { intros p Hp. rewrite Hprs, !filter_values, filter_filter_and. f_equal.
    apply filter_ext. intros [k v]. cbn [snd].
    destruct (p v) eqn:Hpv; [|apply andb_false_r].
    by rewrite (Hp v Hpv). }
  assert (Hopen : forall pr, eq_str (status pr) "open" = true -> is_closed pr = false).
  { intros pr Hs%eq_str_true. unfold is_closed. by rewrite Hs. }
  split; [apply cleanup_closed_count|].
  split; [|split; [|split; [|split; [|split]]]].
  - intros r n. unfold get_pr. rewrite Hprs. rewrite dict_get_filter by exact Hwf.
    destruct (dict_get (_key r n) (prs t)) as [pr|]; [|reflexivity].
    cbn [snd]. by destruct (is_closed pr).
  - rewrite Hprs. unfold dict_keys. apply map_sublist, list_filter_sublist.
  - intros rf. rewrite !get_open_prs_filter. apply Hquery.
    intros pr [Hs _]%andb_true_iff. by apply Hopen.
  - intros rf. rewrite !get_prs_needing_attention_filter. apply Hquery.
    intros pr [[Hs _]%andb_true_iff _]%andb_true_iff. by apply Hopen.
  - rewrite cleanup_closed_count, Hprs, filter_values, filter_filter_and.
    rewrite filter_none; [reflexivity|]. intros [k v] _. cbn [snd].
    by destruct (is_closed v).
  - unfold cleanup_closed. cbn [fst snd]. intros Hlen.
    apply length_zero_iff_nil in Hlen. rewrite Hlen. cbn [fold_left].
    by destruct t.
Qed.

Lemma tracker2_wf : dict_wf (prs tracker2).
Proof. unfold dict_wf. cbn. apply NoDup_singleton. Qed.

Lemma merged_store_wf : dict_wf (prs merged_store).
Proof. unfold dict_wf. by compute_done. Qed.

Lemma cleanup_closed_drops_finished_records_witness :
  fst (cleanup_closed rt0 merged_store) = 1%nat
  /\ get_pr "o/r" 5 (snd (cleanup_closed rt0 merged_store)) = None
  /\ get_pr "o/r" 6 (snd (cleanup_closed rt0 merged_store)) = get_pr "o/r" 6 merged_store
  /\ get_open_prs None (snd (cleanup_closed rt0 merged_store))
     = get_open_prs None merged_store.
Proof.
  destruct (cleanup_closed_drops_finished_records rt0 merged_store merged_store_wf)
    as (Hcount & Hlook & _ & Hopen & _).
  split; [rewrite Hcount; reflexivity|].
  split; [rewrite Hlook; reflexivity|].
  split; [rewrite Hlook; reflexivity|apply Hopen].
Defined.

(** X7.  A pull request whose status is set to [merged] or [closed] is gone
    after the next [cleanup_closed], and the cleanup counts it; a pair
    whose record is neither is still tracked with the same record. *)
Theorem finished_pr_leaves_the_store (rt : Runtime) (r : string) (n : Z)
    (s : string) (t : PRTracker) :
  dict_wf (prs t) ->
  get_pr r n t <> None ->
  s = "merged"%string \/ s = "closed"%string ->
  get_pr r n (snd (cleanup_closed rt
                     (snd (update_pr rt r n [("status"%string, VStr s)] t)))) = None
  /\ (1 <= fst (cleanup_closed rt
                  (snd (update_pr rt r n [("status"%string, VStr s)] t))))%nat
  /\ (forall r' n' pr', (r', n') <> (r, n) ->
        get_pr r' n' t = Some pr' -> is_closed pr' = false ->
        get_pr r' n' (snd (cleanup_closed rt
                             (snd (update_pr rt r n [("status"%string, VStr s)] t))))
        = Some pr').
Proof.
  intros Hwf Hsome Hs.
  destruct (get_pr r n t) as [pr|] eqn:Hget; [clear Hsome|done].
  set (t1 := snd (update_pr rt r n [("status"%string, VStr s)] t)).
  assert (Hupd : exists pr1, get_pr r n t1 = Some pr1 /\ is_closed pr1 = true
                             /\ prs t1 = dict_set (_key r n) pr1 (prs t)).
  { subst t1. unfold update_pr, get_pr in *. rewrite Hget.
    rewrite apply_updates_fields by (repeat constructor; by left).
    cbn [snd]. rewrite save_prs. cbn [prs].
    eexists. split; [apply dict_get_set_eq|]. split; [|reflexivity].
    destruct Hs as [-> | ->]; reflexivity. }
  destruct Hupd as (pr1 & Hget1 & Hclosed1 & Hprs1).
  assert (Hwf1 : dict_wf (prs t1)) by (rewrite Hprs1; by apply dict_set_wf).
  destruct (cleanup_closed_lookup rt t1 Hwf1) as (Hcount & Hlook).
  split; [|split].
  - by rewrite Hlook, Hget1, Hclosed1.
  - rewrite Hcount. unfold get_pr in Hget1. apply dict_get_In in Hget1.
    assert (Hin : In pr1 (List.filter is_closed (dict_values (prs t1)))).
    { apply filter_In. split; [|exact Hclosed1].
      unfold dict_values. apply in_map_iff. by exists (_key r n, pr1). }
    destruct (List.filter is_closed (dict_values (prs t1))); [destruct Hin|cbn; lia].
  - intros r' n' pr' Hne Hget' Hopen'. rewrite Hlook. unfold get_pr in *.
    rewrite Hprs1, dict_get_set_ne, Hget', Hopen'; [reflexivity|].
    intros Hkey. apply _key_inj in Hkey as [-> ->]. by apply Hne.
Qed.

Lemma finished_pr_leaves_the_store_witness :
  get_pr "o/r" 5 (snd (cleanup_closed rt0
                         (snd (update_pr rt0 "o/r" 5 [("status"%string, VStr "merged")]
                                 tracker2)))) = None.
Proof.
  apply (finished_pr_leaves_the_store rt0 "o/r" 5 "merged" tracker2 tracker2_wf).
  - discriminate.
  - by left.
Defined.

(** *** What every call keeps *)

Lemma Forall_dict_set {V : Type} (P : string * V -> Prop) (k : string) (v : V)
    (d : dict V) :
  Forall P d -> P (k, v) -> Forall P (dict_set k v d).
Proof.
  intros Hd Hkv. induction Hd as [|[k0 v0] d H0 Hd IH]; cbn [dict_set].
  - by constructor.
  - destruct (String.eqb_spec k0 k) as [->|Hne]; by constructor.
Qed.

Lemma Forall_dict_del {V : Type} (P : string * V -> Prop) (k : string) (d : dict V) :
  Forall P d -> Forall P (dict_del k d).
Proof.
  intros Hd. induction Hd as [|[k0 v0] d H0 Hd IH]; cbn [dict_del]; [constructor|].
  destruct (String.eqb k0 k); [exact Hd|by constructor].
Qed.

Lemma Forall_dict_del_all {V : Type} (P : string * V -> Prop) (ks : list string)
    (d : dict V) :
  Forall P d -> Forall P (fold_left (fun d key => dict_del key d) ks d).
Proof.
  revert d. induction ks as [|k ks IH]; intros d Hd; cbn [fold_left]; [exact Hd|].
  by apply IH, Forall_dict_del.
Qed.

Lemma dict_del_all_wf {V : Type} (ks : list string) (d : dict V) :
  dict_wf d -> dict_wf (fold_left (fun d key => dict_del key d) ks d).
Proof.
  revert d. induction ks as [|k ks IH]; intros d Hd; cbn [fold_left]; [exact Hd|].
  by apply IH, dict_del_wf.
Qed.

Lemma getattr_repo (pr : TrackedPR) : getattr pr "repo" = Some (repo pr).
Proof. reflexivity. Qed.

Lemma getattr_pr_number (pr : TrackedPR) : getattr pr "pr_number" = Some (pr_number pr).
Proof. reflexivity. Qed.

Lemma plain_updates_names (rt : Runtime) (ups : list (string * value)) :
  plain_updates rt ups ->
  ("repo"%string ∉ map fst ups) /\ ("pr_number"%string ∉ map fst ups)
  /\ Forall (fun u => is_field (fst u) = true \/ hasattr rt (fst u) = false) ups.
Proof.
  unfold plain_updates. induction 1 as [|u ups (Hr & Hn & Hf) _ (IHr & IHn & IHf)].
  - repeat split; [by intros ?%elem_of_nil..|constructor].
  - cbn [map]. repeat split.
    + intros [Heq|Hin]%elem_of_cons; [by apply Hr|by apply IHr].
    + intros [Heq|Hin]%elem_of_cons; [by apply Hn|by apply IHn].
    + by constructor.
Qed.

(** What a plain call to [update_pr] leaves in memory. *)
Lemma update_pr_plain (rt : Runtime) (r : string) (n : Z)
    (ups : list (string * value)) (t : PRTracker) (pr : TrackedPR) :
  plain_updates rt ups -> get_pr r n t = Some pr ->
  exists pr',
    update_pr rt r n ups t
    = (Returned (Some pr'),
       _save rt {| prs := dict_set (_key r n) pr' (prs t); disk := disk t;
                   clock := S (clock t); log := log t |})
    /\ repo pr' = repo pr /\ pr_number pr' = pr_number pr.
Proof.
  intros (Hr & Hn & Hf)%plain_updates_names Hget. unfold get_pr in Hget.
  unfold update_pr. rewrite Hget, (apply_updates_fields _ _ _ Hf).
  eexists. split; [reflexivity|].
  pose proof (getattr_merge_fields ups pr "repo" Hr) as Hrepo.
  pose proof (getattr_merge_fields ups pr "pr_number" Hn) as Hnum.
  rewrite !getattr_repo in Hrepo. rewrite !getattr_pr_number in Hnum.
  injection Hrepo as Hrepo. injection Hnum as Hnum.
  split; [exact Hrepo|exact Hnum].
Qed.

Lemma perform_keeps (rt : Runtime) (c : call) (t : PRTracker) :
  plain_call rt c ->
  dict_wf (prs t) /\ consistent (prs t) /\ in_sync t ->
  dict_wf (prs (perform rt c t)) /\ consistent (prs (perform rt c t))
  /\ in_sync (perform rt c t).
Proof.
  intros Hplain (Hwf & Hcons & Hsync).
  destruct c as [n url r k b|r n ups|r n|]; cbn [perform plain_call] in *.
  - rewrite add_pr_prs. split; [by apply dict_set_wf|]. split.
    + apply Forall_dict_set; [exact Hcons|]. by exists r, n.
    + right. eexists. unfold add_pr. cbn [snd with_log disk prs _save]. reflexivity.
  - destruct (get_pr r n t) as [pr|] eqn:Hget.
    + destruct (update_pr_plain rt r n ups t pr Hplain Hget) as (pr' & -> & Hr & Hn).
      cbn [snd]. rewrite save_prs. cbn [prs].
      split; [by apply dict_set_wf|]. split.
      * apply Forall_dict_set; [exact Hcons|].
        unfold get_pr in Hget. apply dict_get_In in Hget.
        unfold consistent in Hcons. rewrite List.Forall_forall in Hcons.
        destruct (Hcons _ Hget) as (r0 & n0 & Hr0 & Hn0 & Hk0). cbn [fst snd] in *.
        exists r0, n0. cbn [fst snd]. by rewrite Hr, Hn.
      * right. eexists. cbn [_save disk prs]. reflexivity.
    + by rewrite (update_pr_absent rt r n ups t Hget).
  - unfold remove_pr. destruct (dict_mem (_key r n) (prs t)); cbn [snd].
    + rewrite save_prs. cbn [with_prs prs].
      split; [by apply dict_del_wf|]. split; [by apply Forall_dict_del|].
      right. eexists. cbn [_save disk prs with_prs]. reflexivity.
    + done.
  - unfold cleanup_closed. cbn [snd].
    destruct (map fst (List.filter (fun kv => is_closed (snd kv)) (prs t)))
      as [|k ks] eqn:Hks.
    + cbn [fold_left]. by destruct t.
    + rewrite save_prs. cbn [with_prs prs].
      split; [by apply dict_del_all_wf|]. split; [by apply Forall_dict_del_all|].
      right. eexists. cbn [_save disk prs with_prs]. reflexivity.
Qed.

Lemma perform_all_keeps (rt : Runtime) (cs : list call) (t : PRTracker) :
  Forall (plain_call rt) cs ->
  dict_wf (prs t) /\ consistent (prs t) /\ in_sync t ->
  dict_wf (prs (perform_all rt cs t)) /\ consistent (prs (perform_all rt cs t))
  /\ in_sync (perform_all rt cs t).
Proof.
  unfold perform_all. intros Hcs. revert t.
  induction Hcs as [|c cs Hc Hcs IH]; intros t Ht; cbn [fold_left]; [exact Ht|].
  by apply IH, perform_keeps.
Qed.

Lemma fresh_tracker (now : nat) :
  PRTracker_new [] Missing now
  = Returned {| prs := []; disk := Missing; clock := now; log := [] |}.
Proof. reflexivity. Qed.

Lemma fresh_tracker_keeps (start : PRTracker) (now : nat) :
  PRTracker_new [] Missing now = Returned start ->
  dict_wf (prs start) /\ consistent (prs start) /\ in_sync start.
Proof.
  rewrite fresh_tracker. intros [= <-].
  split; [apply NoDup_nil_2|]. split; [constructor|]. by left.
Qed.

Lemma in_sync_restart (t : PRTracker) (now : nat) :
  dict_wf (prs t) -> in_sync t ->
  exists restarted,
    PRTracker_new [] (disk t) now = Returned restarted
    /\ prs restarted = prs t
    /\ log restarted = [].
Proof.
  intros Hwf [[-> ->]|[stamp ->]].
  - eexists. by split.
  - rewrite (document_reads_back _ _ _ Hwf). eexists. by split.
Qed.

(** X8.  Nothing is lost across a restart: after any sequence of calls on a
    store that started without a file, a new [PRTracker] built from the
    file is returned, tracks the same pairs with the same records in the
    same order, and loads without a warning. *)
Theorem store_survives_restart (rt : Runtime) (cs : list call) (now now' : nat) :
  Forall (plain_call rt) cs ->
  exists start restarted,
    PRTracker_new [] Missing now = Returned start
    /\ PRTracker_new [] (disk (perform_all rt cs start)) now' = Returned restarted
    /\ prs restarted = prs (perform_all rt cs start)
    /\ log restarted = [].
Proof.
  intros Hcs. eexists. 
  destruct (perform_all_keeps rt cs _ Hcs (fresh_tracker_keeps _ now (fresh_tracker now)))
    as (Hwf & _ & Hsync).
  destruct (in_sync_restart _ now' Hwf Hsync) as (restarted & Hnew & Hprs & Hlog).
  exists restarted. by split.
Qed.

(** X9.  After any sequence of calls, a record is filed under its own
    repository and number: what [get_pr] returns for a pair names that
    pair, and every pull request the queries list is the one [get_pr]
    returns for the pair it names. *)
Theorem records_are_filed_under_their_pair (rt : Runtime) (cs : list call)
    (now : nat) :
  Forall (plain_call rt) cs ->
  exists start,
    PRTracker_new [] Missing now = Returned start
    /\ (forall r n pr,
          get_pr r n (perform_all rt cs start) = Some pr ->
          repo pr = VStr r /\ pr_number pr = VInt n)
    /\ (forall rf pr,
          In pr (get_open_prs rf (perform_all rt cs start))
          \/ In pr (get_prs_needing_attention rf (perform_all rt cs start)) ->
          exists r n,
            repo pr = VStr r /\ pr_number pr = VInt n
            /\ get_pr r n (perform_all rt cs start) = Some pr).
Proof.
  intros Hcs. eexists. split; [apply fresh_tracker|].
  destruct (perform_all_keeps rt cs _ Hcs (fresh_tracker_keeps _ now (fresh_tracker now)))
    as (Hwf & Hcons & _).
  set (t := perform_all rt cs _) in *.
  unfold consistent in Hcons. rewrite List.Forall_forall in Hcons.
  split.
  - intros r n pr Hget. unfold get_pr in Hget. apply dict_get_In in Hget.
    destruct (Hcons _ Hget) as (r0 & n0 & Hr0 & Hn0 & Hk0). cbn [fst snd] in *.
    apply _key_inj in Hk0 as [-> ->]. by split.
  - intros rf pr Hin.
    assert (Hval : In pr (dict_values (prs t))).
    { destruct Hin as [Hin|Hin].
      - rewrite get_open_prs_filter in Hin. by apply filter_In in Hin as [Hin _].
      - rewrite get_prs_needing_attention_filter in Hin.
        by apply filter_In in Hin as [Hin _]. }
    unfold dict_values in Hval. apply in_map_iff in Hval as ([k v] & <- & Hkv).
    destruct (Hcons _ Hkv) as (r0 & n0 & Hr0 & Hn0 & Hk0). cbn [fst snd] in *.
    exists r0, n0. split; [exact Hr0|]. split; [exact Hn0|].
    unfold get_pr. rewrite <- Hk0. by apply dict_In_get.
Qed.

Lemma sample_calls_plain : Forall (plain_call rt0) sample_calls.
Proof.
  unfold sample_calls, plain_call, plain_updates.
  repeat (apply List.Forall_cons); try apply List.Forall_nil; try exact I.
  all: cbn [fst]; (split; [discriminate|split; [discriminate|]]).
  all: first [by left | by right].
Qed.

Lemma store_survives_restart_witness :
  exists restarted,
    PRTracker_new [] (disk (perform_all rt0 sample_calls empty_tracker)) 9
    = Returned restarted
    /\ prs restarted = prs (perform_all rt0 sample_calls empty_tracker)
    /\ length (prs restarted) = 1%nat.
Proof.
  destruct (store_survives_restart rt0 sample_calls 0 9 sample_calls_plain)
    as (start & restarted & Hstart & Hnew & Hprs & _).
  injection Hstart as <-. exists restarted.
  split; [exact Hnew|]. split; [exact Hprs|]. rewrite Hprs. reflexivity.
Defined.

Lemma records_are_filed_under_their_pair_witness :
  exists pr,
    get_pr "o/r" 6 (perform_all rt0 sample_calls empty_tracker) = Some pr
    /\ repo pr = VStr "o/r" /\ pr_number pr = VInt 6.
Proof.
  destruct (records_are_filed_under_their_pair rt0 sample_calls 0 sample_calls_plain)
    as (start & Hstart & Hfiled & _).
  injection Hstart as <-.
  eexists. split; [reflexivity|]. apply (Hfiled "o/r"%string 6%Z). reflexivity.
Defined.

(** *** Loading a readable file *)

Lemma load_entries_readable (entries : list (string * value)) (d : dict TrackedPR) :
  Forall record_entry entries -> snd (load_entries entries d) = false.
Proof.
  intros Hall. revert d.
  induction Hall as [|[k v] entries (kw & pr & Hv & Hinit) _ IH]; intros d;
    cbn [load_entries]; [reflexivity|].
  cbn [snd] in Hv. subst v. rewrite Hinit. apply IH.
Qed.

Lemma load_document_readable (doc : value) (d : dict TrackedPR) :
  readable_document doc -> snd (load_document doc d) = false.
Proof.
  intros (data & -> & [Hnone|(entries & Hprs & Hall)]); unfold load_document.
  - by rewrite Hnone.
  - rewrite Hprs. by apply load_entries_readable.
Qed.

(** X10.  The constructor fails exactly when the file is out of reach (the
    test for its existence raises); it then passes the error on and logs
    nothing.  Otherwise it returns a tracker, which has logged the one
    warning exactly when the file is corrupt and nothing exactly when it is
    not, and which leaves the file and the clock as they were. *)
Theorem load_warns_exactly_when_corrupt (initial : dict TrackedPR) (f : file)
    (now : nat) :
  (forall exc, PRTracker_new initial f now = Raised exc <-> f = Inaccessible exc)
  /\ (forall t,
        PRTracker_new initial f now = Returned t ->
        (log t = [load_warning] <-> corrupt f)
        /\ (log t = [] <-> ~ corrupt f)
        /\ disk t = f
        /\ clock t = now)
  /\ ((forall exc, f <> Inaccessible exc) ->
      exists t, PRTracker_new initial f now = Returned t).
Proof.
  unfold PRTracker_new, _load. cbn [disk prs].
  destruct f as [exc'| | |doc]; cbn [corrupt].
  - split; [intros exc; split; congruence|]. split; [discriminate|].
    intros Hreach. by destruct (Hreach exc').
  - split; [intros exc; split; discriminate|]. split; [|by eexists].
    intros t [= <-]. cbn [log disk clock].
    split; [split; [discriminate|intros []]|].
    split; [split; [by intros _ []|reflexivity]|]. by split.
  - split; [intros exc; split; discriminate|]. split; [|by eexists].
    intros t [= <-]. cbn [with_log log disk clock app].
    split; [by split|].
    split; [split; [discriminate|intros Hn; by destruct Hn]|]. by split.
  - pose proof (load_document_quiet doc initial) as Hquiet.
    pose proof (load_document_readable doc initial) as Hreadable.
    destruct (load_document doc initial) as [d [|]]; cbn [snd] in *;
      (split; [intros exc; split; discriminate|]; split; [|by eexists]);
      intros t [= <-]; cbn [with_log with_prs log disk clock app].
    + split; [split; [intros _ Hr; by specialize (Hreadable Hr)|reflexivity]|].
      split; [|by split]. split; [discriminate|].
      intros Hnn. exfalso. apply Hnn. intros Hr. by specialize (Hreadable Hr).
    + split; [split; [discriminate|intros Hnot; exfalso; by apply Hnot, Hquiet]|].
      split; [|by split]. split; [|reflexivity].
      intros _ Hnot. by apply Hnot, Hquiet.
Qed.

(** X11.  Every entry of a readable file is tracked under its key with the
    record the constructor of [TrackedPR] builds from it (a field left out
    of the file takes its default), and a key that is not in the file keeps
    the record the store was created with. *)
Theorem load_tracks_every_entry (initial : dict TrackedPR) (data : dict value)
    (entries : list (string * value)) (now : nat) :
  dict_get "prs" data = Some (VDict entries) ->
  Forall record_entry entries ->
  NoDup (map fst entries) ->
  exists t,
    PRTracker_new initial (Document (VDict data)) now = Returned t
    /\ (forall k kw, In (k, VDict kw) entries ->
          dict_get k (prs t) = TrackedPR_init kw)
    /\ (forall k, k ∉ map fst entries -> dict_get k (prs t) = dict_get k initial)
    /\ log t = [].
Proof.
  intros Hprs Hall Hnodup.
  unfold PRTracker_new, _load, load_document. cbn [disk prs]. rewrite Hprs.
  pose proof (load_entries_readable entries initial Hall) as Hq.
  pose proof (fun k => load_entries_lookup entries initial k Hall Hnodup) as Hlook.
  destruct (load_entries entries initial) as [d raised]. cbn [snd fst] in *.
  subst raised. eexists. split; [reflexivity|]. cbn [with_prs prs log].
  split; [|split; [|reflexivity]].
  - intros k kw Hin. rewrite Hlook.
    by rewrite (dict_In_get k (VDict kw) entries Hnodup Hin).
  - intros k Hk. rewrite Hlook. by rewrite (dict_get_absent k entries Hk).
Qed.

Lemma load_tracks_every_entry_witness :
  exists t,
    PRTracker_new [] (Document (VDict [("prs"%string, VDict minimal_entries)])) 0
    = Returned t
    /\ dict_get "o/r#6" (prs t) = TrackedPR_init minimal_record.
Proof.
  destruct (load_tracks_every_entry [] [("prs"%string, VDict minimal_entries)]
              minimal_entries 0 eq_refl) as (t & Hnew & Hentry & _).
  - repeat constructor. eexists _, _. split; reflexivity.
  - apply NoDup_singleton.
  - exists t. split; [exact Hnew|]. apply Hentry. by left.
Defined.
End StoreFacts.

(** ** The correlator: shape of the key, title and branch *)

Module KeyFacts.
Import Py Correlator CorrelatorFacts TrackerFacts.

Lemma to_upper_to_lower (c : ascii) : to_upper (to_lower c) = to_upper c.
Proof. destruct c as [[] [] [] [] [] [] [] []]; reflexivity. Qed.

Lemma eqb_nocase_upper (c d : ascii) : eqb_nocase c d = true -> to_upper c = to_upper d.
Proof.
  unfold eqb_nocase. intros Heq%Ascii.eqb_eq.
  by rewrite <- (to_upper_to_lower c), Heq, to_upper_to_lower.
Qed.

Lemma eqb_nocase_refl (c : ascii) : eqb_nocase c c = true.
Proof. apply Ascii.eqb_refl. Qed.



Lemma upper_nocase (a b : list ascii) :
  Forall2 (fun c d => eqb_nocase c d = true) a b -> upper a = upper b.
Proof.
  induction 1 as [|c d a b Hcd _ IH]; [reflexivity|].
  cbn [upper map]. f_equal; [by apply eqb_nocase_upper|exact IH].
Qed.

Lemma to_upper_digit (c : ascii) : is_digit c = true -> to_upper c = c.
Proof. destruct c as [[] [] [] [] [] [] [] []]; vm_compute; congruence. Qed.

Lemma upper_digits (ds : list ascii) :
  Forall (fun c => is_digit c = true) ds -> upper ds = ds.
Proof.
  induction 1 as [|c ds Hc _ IH]; [reflexivity|].
  cbn [upper map]. f_equal; [by apply to_upper_digit|exact IH].
Qed.

(** X12.  A correlated key always reads as the configured project key in upper
    case, a dash, and one digit or more: whatever the case of the key in
    the pull request and in the configuration, the ticket is named the way
    Jira names it. *)
Theorem correlated_key_is_canonical (project_key text key : string) :
  correlate project_key text = Some key ->
  exists ds,
    key = string_of_list_ascii
            (upper (list_ascii_of_string project_key) ++ "-"%char :: ds)
    /\ ds <> []
    /\ Forall (fun c => is_digit c = true) ds.
Proof.
  unfold correlate. intros Hkey.
  pose proof (correlate_chars_meets_contract (list_ascii_of_string project_key)
                (list_ascii_of_string text)) as Hc.
  destruct (correlate_chars _ _) as [g|]; cbn [option_map] in Hkey; [|discriminate].
  injection Hkey as <-.
  destruct Hc as (pre & m & post & _ & (k & ds & -> & Hk & Hne & Hds & _) & -> & _).
  exists ds. split; [|by split]. f_equal.
  unfold upper. rewrite map_app. cbn [map].
  fold (upper k). fold (upper ds). fold (upper (list_ascii_of_string project_key)).
  rewrite <- (upper_nocase _ _ Hk), (upper_digits _ Hds). reflexivity.
Qed.

Lemma correlated_key_is_canonical_witness :
  exists ds,
    "PROJ-7"%string
    = string_of_list_ascii (upper (list_ascii_of_string "proj") ++ "-"%char :: ds)
    /\ ds <> []
    /\ Forall (fun c => is_digit c = true) ds.
Proof.
  apply (correlated_key_is_canonical "proj" "fix typo feature/Proj-7-typo" "PROJ-7").
  reflexivity.
Defined.







(** *** Title and branch *)










End KeyFacts.

(** ** The poll loop over a whole run *)

Module RunFacts.
Import Py Watch Samples WatchFacts WatchContract.

Lemma keeps_call_bind (Inv : State -> Prop) {A B : Type} (answer : nat -> outcome A)
    (k : A -> M B) :
  keeps Inv (call answer) ->
  (forall c a, answer c = Returned a -> keeps Inv (k a)) ->
  keeps Inv (bind (call answer) k).
Proof.
  intros Hcall Hk st Hst. specialize (Hcall st Hst). unfold bind, call in *.
  cbn [snd] in Hcall.
  destruct (answer (calls st)) as [a|e] eqn:Hanswer; cbn [snd]; [|exact Hcall].
  by apply (Hk (calls st) a Hanswer).
Qed.

Lemma keeps_for_each_in (Inv : State -> Prop) {A : Type} (body : A -> M unit)
    (l : list A) :
  (forall x, In x l -> keeps Inv (body x)) -> keeps Inv (for_each body l).
Proof.
  induction l as [|x l IH]; intros Hbody; [apply keeps_ret|].
  cbn [for_each]. apply keeps_bind; [apply Hbody; by left|].
  intros _. apply IH. intros y Hy. apply Hbody. by right.
Qed.

(** A turn keeps what its calls, its two loop bodies and its error line
    keep; for the pull requests it is enough to look at those GitHub
    returns. *)
Lemma keeps_tick (Inv : State -> Prop) (env : Env) (cfg : Config) :
  (forall (A : Type) (answer : nat -> outcome A), keeps Inv (call answer)) ->
  (forall ticket, keeps Inv (process_ticket env ticket)) ->
  (forall c prs pr, list_pull_requests env c = Returned prs -> In pr prs ->
                    keeps Inv (handle_pr env cfg pr)) ->
  (forall m, keeps Inv (print m)) ->
  forall st, Inv st -> Inv (tick env cfg st).
Proof.
  intros Hcall Hticket Hpr Hprint st Hst. unfold tick.
  assert (Hpoll : keeps Inv (poll env cfg)).
  { unfold poll, poll_jira, poll_github.
    apply keeps_bind; [|intros _].
    - repeat (apply keeps_bind; [|intros ?]); auto using keeps_for_each.
    - apply keeps_call_bind; [apply Hcall|]. intros c prs Hprs.
      apply keeps_bind; [|intros _; apply Hcall].
      apply keeps_for_each_in. intros pr Hin. by apply (Hpr c prs pr). }
  specialize (Hpoll st Hst).
  destruct (poll env cfg st) as [[[]|e] st']; cbn [snd] in *; [done|].
  by apply Hprint.
Qed.

Lemma count_events_print (p : event -> bool) (tr : list event) (m : message) :
  (forall m, p (EvPrint m) = false) ->
  count_events p (tr ++ [EvPrint m]) = count_events p tr.
Proof.
  intros Hp. rewrite count_events_app. unfold count_events at 2.
  cbn [List.filter]. rewrite Hp. cbn. lia.
Qed.

(** *** A cached pull request *)

Lemma settled_process_ticket (n : Z) (c : nat) (env : Env) (ticket : Ticket) :
  keeps (settled n c) (process_ticket env ticket).
Proof.
  intros st [Hin Hcount]. unfold settled in *.
  destruct (decide (key ticket ∈ processing_tickets st)) as [Hk|Hk].
  { by rewrite process_ticket_skip. }
  destruct (process_single_ticket env (calls st) (key ticket)) as [result|e] eqn:Hcall.
  - destruct (eq_str (result_get "status" result) "completed") eqn:Hstatus.
    + rewrite (process_ticket_completed _ _ _ _ Hk Hcall Hstatus).
      cbn [snd trace processed_prs]. rewrite count_events_app. cbn. split; [done|lia].
    + rewrite (process_ticket_not_completed _ _ _ _ Hk Hcall Hstatus).
      cbn [snd trace processed_prs]. rewrite count_events_app. cbn. split; [done|lia].
  - rewrite (process_ticket_raised _ _ _ _ Hk Hcall).
    cbn [snd trace processed_prs]. rewrite count_events_app. cbn. split; [done|lia].
Qed.

Lemma settled_handle_pr (n : Z) (c : nat) (env : Env) (cfg : Config) (pr : PullRequest) :
  keeps (settled n c) (handle_pr env cfg pr).
Proof.
  intros st [Hin Hcount]. unfold settled in *.
  destruct (truthy (merged_at pr)) eqn:Hm; [|by rewrite handle_pr_unmerged].
  destruct (decide (number pr ∈ processed_prs st)) as [Hcached|Hnew].
  { by rewrite handle_pr_cached. }
  assert (Hne : Z.eqb (number pr) n = false).
  { apply Z.eqb_neq. intros Heq. apply Hnew. by rewrite Heq. }
  destruct (correlated cfg pr) as [k|] eqn:Hkey.
  - destruct (transition_ticket_to_done env (calls st) k) as [result|e] eqn:Hcall.
    + rewrite (handle_pr_returned _ _ _ _ _ _ Hm Hnew Hkey Hcall).
      cbn [snd trace processed_prs]. split; [set_solver|].
      rewrite count_events_app. unfold count_events at 2.
      cbn [List.filter is_transition_of]. rewrite Hne. cbn. lia.
    + rewrite (handle_pr_raised _ _ _ _ _ _ Hm Hnew Hkey Hcall).
      cbn [snd trace processed_prs]. split; [done|].
      rewrite count_events_app. unfold count_events at 2.
      cbn [List.filter is_transition_of]. rewrite Hne. cbn. lia.
  - rewrite (handle_pr_no_key _ _ _ _ Hm Hnew Hkey).
    cbn [snd trace processed_prs]. split; [set_solver|done].
Qed.

(** X15.  Once a pull request is cached it stays cached for the rest of the run,
    and no transition is attempted for it again, whatever GitHub, Jira and
    the agent answer. *)
Theorem cached_pr_is_settled (env : Env) (cfg : Config) (turns : nat) (st : State)
    (n : Z) :
  n ∈ processed_prs st ->
  n ∈ processed_prs (handle_watch env cfg turns st)
  /\ count_events (is_transition_of n) (trace (handle_watch env cfg turns st))
     = count_events (is_transition_of n) (trace st).
Proof.
  intros Hin.
  apply (keeps_handle_watch (settled n (count_events (is_transition_of n) (trace st))));
    [|by split].
  apply keeps_tick.
  - by intros A answer st' Hst'.
  - apply settled_process_ticket.
  - intros _ _ pr _ _. apply settled_handle_pr.
  - intros m st' [Hin' Hcount']. split; [exact Hin'|].
    unfold print, record. cbn [snd trace]. by rewrite count_events_print.
Qed.

Lemma cached_pr_is_settled_witness :
  count_events (is_transition_of 5)
    (trace (handle_watch env_ok cfg0 3 (tick env_ok cfg0 initial)))
  = count_events (is_transition_of 5) (trace (tick env_ok cfg0 initial)).
Proof.
  apply (cached_pr_is_settled env_ok cfg0 3 (tick env_ok cfg0 initial) 5).
  by compute_done.
Defined.

(** *** A ticket in progress *)

Lemma in_progress_handle_pr (k : string) (c : nat) (env : Env) (cfg : Config)
    (pr : PullRequest) :
  never_transitions env k ->
  keeps (in_progress k c) (handle_pr env cfg pr).
Proof.
  intros Hnever st [Hin Hcount]. unfold in_progress in *.
  destruct (truthy (merged_at pr)) eqn:Hm; [|by rewrite handle_pr_unmerged].
  destruct (decide (number pr ∈ processed_prs st)) as [Hcached|Hnew].
  { by rewrite handle_pr_cached. }
  destruct (correlated cfg pr) as [k'|] eqn:Hkey.
  - destruct (transition_ticket_to_done env (calls st) k') as [result|e] eqn:Hcall.
    + rewrite (handle_pr_returned _ _ _ _ _ _ Hm Hnew Hkey Hcall).
      cbn [snd trace processing_tickets]. split.
      * destruct (truthy (result_get "success" result)) eqn:Hsuccess; [|exact Hin].
        apply elem_of_difference. split; [exact Hin|].
        intros ->%elem_of_singleton.
        by rewrite (Hnever _ _ Hcall) in Hsuccess.
      * rewrite count_events_app. cbn. lia.
    + rewrite (handle_pr_raised _ _ _ _ _ _ Hm Hnew Hkey Hcall).
      cbn [snd trace processing_tickets]. split; [exact Hin|].
      rewrite count_events_app. cbn. lia.
  - by rewrite (handle_pr_no_key _ _ _ _ Hm Hnew Hkey).
Qed.

(** X16.  A ticket that is in progress is not handed to the agent again, in this
    turn or in any later one, and stays in progress, for as long as no
    transition of it succeeds: however often Jira returns it, and also
    when its pull request is merged and the transition is refused. *)
Theorem ticket_in_progress_is_not_processed_again (env : Env) (cfg : Config)
    (turns : nat) (st : State) (k : string) :
  k ∈ processing_tickets st ->
  never_transitions env k ->
  k ∈ processing_tickets (handle_watch env cfg turns st)
  /\ count_events (is_process_of k) (trace (handle_watch env cfg turns st))
     = count_events (is_process_of k) (trace st).
Proof.
  intros Hin Hnever.
  apply (keeps_handle_watch (in_progress k (count_events (is_process_of k) (trace st))));
    [|by split].
  apply keeps_tick.
  - by intros A answer st' Hst'.
  - intros ticket st' [Hin' Hcount'].
    destruct (process_ticket_keeps env ticket st' k Hin') as [Hk Hc].
    split; [exact Hk|congruence].
  - intros _ _ pr _ _. by apply in_progress_handle_pr.
  - intros m st' [Hin' Hcount']. split; [exact Hin'|].
    unfold print, record. cbn [snd trace]. by rewrite count_events_print.
Qed.

Lemma ticket_in_progress_is_not_processed_again_witness :
  "PROJ-100"%string
    ∈ processing_tickets
        (handle_watch env_transition_refused cfg0 2 (tick env_transition_refused cfg0 initial))
  /\ count_events (is_process_of "PROJ-100")
       (trace (handle_watch env_transition_refused cfg0 2
                 (tick env_transition_refused cfg0 initial)))
     = count_events (is_process_of "PROJ-100")
         (trace (tick env_transition_refused cfg0 initial)).
Proof.
  apply (ticket_in_progress_is_not_processed_again env_transition_refused cfg0 2
           (tick env_transition_refused cfg0 initial) "PROJ-100").
  - by compute_done.
  - intros c result [= <-]. reflexivity.
Defined.

Lemma handed_over_process_ticket (env : Env) (ticket : Ticket) :
  keeps handed_over (process_ticket env ticket).
Proof.
  intros st Hst. unfold handed_over in *.
  destruct (decide (key ticket ∈ processing_tickets st)) as [Hk|Hk].
  { by rewrite process_ticket_skip. }
  assert (Hstep : forall k : string,
            k ∈ ({[key ticket]} ∪ processing_tickets st : gset string) ->
            1 <= count_events (is_process_of k) (trace st)
                 + (if String.eqb (key ticket) k then 1 else 0)).
  { intros k [->%elem_of_singleton|Hin]%elem_of_union.
    - rewrite String.eqb_refl. lia.
    - specialize (Hst k Hin). lia. }
  destruct (process_single_ticket env (calls st) (key ticket)) as [result|e] eqn:Hcall.
  - destruct (eq_str (result_get "status" result) "completed") eqn:Hstatus.
    + rewrite (process_ticket_completed _ _ _ _ Hk Hcall Hstatus).
      cbn [snd trace processing_tickets]. intros k Hin.
      rewrite count_process_step. by apply Hstep.
    + rewrite (process_ticket_not_completed _ _ _ _ Hk Hcall Hstatus).
      cbn [snd trace processing_tickets]. intros k [Hin _]%elem_of_difference.
      rewrite count_process_step. by apply Hstep.
  - rewrite (process_ticket_raised _ _ _ _ Hk Hcall).
    cbn [snd trace processing_tickets]. intros k Hin.
    rewrite count_process_step_raised. by apply Hstep.
Qed.

Lemma handed_over_handle_pr (env : Env) (cfg : Config) (pr : PullRequest) :
  keeps handed_over (handle_pr env cfg pr).
Proof.
  intros st Hst. unfold handed_over in *.
  destruct (truthy (merged_at pr)) eqn:Hm; [|by rewrite handle_pr_unmerged].
  destruct (decide (number pr ∈ processed_prs st)) as [Hcached|Hnew].
  { by rewrite handle_pr_cached. }
  destruct (correlated cfg pr) as [k'|] eqn:Hkey.
  - destruct (transition_ticket_to_done env (calls st) k') as [result|e] eqn:Hcall.
    + rewrite (handle_pr_returned _ _ _ _ _ _ Hm Hnew Hkey Hcall).
      cbn [snd trace processing_tickets]. intros k Hin.
      assert (Hold : k ∈ processing_tickets st).
      { destruct (truthy (result_get "success" result)); [|exact Hin].
        by apply elem_of_difference in Hin as [Hin _]. }
      specialize (Hst k Hold). rewrite count_events_app. lia.
    + rewrite (handle_pr_raised _ _ _ _ _ _ Hm Hnew Hkey Hcall).
      cbn [snd trace processing_tickets]. intros k Hin.
      specialize (Hst k Hin). rewrite count_events_app. lia.
  - by rewrite (handle_pr_no_key _ _ _ _ Hm Hnew Hkey).
Qed.

(** X17.  At any point of a run, every ticket in [processing_tickets] is one the
    agent was asked to process: the set never holds a key the loop did not
    act on. *)
Theorem tickets_in_progress_were_handed_over (env : Env) (cfg : Config)
    (turns : nat) (k : string) :
  k ∈ processing_tickets (handle_watch env cfg turns initial) ->
  1 <= count_events (is_process_of k) (trace (handle_watch env cfg turns initial)).
Proof.
  revert k. change (handed_over (handle_watch env cfg turns initial)).
  apply keeps_handle_watch.
  - apply keeps_tick.
    + by intros A answer st' Hst'.
    + apply handed_over_process_ticket.
    + intros _ _ pr _ _. apply handed_over_handle_pr.
    + intros m st' Hst' k Hin. specialize (Hst' k Hin).
      unfold print, record. cbn [snd trace]. by rewrite count_events_print.
  - intros k Hin. by apply not_elem_of_empty in Hin.
Qed.

Lemma tickets_in_progress_were_handed_over_witness :
  1 <= count_events (is_process_of "PROJ-101") (trace (handle_watch env_ok cfg0 2 initial)).
Proof.
  apply (tickets_in_progress_were_handed_over env_ok cfg0 2 "PROJ-101").
  by compute_done.
Defined.

(** *** A pull request that is not merged *)

Lemma untouched_process_ticket (n : Z) (env : Env) (ticket : Ticket) :
  keeps (untouched n) (process_ticket env ticket).
Proof.
  intros st [Hcount Hout]. unfold untouched in *.
  destruct (decide (key ticket ∈ processing_tickets st)) as [Hk|Hk].
  { by rewrite process_ticket_skip. }
  destruct (process_single_ticket env (calls st) (key ticket)) as [result|e] eqn:Hcall.
  - destruct (eq_str (result_get "status" result) "completed") eqn:Hstatus.
    + rewrite (process_ticket_completed _ _ _ _ Hk Hcall Hstatus).
      cbn [snd trace processed_prs]. rewrite count_events_app. cbn. split; [lia|done].
    + rewrite (process_ticket_not_completed _ _ _ _ Hk Hcall Hstatus).
      cbn [snd trace processed_prs]. rewrite count_events_app. cbn. split; [lia|done].
  - rewrite (process_ticket_raised _ _ _ _ Hk Hcall).
    cbn [snd trace processed_prs]. rewrite count_events_app. cbn. split; [lia|done].
Qed.

Lemma untouched_handle_pr (n : Z) (env : Env) (cfg : Config) (pr : PullRequest) :
  (number pr = n -> truthy (merged_at pr) = false) ->
  keeps (untouched n) (handle_pr env cfg pr).
Proof.
  intros Hpr st [Hcount Hout]. unfold untouched in *.
  destruct (truthy (merged_at pr)) eqn:Hm; [|by rewrite handle_pr_unmerged].
  destruct (decide (number pr ∈ processed_prs st)) as [Hcached|Hnew].
  { by rewrite handle_pr_cached. }
  assert (Hne : number pr <> n) by (intros Heq; by specialize (Hpr Heq)).
  assert (Hneb : Z.eqb (number pr) n = false) by (by apply Z.eqb_neq).
  assert (Hout' : n ∉ ({[number pr]} ∪ processed_prs st : gset Z)).
  { intros [Heq%elem_of_singleton|Hin]%elem_of_union; [by apply Hne|by apply Hout]. }
  destruct (correlated cfg pr) as [k|] eqn:Hkey.
  - destruct (transition_ticket_to_done env (calls st) k) as [result|e] eqn:Hcall.
    + rewrite (handle_pr_returned _ _ _ _ _ _ Hm Hnew Hkey Hcall).
      cbn [snd trace processed_prs]. split; [|exact Hout'].
      rewrite count_events_app. unfold count_events at 2.
      cbn [List.filter is_transition_of]. rewrite Hneb. cbn. lia.
    + rewrite (handle_pr_raised _ _ _ _ _ _ Hm Hnew Hkey Hcall).
      cbn [snd trace processed_prs]. split; [|exact Hout].
      rewrite count_events_app. unfold count_events at 2.
      cbn [List.filter is_transition_of]. rewrite Hneb. cbn. lia.
  - rewrite (handle_pr_no_key _ _ _ _ Hm Hnew Hkey).
    cbn [snd trace processed_prs]. by split.
Qed.

(** X18.  A pull request that GitHub never reports as merged is left alone for
    the whole run: no transition is ever attempted for it and it is never
    cached, so every poll looks at it afresh. *)
Theorem unmerged_pr_is_left_alone (env : Env) (cfg : Config) (turns : nat) (n : Z) :
  never_merged env n ->
  count_events (is_transition_of n) (trace (handle_watch env cfg turns initial)) = 0
  /\ n ∉ processed_prs (handle_watch env cfg turns initial).
Proof.
  intros Hnever. apply (keeps_handle_watch (untouched n)).
  - apply keeps_tick.
    + by intros A answer st' Hst'.
    + apply untouched_process_ticket.
    + intros c prs pr Hprs Hin. apply untouched_handle_pr.
      by apply (Hnever c prs pr Hprs Hin).
    + intros m st' [Hcount Hout]. split; [|exact Hout].
      unfold print, record. cbn [snd trace]. by rewrite count_events_print.
  - split; [reflexivity|]. apply not_elem_of_empty.
Qed.

Lemma unmerged_pr_is_left_alone_witness :
  count_events (is_transition_of 7) (trace (handle_watch env_ok cfg0 3 initial)) = 0
  /\ 7%Z ∉ processed_prs (handle_watch env_ok cfg0 3 initial).
Proof.
  apply (unmerged_pr_is_left_alone env_ok cfg0 3 7).
  intros c prs pr [= <-] [<-|[<-|[<-|[]]]]; [discriminate|reflexivity|discriminate].
Defined.

(** *** Jira cannot be reached *)

(** X19.  When the Jira stage fails before the tickets are read, the turn ends
    with the error line: no ticket is processed, the pull requests are not
    listed, so no merge is acted on in that turn, and the two sets are as
    they were. *)
Theorem jira_failure_skips_the_turn (env : Env) (cfg : Config) (st : State)
    (e : string) :
  jira_fails env st e ->
  processed_prs (tick env cfg st) = processed_prs st
  /\ processing_tickets (tick env cfg st) = processing_tickets st
  /\ trace (tick env cfg st) = trace st ++ [EvPrint (PollError e)].
Proof.
  intros Hfails.
  assert (Hturn : exists c, tick env cfg st
                            = {| processed_prs := processed_prs st;
                                 processing_tickets := processing_tickets st;
                                 calls := c;
                                 trace := trace st ++ [EvPrint (PollError e)] |}).
  { destruct Hfails as [Hopen|[Hopen Hsearch]];
      unfold tick, poll, poll_jira, bind, call; cbn [calls]; rewrite Hopen;
      [|cbn [calls]; rewrite Hsearch]; eexists; reflexivity. }
  destruct Hturn as [c Hturn]. by rewrite Hturn.
Qed.

Lemma jira_failure_skips_the_turn_witness :
  trace (tick env_jira_down cfg0 initial) = [EvPrint (PollError "401 Unauthorized")].
Proof.
  apply (jira_failure_skips_the_turn env_jira_down cfg0 initial "401 Unauthorized").
  by left.
Defined.
End RunFacts.

(** ** The commands and the environment check *)

Module CliFacts.
Import Py Cli TrackerFacts.

Lemma length_append (a b : string) :
  String.length (a +:+ b) = String.length a + String.length b.
Proof.
  induction a as [|c a IH]; [by rewrite append_nil|].
  rewrite append_cons. cbn [String.length]. by rewrite IH.
Qed.

Lemma length_spaces (n : nat) : String.length (spaces n) = n.
Proof. induction n as [|n IH]; cbn [spaces String.length]; [done|by rewrite IH]. Qed.

Lemma length_ljust (width : nat) (s : string) :
  String.length (ljust width s) = Nat.max width (String.length s).
Proof. unfold ljust. rewrite length_append, length_spaces. lia. Qed.

Lemma length_substring_0 (n : nat) (s : string) :
  String.length (substring 0 n s) = Nat.min n (String.length s).
Proof.
  revert s. induction n as [|n IH]; intros [|c s]; cbn [substring String.length]; try done.
  by rewrite IH.
Qed.

Lemma substring_0_prefix (n : nat) (s : string) :
  exists rest, s = substring 0 n s +:+ rest.
Proof.
  revert s. induction n as [|n IH]; intros [|c s]; cbn [substring].
  - by exists EmptyString.
  - exists (String c s). by rewrite append_nil.
  - by exists EmptyString.
  - destruct (IH s) as [rest Hrest]. exists rest. by rewrite append_cons, <- Hrest.
Qed.

(** What [shorten] does to a text: at most [limit] characters are left; a
    text that fits is kept; a longer one is cut to exactly [limit]
    characters, of which all but the three dots are the start of the
    text. *)
Lemma shorten_spec (limit keep : nat) (text : string) :
  keep + 3 = limit ->
  String.length (shorten limit keep text) <= limit
  /\ (String.length text <= limit -> shorten limit keep text = text)
  /\ (limit < String.length text ->
      String.length (shorten limit keep text) = limit
      /\ exists rest, text = substring 0 keep text +:+ rest
                      /\ shorten limit keep text = substring 0 keep text +:+ "...").
Proof.
  intros Hkeep. unfold shorten.
  destruct (Nat.ltb_spec limit (String.length text)) as [Hlong|Hfits].
  - assert (Hlen : String.length (substring 0 keep text +:+ "...") = limit).
    { rewrite length_append, length_substring_0. cbn [String.length]. lia. }
    split; [lia|]. split; [lia|]. intros _. split; [exact Hlen|].
    destruct (substring_0_prefix keep text) as [rest Hrest]. by exists rest.
  - split; [exact Hfits|]. split; [done|lia].
Qed.

(** *** The listings *)

(** X20.  In the listing of pull requests a title is cut to 45 characters, and a
    title that fits is printed whole.  When the number, the state and the
    ticket fit their columns, the title starts below the heading [Title],
    at column 29, and the line is at most 74 characters long, inside the
    rule of 80. *)
Theorem list_prs_row_lines_up (project_key : string) (pr : ListedPR) :
  String.length (pretty (number pr)) <= 5 ->
  String.length (state_column pr) <= 8 ->
  String.length (ticket_column project_key pr) <= 12 ->
  String.length (pr_row_lead project_key pr) = String.length prs_header_lead
  /\ String.length prs_header_lead = 29
  /\ String.length (pr_row project_key pr) <= 74
  /\ (String.length (title pr) <= 45 -> title_column pr = title pr)
  /\ (45 < String.length (title pr) ->
      title_column pr = substring 0 42 (title pr) +:+ "...").
Proof.
  intros Hnumber Hstate Hticket.
  assert (Hlead : String.length (pr_row_lead project_key pr) = 29).
  { unfold pr_row_lead. rewrite !length_append, !length_ljust.
    cbn [String.length]. lia. }
  destruct (shorten_spec 45 42 (title pr) eq_refl) as (Hmax & Hfits & Hcut).
  split; [by rewrite Hlead|]. split; [reflexivity|]. split; [|split].
  - unfold pr_row, title_column. rewrite length_append, Hlead. lia.
  - exact Hfits.
  - intros Hlong. by destruct (Hcut Hlong) as (_ & rest & _ & Heq).
Qed.

Lemma list_prs_row_lines_up_witness :
  String.length (pr_row "PROJ" long_pr) <= 74
  /\ title_column long_pr = "feat: add the weekly revenue metric to the..."%string.
Proof.
  assert (Hn : String.length (pretty (number long_pr)) <= 5) by (vm_compute; lia).
  assert (Hs : String.length (state_column long_pr) <= 8) by (vm_compute; lia).
  assert (Ht : String.length (ticket_column "PROJ" long_pr) <= 12) by (vm_compute; lia).
  destruct (list_prs_row_lines_up "PROJ" long_pr Hn Hs Ht) as (_ & _ & Hrow & _ & Hcut).
  split; [exact Hrow|]. rewrite Hcut; [reflexivity|vm_compute; lia].
Defined.

(** X21.  In the listing of tickets a summary is cut to 40 characters, and one
    that fits is printed whole.  When the key, the status and the type fit
    their columns, the summary starts below the heading [Summary], at
    column 47, and the line is at most 87 characters long.  The label of a
    ticket in the interactive selection cuts the summary to 45
    characters. *)
Theorem list_tickets_row_lines_up (t : ListedTicket) :
  String.length (key t) <= 12 ->
  String.length (status_name t) <= 20 ->
  String.length (issue_type t) <= 12 ->
  String.length (ticket_row_lead t) = String.length tickets_header_lead
  /\ String.length tickets_header_lead = 47
  /\ String.length (ticket_row t) <= 87
  /\ (String.length (summary t) <= 40 ->
      ticket_row t = ticket_row_lead t +:+ summary t)
  /\ (40 < String.length (summary t) ->
      ticket_row t = ticket_row_lead t +:+ substring 0 37 (summary t) +:+ "...")
  /\ (String.length (status_name t) <= 15 ->
      String.length (choice_label t) <= 76).
Proof.
  intros Hkey Hstatus Htype.
  assert (Hlead : String.length (ticket_row_lead t) = 47).
  { unfold ticket_row_lead. rewrite !length_append, !length_ljust.
    cbn [String.length]. lia. }
  destruct (shorten_spec 40 37 (summary t) eq_refl) as (Hmax & Hfits & Hcut).
  destruct (shorten_spec 45 42 (summary t) eq_refl) as (Hmax' & _).
  split; [by rewrite Hlead|]. split; [reflexivity|].
  split; [|split; [|split]].
  - unfold ticket_row. rewrite length_append, Hlead. lia.
  - intros Hshort. unfold ticket_row. by rewrite (Hfits Hshort).
  - intros Hlong. unfold ticket_row.
    by destruct (Hcut Hlong) as (_ & rest & _ & ->).
  - intros Hstatus'. unfold choice_label.
    rewrite !length_append, !length_ljust. cbn [String.length]. lia.
Qed.

Lemma list_tickets_row_lines_up_witness :
  String.length (ticket_row some_ticket) <= 87
  /\ ticket_row some_ticket
     = ticket_row_lead some_ticket +:+ "Add the weekly revenue metric to the ...".
Proof.
  assert (Hk : String.length (key some_ticket) <= 12) by (vm_compute; lia).
  assert (Hs : String.length (status_name some_ticket) <= 20) by (vm_compute; lia).
  assert (Ht : String.length (issue_type some_ticket) <= 12) by (vm_compute; lia).
  destruct (list_tickets_row_lines_up some_ticket Hk Hs Ht) as (_ & _ & Hrow & _ & Hcut & _).
  split; [exact Hrow|]. rewrite Hcut; [reflexivity|vm_compute; lia].
Defined.

(** *** The one-ticket commands *)

Lemma exit_code_spec (status : value) :
  (exit_code status = 0%Z <-> status = VStr "completed" \/ status = VStr "skipped")
  /\ (exit_code status = 1%Z <-> status_icon status = Cross)
  /\ (exit_code status = 0%Z \/ exit_code status = 1%Z).
Proof.
  unfold exit_code, status_icon.
  destruct (eq_str status "completed") eqn:Hc; [apply eq_str_true in Hc|];
    [|destruct (eq_str status "skipped") eqn:Hs; [apply eq_str_true in Hs|]];
    cbn [orb].
  - split; [split; [by left|done]|]. split; [by split|by left].
  - split; [split; [by right|done]|]. split; [by split|by left].
  - apply eq_str_false in Hc, Hs.
    split; [split; [done|by intros [?|?]]|]. split; [by split|by right].
Qed.

Lemma report_spec (result : dict value) (code : Z) :
  fst (report result) = Returned code ->
  exists status ticket,
    dict_get "status" result = Some status
    /\ dict_get "ticket" result = Some ticket
    /\ code = exit_code status
    /\ snd (report result)
       = [ResultLine (status_icon status) ticket status]
         ++ optional_line PRLine "pr_url" result
         ++ optional_line ErrorLine "error" result.
Proof.
  unfold report, item.
  destruct (dict_get "status" result) as [status|]; [|discriminate].
  destruct (dict_get "ticket" result) as [ticket|]; [|discriminate].
  cbn [fst snd]. intros [= <-]. by exists status, ticket.
Qed.

Lemma optional_line_in (mk : value -> line) (k : string) (result : dict value)
    (l : line) :
  In l (optional_line mk k result) -> exists v, l = mk v.
Proof.
  unfold optional_line. destruct (dict_get k result) as [v|]; [|by intros []].
  destruct (truthy v); [|by intros []]. intros [<-|[]]. by exists v.
Qed.

Lemma result_line_of_report (result : dict value) (mark : icon) (t s : value) :
  In (ResultLine mark t s) (snd (report result)) ->
  exists code, fst (report result) = Returned code
               /\ dict_get "status" result = Some s /\ mark = status_icon s.
Proof.
  unfold report, item.
  destruct (dict_get "status" result) as [status|]; [|by intros []].
  destruct (dict_get "ticket" result) as [ticket|]; [|by intros []].
  cbn [fst snd app]. intros [Heq|Hin].
  - injection Heq as <- <- <-. by eexists.
  - exfalso. apply in_app_or in Hin as [Hin|Hin];
      apply optional_line_in in Hin as [v Hv]; discriminate Hv.
Qed.

(** X22.  [handle_process_ticket] exits with 0 exactly when the agent was run
    and returned a result whose status is [completed] or [skipped].  It
    runs the agent at most once, for the ticket and in the mode it was
    given, and not at all without a configuration or a repository; and
    when it prints the mark of the result, the mark is the cross exactly
    when the exit code is 1. *)
Theorem process_ticket_exit_code (ticket_key : string) (config_path repo_name : value)
    (dry_run : bool) (load : outcome unit)
    (agent : bool -> string -> outcome (dict value)) :
  (ended (handle_process_ticket ticket_key config_path repo_name dry_run load agent)
   = Returned 0%Z
   <-> (truthy config_path = true \/ truthy repo_name = true)
       /\ load = Returned tt
       /\ exists result status,
            agent dry_run ticket_key = Returned result
            /\ dict_get "status" result = Some status
            /\ dict_get "ticket" result <> None
            /\ (status = VStr "completed" \/ status = VStr "skipped"))
  /\ (runs (handle_process_ticket ticket_key config_path repo_name dry_run load agent) = []
      \/ runs (handle_process_ticket ticket_key config_path repo_name dry_run load agent)
         = [mkAgentRun ticket_key dry_run])
  /\ (truthy config_path = false -> truthy repo_name = false ->
      handle_process_ticket ticket_key config_path repo_name dry_run load agent
      = {| ended := Returned 1%Z; printed := [ConfigError]; runs := [] |})
  /\ (forall mark t s code,
        In (ResultLine mark t s)
           (printed (handle_process_ticket ticket_key config_path repo_name dry_run
                       load agent)) ->
        ended (handle_process_ticket ticket_key config_path repo_name dry_run load agent)
        = Returned code ->
        (mark = Cross <-> code = 1%Z)).
Proof.
  unfold handle_process_ticket, run_agent.
  destruct (truthy config_path) eqn:Hcfg, (truthy repo_name) eqn:Hrepo; cbn [negb andb].
  4: { split; [split; [discriminate|by intros [[?|?] _]]|].
       split; [by left|]. split; [done|]. by intros mark t s code [|[]]. }
  all: destruct load as [[]|e]; cbn [ended runs printed].
  all: try (split; [split; [discriminate|by intros (_ & ? & _)]|];
            split; [by left|]; split; [done|by intros mark t s code []]).
  all: destruct (agent dry_run ticket_key) as [result|e] eqn:Hagent;
    cbn [ended runs printed app].
  all: try (split; [split; [discriminate|by intros (_ & _ & ? & ? & ? & _)]|];
            split; [by right|]; split; [done|by intros mark t s code []]).
  all: (split; [|split; [by right|split; [done|]]]).
  all: try (intros mark t s code Hin Hcode;
            apply result_line_of_report in Hin as (code' & Hcode' & Hs & ->);
            apply report_spec in Hcode as (status & ticket & Hs' & _ & -> & _);
            rewrite Hs in Hs'; injection Hs' as <-;
            destruct (exit_code_spec s) as (_ & Hcross & _); by rewrite Hcross).
  all: split.
  all: try (intros Hzero; apply report_spec in Hzero as (status & ticket & Hs & Ht & Hc & _);
            split; [auto|]; split; [reflexivity|]; exists result, status;
            split; [reflexivity|]; split; [exact Hs|]; split; [by rewrite Ht|];
            destruct (exit_code_spec status) as (Hz & _); by apply Hz).
  all: intros (_ & _ & result' & status & [= <-] & Hs & Ht & Hstatus);
    unfold report, item; rewrite Hs;
    destruct (dict_get "ticket" result) as [ticket|]; [|done]; cbn [fst];
    f_equal; destruct (exit_code_spec status) as (Hz & _); by apply Hz.
Qed.


(** *** A new configuration *)

Lemma split_slash_spec (repo : string) :
  has_slash repo = true ->
  repo = fst (split_slash repo) +:+ "/" +:+ snd (split_slash repo)
  /\ has_slash (fst (split_slash repo)) = false.
Proof.
  induction repo as [|c repo IH]; cbn [has_slash split_slash]; [discriminate|].
  destruct (Ascii.eqb_spec c "/") as [->|Hc]; cbn [orb fst snd].
  - intros _. by rewrite append_nil, append_cons, append_nil.
  - intros Hrest. destruct (IH Hrest) as [Heq Hno].
    rewrite append_cons, <- Heq. split; [reflexivity|].
    cbn [has_slash]. rewrite Hno. by destruct (Ascii.eqb_spec c "/").
Qed.

(** X24.  [handle_init_config] accepts a repository exactly when its name holds
    a slash.  The owner is then the text before the first slash and the
    name all the text after it, so that owner, slash and name read as the
    repository again; the file goes to the path given, or to
    [configs/OWNER-NAME.yaml] when none is given. *)
Theorem init_config_splits_at_first_slash (repo : string) (output_path : value) :
  (fst (handle_init_config repo output_path) = 0%Z <-> has_slash repo = true)
  /\ (has_slash repo = false -> handle_init_config repo output_path = (1%Z, None))
  /\ (forall path owner name,
        snd (handle_init_config repo output_path) = Some (path, owner, name) ->
        repo = owner +:+ "/" +:+ name
        /\ has_slash owner = false
        /\ path = (if truthy output_path then output_path
                   else VStr ("configs/" +:+ owner +:+ "-" +:+ name +:+ ".yaml"))).
Proof.
  unfold handle_init_config.
  destruct (has_slash repo) eqn:Hslash; cbn [negb].
  - destruct (split_slash_spec repo Hslash) as [Heq Hno].
    destruct (split_slash repo) as [owner name]. cbn [fst snd] in *.
    split; [by split|]. split; [discriminate|].
    intros path owner' name' [= <- <- <-]. split; [exact Heq|]. split; [exact Hno|].
    by destruct (truthy output_path).
  - split; [by split|]. split; [done|]. intros path owner name. discriminate.
Qed.
End CliFacts.

Module CheckerFacts.
Import Py Checker.

Lemma check_tool_installed (h : Host) (tool : string) (req : bool) :
  installed (check_tool h tool req) = found h tool
  /\ name (check_tool h tool req) = tool
  /\ required (check_tool h tool req) = req.
Proof. unfold check_tool. by destruct (found h tool). Qed.

(** The loop of [check_all], from any report. *)
Lemma check_all_from (h : Host) (l : list (string * bool)) (r : EnvironmentReport) :
  tools (fold_left (check_step h) l r)
  = tools r ++ map (fun t => check_tool h (fst t) (snd t)) l
  /\ missing_required (fold_left (check_step h) l r)
     = missing_required r
       ++ map fst (List.filter (fun t => snd t && negb (found h (fst t))) l)
  /\ missing_optional (fold_left (check_step h) l r)
     = missing_optional r
       ++ map fst (List.filter (fun t => negb (snd t) && negb (found h (fst t))) l).
Proof.
  revert r. induction l as [|[tool req] l IH]; intros r; cbn [fold_left map List.filter].
  - by rewrite !app_nil_r.
  - destruct (IH (check_step h r (tool, req))) as (Ht & Hr & Ho).
    rewrite Ht, Hr, Ho. unfold check_step. cbn [tools missing_required missing_optional fst snd].
    destruct (check_tool_installed h tool req) as (-> & _).
    destruct req, (found h tool); cbn [negb andb map fst app];
      by rewrite <- ?app_assoc.
Qed.

Lemma check_all_report (h : Host) (l : list (string * bool)) :
  map (fun c => (name c, required c)) (tools (check_all h (Some l))) = l
  /\ Forall (fun c => installed c = found h (name c)) (tools (check_all h (Some l)))
  /\ (forall tool,
        In tool (missing_required (check_all h (Some l)))
        <-> In (tool, true) l /\ found h tool = false)
  /\ (forall tool,
        In tool (missing_optional (check_all h (Some l)))
        <-> In (tool, false) l /\ found h tool = false)
  /\ (is_ready (check_all h (Some l)) = true
      <-> forall tool, In (tool, true) l -> found h tool = true).
Proof.
  unfold check_all.
  destruct (check_all_from h l
              {| tools := []; missing_required := []; missing_optional := [] |})
    as (Ht & Hr & Ho).
  cbn [tools missing_required missing_optional app] in Ht, Hr, Ho.
  assert (Hreq : forall tool,
            In tool (map fst (List.filter (fun t => snd t && negb (found h (fst t))) l))
            <-> In (tool, true) l /\ found h tool = false).
  { intros tool. rewrite in_map_iff. split.
    - intros ([tool' req] & <- & [Hin Hp]%filter_In). cbn [fst snd] in *.
      apply andb_true_iff in Hp as [-> Hf%negb_true_iff]. by split.
    - intros [Hin Hf]. exists (tool, true). split; [reflexivity|].
      apply filter_In. split; [exact Hin|]. cbn [fst snd]. by rewrite Hf. }
  assert (Hopt : forall tool,
            In tool (map fst (List.filter
                                (fun t => negb (snd t) && negb (found h (fst t))) l))
            <-> In (tool, false) l /\ found h tool = false).
  { intros tool. rewrite in_map_iff. split.
    - intros ([tool' req] & <- & [Hin Hp]%filter_In). cbn [fst snd] in *.
      apply andb_true_iff in Hp as [->%negb_true_iff Hf%negb_true_iff]. by split.
    - intros [Hin Hf]. exists (tool, false). split; [reflexivity|].
      apply filter_In. split; [exact Hin|]. cbn [fst snd]. by rewrite Hf. }
  rewrite Ht, Hr, Ho. split; [|split; [|split; [|split]]].
  - rewrite map_map. rewrite <- (map_id l) at 2. apply map_ext. intros [tool req].
    cbn [fst snd]. by destruct (check_tool_installed h tool req) as (_ & -> & ->).
  - apply List.Forall_forall. intros c ([tool req] & <- & _)%in_map_iff. cbn [fst snd].
    by destruct (check_tool_installed h tool req) as (-> & -> & _).
  - exact Hreq.
  - exact Hopt.
  - unfold is_ready. cbn [missing_required]. rewrite Hr, Nat.eqb_eq, length_zero_iff_nil.
    split.
    + intros Hnil tool Hin. destruct (found h tool) eqn:Hf; [reflexivity|].
      assert (Hm : In tool (map fst (List.filter
                                       (fun t => snd t && negb (found h (fst t))) l)))
        by (by apply Hreq).
      rewrite Hnil in Hm. destruct Hm.
    + intros Hall.
      destruct (map fst (List.filter (fun t => snd t && negb (found h (fst t))) l))
        as [|tool rest]; [reflexivity|].
      destruct (proj1 (Hreq tool) (or_introl eq_refl)) as [Hin Hf].
      by rewrite (Hall tool Hin) in Hf.
Qed.

(** X25.  The report of [check_all] holds one check for each tool asked for, in
    order; a tool is missing when its command is not found, and is then
    listed among the required or the optional ones as it was asked for;
    and the environment is ready exactly when every required tool was
    found, whatever optional tools are missing. *)
Theorem environment_ready_iff_required_found (h : Host)
    (tool_list : option (list (string * bool))) :
  map (fun c => (name c, required c)) (tools (check_all h tool_list))
  = default default_tools tool_list
  /\ Forall (fun c => installed c = found h (name c)) (tools (check_all h tool_list))
  /\ (forall tool,
        In tool (missing_required (check_all h tool_list))
        <-> In (tool, true) (default default_tools tool_list) /\ found h tool = false)
  /\ (forall tool,
        In tool (missing_optional (check_all h tool_list))
        <-> In (tool, false) (default default_tools tool_list) /\ found h tool = false)
  /\ (is_ready (check_all h tool_list) = true
      <-> forall tool, In (tool, true) (default default_tools tool_list) ->
                       found h tool = true).
Proof.
  replace (check_all h tool_list)
    with (check_all h (Some (default default_tools tool_list)))
    by (by destruct tool_list).
  apply check_all_report.
Qed.

Lemma in_repo_tools_required (r : Repo) (tool : string) :
  In (tool, true) (repo_tools r) ->
  tool <> "make"%string /\ tool <> "docker"%string.
Proof.
  unfold repo_tools. intros Hin.
  repeat (apply in_app_or in Hin as [Hin|Hin]);
    repeat match goal with
           | H : In _ (if ?b then _ else _) |- _ => destruct b
           | H : In _ (match ?o with Some _ => _ | None => _ end) |- _ => destruct o
           end;
    cbn [In] in Hin; intuition (try discriminate); by simplify_eq.
Qed.

(** X26.  Whatever a repository holds, checking the environment for it asks for
    Python, pip and git: when the environment is ready, the three were
    found (as [python3], [pip3] and [git]).  [make] and [docker] are only
    ever optional, so their absence never makes the environment not
    ready. *)
Theorem repo_check_needs_python_pip_git (h : Host) (r : Repo) :
  (is_ready (check_for_repo h r) = true ->
   found h "python" = true /\ found h "pip" = true /\ found h "git" = true)
  /\ ~ In "make"%string (missing_required (check_for_repo h r))
  /\ ~ In "docker"%string (missing_required (check_for_repo h r)).
Proof.
  unfold check_for_repo.
  destruct (check_all_report h (repo_tools r)) as (_ & _ & Hmiss & _ & Hready).
  split; [|split].
  - intros Hr. rewrite Hready in Hr.
    assert (Hfound : forall tool,
              In (tool, true) [("python"%string, true); ("pip"%string, true);
                               ("git"%string, true)] ->
              found h tool = true).
    { intros tool Hin. apply Hr. unfold repo_tools. apply in_or_app. by left. }
    split; [apply Hfound; by left|].
    split; [apply Hfound; right; by left|].
    apply Hfound. right. right. by left.
  - intros [Hin _]%Hmiss. by apply in_repo_tools_required in Hin as [? _].
  - intros [Hin _]%Hmiss. by apply in_repo_tools_required in Hin as [_ ?].
Qed.

Lemma repo_check_needs_python_pip_git_witness :
  found bare_host "python" = true /\ found bare_host "pip" = true
  /\ found bare_host "git" = true.
Proof.
  apply (proj1 (repo_check_needs_python_pip_git bare_host plain_repo)).
  reflexivity.
Defined.
End CheckerFacts.

